(** * Receiver-function travel-time mapping, moveout correction, ray tracing
      and time-to-depth conversion ([seispy/rfcorrect.py])

    A shallow embedding of the module-level functions of [rfcorrect.py]
    ([_imag2nan], [moveoutcorrect_ref], [xps_tps_map], [psrf_3D_raytracing],
    [psrf_3D_migration], [time2depth]) and of [RFStation.normalize], together
    with the small part of numpy and scipy they rely on.

    Numbers are kept behind an interface ([Numeric]) with two instances:
    IEEE binary64 ([float], what numpy's float64 is) on which every
    definition runs, and exact reals with an undefined value ([xreal]) on
    which the degree-valued trigonometry of [seispy.geo] can be stated
    exactly.  Python exceptions are values of [result]; the one function
    that updates a caller's array in place runs over a store of arrays. *)

From Stdlib Require Import ZArith List Floats Reals Lra Lia String Bool.
From stdpp Require Import base option list gmap.
Import ListNotations.

(** ** Numbers *)

Class Numeric (F : Type) := {
  fzero : F;
  fone : F;
  fnan : F;
  fadd : F -> F -> F;
  fsub : F -> F -> F;
  fmul : F -> F -> F;
  fdiv : F -> F -> F;
  fopp : F -> F;
  fsqrt : F -> F;
  fabs : F -> F;
  feqb : F -> F -> bool;
  fltb : F -> F -> bool;
  fleb : F -> F -> bool;
  fisnan : F -> bool;
  of_Z : Z -> F;
  (** [int(x)]: truncation toward zero, undefined on NaN and infinities. *)
  ftrunc : F -> option Z;
  (** [ceil(x)], as used for the length of [np.arange]. *)
  fceil : F -> option Z
}.

Declare Scope num_scope.
Delimit Scope num_scope with num.
Infix "+!" := fadd (at level 50, left associativity) : num_scope.
Infix "-!" := fsub (at level 50, left associativity) : num_scope.
Infix "*!" := fmul (at level 40, left associativity) : num_scope.
Infix "/!" := fdiv (at level 40, left associativity) : num_scope.
Infix "==!" := feqb (at level 70, no associativity) : num_scope.
Infix "<!" := fltb (at level 70, no associativity) : num_scope.
Infix "<=!" := fleb (at level 70, no associativity) : num_scope.
Open Scope num_scope.

(** *** IEEE binary64 *)

Module Float64.

Definition of_Z (z : Z) : float :=
  SF2Prim (binary_normalize prec emax z 0 false).

Definition trunc (x : float) : option Z :=
  match Prim2SF x with
  | S754_zero _ => Some 0%Z
  | S754_finite s m e => Some (cond_Zopp s (Z.shiftl (Zpos m) e))
  | _ => None
  end.

Definition ceil (x : float) : option Z :=
  match Prim2SF x with
  | S754_zero _ => Some 0%Z
  | S754_finite s m e =>
      let t := Z.shiftl (Zpos m) e in
      let exact := Z.eqb (Z.shiftl t (- e)) (Zpos m) in
      Some (if s then (- t)%Z else if exact then t else (t + 1)%Z)
  | _ => None
  end.

(** The mantissa of 1.0. *)
Definition P52 : positive := 4503599627370496.

End Float64.

#[export] Instance float_Numeric : Numeric float := {|
  fzero := 0%float;
  fone := 1%float;
  fnan := nan;
  fadd := PrimFloat.add;
  fsub := PrimFloat.sub;
  fmul := PrimFloat.mul;
  fdiv := PrimFloat.div;
  fopp := PrimFloat.opp;
  fsqrt := PrimFloat.sqrt;
  fabs := PrimFloat.abs;
  feqb := PrimFloat.eqb;
  fltb := PrimFloat.ltb;
  fleb := PrimFloat.leb;
  fisnan := PrimFloat.is_nan;
  of_Z := Float64.of_Z;
  ftrunc := Float64.trunc;
  fceil := Float64.ceil
|}.

(** *** Exact reals with an undefined value *)

Inductive xreal : Type :=
| XReal (r : R)
| XNaN.

Module XR.

Definition lift2 (f : R -> R -> R) (x y : xreal) : xreal :=
  match x, y with
  | XReal a, XReal b => XReal (f a b)
  | _, _ => XNaN
  end.

Definition div (x y : xreal) : xreal :=
  match x, y with
  | XReal a, XReal b => if Req_dec_T b 0 then XNaN else XReal (a / b)
  | _, _ => XNaN
  end.

Definition sqrt (x : xreal) : xreal :=
  match x with
  | XReal a => if Rlt_dec a 0 then XNaN else XReal (R_sqrt.sqrt a)
  | XNaN => XNaN
  end.

Definition opp (x : xreal) : xreal :=
  match x with XReal a => XReal (- a) | XNaN => XNaN end.

Definition abs (x : xreal) : xreal :=
  match x with XReal a => XReal (Rabs a) | XNaN => XNaN end.

Definition eqb (x y : xreal) : bool :=
  match x, y with
  | XReal a, XReal b => if Req_dec_T a b then true else false
  | _, _ => false
  end.

Definition ltb (x y : xreal) : bool :=
  match x, y with
  | XReal a, XReal b => if Rlt_dec a b then true else false
  | _, _ => false
  end.

Definition leb (x y : xreal) : bool :=
  match x, y with
  | XReal a, XReal b => if Rle_dec a b then true else false
  | _, _ => false
  end.

Definition isnan (x : xreal) : bool :=
  match x with XReal _ => false | XNaN => true end.

Definition floor (a : R) : Z := Int_part a.

Definition ceil (x : xreal) : option Z :=
  match x with XReal a => Some (- floor (- a))%Z | XNaN => None end.

Definition trunc (x : xreal) : option Z :=
  match x with
  | XReal a => Some (if Rle_dec 0 a then floor a else (- floor (- a))%Z)
  | XNaN => None
  end.

End XR.

#[export] Instance xreal_Numeric : Numeric xreal := {|
  fzero := XReal 0;
  fone := XReal 1;
  fnan := XNaN;
  fadd := XR.lift2 Rplus;
  fsub := XR.lift2 Rminus;
  fmul := XR.lift2 Rmult;
  fdiv := XR.div;
  fopp := XR.opp;
  fsqrt := XR.sqrt;
  fabs := XR.abs;
  feqb := XR.eqb;
  fltb := XR.ltb;
  fleb := XR.leb;
  fisnan := XR.isnan;
  of_Z := fun z => XReal (IZR z);
  ftrunc := XR.trunc;
  fceil := XR.ceil
|}.


(** *** Complex values

    The velocity model's offset and travel-time queries may return values
    with an imaginary part (numpy [complex128]); a [float64] array is the
    special case [im = 0]. *)

Record complex (F : Type) : Type := mkC { re : F; im : F }.
Arguments mkC {F} re im.
Arguments re {F} c.
Arguments im {F} c.

(** ** Python exceptions *)

Inductive exn : Type :=
| ValueError
| TypeError
| IndexError
| AttributeError
| KeyError
| FileNotFoundError.

Inductive result (A : Type) : Type :=
| Ok (a : A)
| Raise (e : exn).
Arguments Ok {A} a.
Arguments Raise {A} e.

Definition bind {A B : Type} (m : result A) (k : A -> result B) : result B :=
  match m with
  | Ok a => k a
  | Raise e => Raise e
  end.

Notation "x <- m ;; k" := (bind m (fun x => k))
  (at level 100, m at next level, right associativity).

Fixpoint mapM {A B : Type} (f : A -> result B) (l : list A) : result (list B) :=
  match l with
  | [] => Ok []
  | a :: l' => b <- f a ;; bs <- mapM f l' ;; Ok (b :: bs)
  end.

Definition is_ok {A : Type} (m : result A) : bool :=
  match m with Ok _ => true | Raise _ => false end.

(** ** The numpy and scipy operations the module uses

    Arrays are lists.  An arithmetic operation between two arrays pairs
    their entries ([zip_with]): the arrays the functions combine have one
    shape, which is what the statements about them assume (on other shapes
    numpy raises, or repeats an array of one entry). *)

Section Numpy.
Context {F : Type} `{Numeric F}.

(** A float64 array seen as a complex one, and the cast numpy applies when
    a complex value is stored into a float64 array (the imaginary part is
    discarded, with a ComplexWarning). *)
Definition of_real (x : F) : complex F := mkC x fzero.
Definition astype_float (l : list (complex F)) : list F := map re l.

Definition np_zeros (n : nat) : list F := replicate n fzero.

(** [np.imag] of a float64 array. *)
Definition np_imag_real (l : list F) : list F := map (fun _ => fzero) l.

(** [buf[i] = row] for a row of a preallocated 2-D array of the given
    width: a row of that width is stored as it is, a row of one entry is
    repeated over the width, and any other row is refused. *)
Definition assign_row (width : nat) (row : list F) : result (list F) :=
  if (length row =? width)%nat then Ok row
  else match row with
       | [v] => Ok (replicate width v)
       | _ => Raise ValueError
       end.

(** [a[i]] for [i] in [range(...)] (IndexError past the end). *)
Definition get_row {A : Type} (l : list A) (i : nat) : result A :=
  match l !! i with Some a => Ok a | None => Raise IndexError end.

(** [a[lo:hi]] for non-negative bounds. *)
Definition slice {A : Type} (lo hi : nat) (l : list A) : list A :=
  drop lo (take hi l).

(** [np.where(cond)[0]]: the indices at which [p] holds, ascending. *)
Fixpoint where_from {A : Type} (p : A -> bool) (k : nat) (l : list A) : list nat :=
  match l with
  | [] => []
  | a :: l' => if p a then k :: where_from p (S k) l' else where_from p (S k) l'
  end.
Definition np_where {A : Type} (p : A -> bool) (l : list A) : list nat :=
  where_from p 0 l.

(** [a[idx]] for an index array [idx] (IndexError out of range). *)
Definition take_indices {A : Type} (l : list A) (idx : list nat) : result (list A) :=
  mapM (fun k => match l !! k with Some a => Ok a | None => Raise IndexError end) idx.

(** [a[i]] for a Python integer: negative indices count from the end. *)
Definition py_get {A : Type} (l : list A) (i : Z) : result A :=
  let n := Z.of_nat (length l) in
  let j := if (i <? 0)%Z then (i + n)%Z else i in
  if (j <? 0)%Z then Raise IndexError
  else match l !! Z.to_nat j with
       | Some a => Ok a
       | None => Raise IndexError
       end.

Fixpoint cumsum_from (acc : F) (l : list F) : list F :=
  match l with
  | [] => []
  | x :: l' => let s := acc +! x in s :: cumsum_from s l'
  end.
Definition np_cumsum (l : list F) : list F :=
  match l with
  | [] => []
  | x :: l' => x :: cumsum_from x l'
  end.

Definition np_diff (l : list F) : list F :=
  zip_with (fun a b => b -! a) l (tail l).

(** [np.sum] and [np.mean]: the entries are added from the left, which is
    the order numpy follows on arrays of fewer than eight entries (longer
    ones are added in blocks; over the exact reals the order is
    immaterial). *)
Definition np_sum (l : list F) : F := fold_left fadd l fzero.
Definition np_mean (l : list F) : F := np_sum l /! of_Z (Z.of_nat (length l)).

(** [arr[mask] = v]. *)
Definition mask_assign (mask : F -> bool) (v : F) (l : list F) : list F :=
  map (fun x => if mask x then v else x) l.

(** [np.arange(start, stop, step)] on floats: [ceil((stop - start)/step)]
    values; numpy stores [start] and [start + step] and fills the rest as
    [start + k*delta], with [delta] the difference of the first two. *)
Definition np_arange (start stop step : F) : result (list F) :=
  match fceil ((stop -! start) /! step) with
  | None => Raise ValueError
  | Some n =>
      let next := start +! step in
      let delta := next -! start in
      Ok (map (fun k => match k with
                        | 0 => start
                        | 1 => next
                        | _ => start +! of_Z (Z.of_nat k) *! delta
                        end)
              (seq 0 (Z.to_nat n)))
  end.

(** [range(a, b)] / [np.arange(a, b)] on integers. *)
Definition py_range (a b : Z) : list Z :=
  map (fun k => (a + Z.of_nat k)%Z) (seq 0 (Z.to_nat (b - a))).

(** [np.nanmax]: the maximum ignoring NaN; NaN when every entry is NaN, and
    ValueError on an array without entries. *)
Definition np_nanmax (l : list F) : result F :=
  match l with
  | [] => Raise ValueError
  | _ => Ok (fold_left (fun m x => if fisnan x then m
                                   else if fisnan m then x
                                   else if m <! x then x else m) l fnan)
  end.

End Numpy.

(** *** [scipy.interpolate.interp1d], linear kind

    The constructor checks that [x] and [y] have the same length and at
    least one entry (ValueError otherwise) and sorts the samples by [x]
    (stable, NaN last).  A call computes every value by linear interpolation
    in the bracketing interval found by a left binary search clipped to
    [1 .. n-1]; then, if [bounds_error] is set, a query below [x[0]] or above
    [x[-1]] raises ValueError, and otherwise such queries get the lower and
    upper fill value. *)

Section Interp1d.
Context {F : Type} `{Numeric F}.

Definition np_lt (a b : F) : bool :=
  (a <! b) || (fisnan b && negb (fisnan a)).

Fixpoint insert_by_x (p : F * F) (l : list (F * F)) : list (F * F) :=
  match l with
  | [] => [p]
  | q :: l' => if np_lt (fst q) (fst p) then q :: insert_by_x p l' else p :: q :: l'
  end.

Definition sort_by_x (l : list (F * F)) : list (F * F) :=
  foldr insert_by_x [] l.

Record interp1d_obj : Type := {
  ip_x : list F;
  ip_y : list F;
  ip_bounds_error : bool;
  ip_fill : F * F
}.

Definition interp1d (x y : list F) (bounds_error : bool) (fill_value : F * F)
  : result interp1d_obj :=
  if negb (length x =? length y)%nat then Raise ValueError
  else
    let s := sort_by_x (zip x y) in
    if (length x <? 1)%nat then Raise ValueError
    else Ok {| ip_x := map fst s; ip_y := map snd s;
               ip_bounds_error := bounds_error; ip_fill := fill_value |}.

(** [np.searchsorted(xs, q)] (side left) on a sorted array. *)
Fixpoint searchsorted (xs : list F) (q : F) : nat :=
  match xs with
  | [] => 0
  | x :: xs' => if np_lt x q then S (searchsorted xs' q) else 0
  end.

(** Python indexing with the interpolation's own indices, which are in
    range for a constructed interpolant ([-1] is the last entry). *)
Definition py_nth (l : list F) (i : Z) : F :=
  match py_get l i with Ok v => v | Raise _ => fnan end.

Definition interp_point (o : interp1d_obj) (q : F) : F :=
  let n := Z.of_nat (length (ip_x o)) in
  let hi := Z.min (Z.max (Z.of_nat (searchsorted (ip_x o) q)) 1) (n - 1) in
  let lo := (hi - 1)%Z in
  let x_lo := py_nth (ip_x o) lo in
  let x_hi := py_nth (ip_x o) hi in
  let y_lo := py_nth (ip_y o) lo in
  let y_hi := py_nth (ip_y o) hi in
  let slope := (y_hi -! y_lo) /! (x_hi -! x_lo) in
  slope *! (q -! x_lo) +! y_lo.

Definition below_bounds (o : interp1d_obj) (q : F) : bool :=
  q <! py_nth (ip_x o) 0.
Definition above_bounds (o : interp1d_obj) (q : F) : bool :=
  py_nth (ip_x o) (-1) <! q.

Definition interp_fill (o : interp1d_obj) (q : F) : F :=
  if above_bounds o q then snd (ip_fill o)
  else if below_bounds o q then fst (ip_fill o)
  else interp_point o q.

Definition interp1d_call (o : interp1d_obj) (x_new : list F) : result (list F) :=
  if ip_bounds_error o && existsb (below_bounds o) x_new then Raise ValueError
  else if ip_bounds_error o && existsb (above_bounds o) x_new then Raise ValueError
  else Ok (map (interp_fill o) x_new).

(** [interp1d(x, y)(x_new)]: bounds are enforced. *)
Definition interp_strict (x y x_new : list F) : result (list F) :=
  o <- interp1d x y true (fnan, fnan) ;; interp1d_call o x_new.

(** [interp1d(x, y, bounds_error=False)(x_new)]: NaN outside the range. *)
Definition interp_nan (x y x_new : list F) : result (list F) :=
  o <- interp1d x y false (fnan, fnan) ;; interp1d_call o x_new.

(** [interp1d(x, y, bounds_error=False, fill_value=(lo, hi))(x_new)]. *)
Definition interp_filled (x y : list F) (fill : F * F) (x_new : list F)
  : result (list F) :=
  o <- interp1d x y false fill ;; interp1d_call o x_new.

(** The same with complex samples [y] over a real axis [x]: both parts are
    interpolated on the same intervals, and the fill values are complex. *)
Definition interp_filled_c (x : list F) (y : list (complex F))
    (fill : complex F * complex F) (x_new : list F) : result (list (complex F)) :=
  r <- interp_filled x (map re y) (re (fst fill), re (snd fill)) x_new ;;
  i <- interp_filled x (map im y) (im (fst fill), im (snd fill)) x_new ;;
  Ok (zip_with mkC r i).

End Interp1d.

(** ** Arrays of dtype float64 or complex128

    [moveoutcorrect_ref] keeps the travel-time curve of the reference ray
    parameter as the velocity model returns it, so the arithmetic on it,
    the new time axis built from it and the interpolation over that axis
    are complex when the curve is.  A numpy scalar or array is therefore
    tagged with its dtype; an operation between a float64 and a complex128
    operand first turns the float64 one into a complex128 one with
    imaginary part zero. *)

Inductive scalar (F : Type) : Type :=
| SFloat (x : F)
| SComplex (z : complex F).
Arguments SFloat {F} x.
Arguments SComplex {F} z.

Inductive ndarray (F : Type) : Type :=
| Float64 (a : list F)
| Complex128 (a : list (complex F)).
Arguments Float64 {F} a.
Arguments Complex128 {F} a.

Section Complex128.
Context {F : Type} `{Numeric F}.

Definition c_add (a b : complex F) : complex F :=
  mkC (re a +! re b) (im a +! im b).
Definition c_sub (a b : complex F) : complex F :=
  mkC (re a -! re b) (im a -! im b).
Definition c_mul (a b : complex F) : complex F :=
  mkC (re a *! re b -! im a *! im b) (re a *! im b +! im a *! re b).

(** numpy's complex division: the quotient is scaled by the larger part
    of the divisor. *)
Definition c_div (a b : complex F) : complex F :=
  let in2r_abs := fabs (re b) in
  let in2i_abs := fabs (im b) in
  if in2i_abs <=! in2r_abs then
    if (in2r_abs ==! fzero) && (in2i_abs ==! fzero)
    then mkC (re a /! in2r_abs) (im a /! in2r_abs)
    else
      let rat := im b /! re b in
      let scl := fone /! (re b +! im b *! rat) in
      mkC ((re a +! im a *! rat) *! scl) ((im a -! re a *! rat) *! scl)
  else
    let rat := re b /! im b in
    let scl := fone /! (im b +! re b *! rat) in
    mkC ((re a *! rat +! im a) *! scl) ((im a *! rat -! re a) *! scl).

Definition to_complex (s : scalar F) : complex F :=
  match s with
  | SFloat x => of_real x
  | SComplex z => z
  end.

Definition sc_op (f : F -> F -> F) (g : complex F -> complex F -> complex F)
    (a b : scalar F) : scalar F :=
  match a, b with
  | SFloat x, SFloat y => SFloat (f x y)
  | _, _ => SComplex (g (to_complex a) (to_complex b))
  end.
Definition sc_add : scalar F -> scalar F -> scalar F := sc_op fadd c_add.
Definition sc_sub : scalar F -> scalar F -> scalar F := sc_op fsub c_sub.
Definition sc_mul : scalar F -> scalar F -> scalar F := sc_op fmul c_mul.
Definition sc_div : scalar F -> scalar F -> scalar F := sc_op fdiv c_div.

Definition nd_length (a : ndarray F) : nat :=
  match a with
  | Float64 l => length l
  | Complex128 l => length l
  end.

(** [a.astype(complex)] *)
Definition nd_complex (a : ndarray F) : list (complex F) :=
  match a with
  | Float64 l => map of_real l
  | Complex128 l => l
  end.

(** What a float64 buffer holds after [buf[i] = a]: a complex128 array
    loses its imaginary parts (with a ComplexWarning). *)
Definition nd_real (a : ndarray F) : list F :=
  match a with
  | Float64 l => l
  | Complex128 l => astype_float l
  end.

(** [a[i]] for a Python integer. *)
Definition nd_get (a : ndarray F) (i : Z) : result (scalar F) :=
  match a with
  | Float64 l => x <- py_get l i ;; Ok (SFloat x)
  | Complex128 l => z <- py_get l i ;; Ok (SComplex z)
  end.

(** [np.append(a, b)] for arrays, and for a scalar [s]. *)
Definition nd_append (a b : ndarray F) : ndarray F :=
  match a, b with
  | Float64 x, Float64 y => Float64 (x ++ y)
  | _, _ => Complex128 (nd_complex a ++ nd_complex b)
  end.
Definition nd_append_scalar (a : ndarray F) (s : scalar F) : ndarray F :=
  match a, s with
  | Float64 x, SFloat v => Float64 (x ++ [v])
  | _, _ => Complex128 (nd_complex a ++ [to_complex s])
  end.

(** [a[lo:hi]] and [a[0:n]] for non-negative bounds. *)
Definition nd_slice (lo hi : nat) (a : ndarray F) : ndarray F :=
  match a with
  | Float64 l => Float64 (slice lo hi l)
  | Complex128 l => Complex128 (slice lo hi l)
  end.
Definition nd_take (n : nat) (a : ndarray F) : ndarray F :=
  match a with
  | Float64 l => Float64 (take n l)
  | Complex128 l => Complex128 (take n l)
  end.

(** [np.where(np.isnan(a))[0]]: a complex value is NaN when one of its
    parts is. *)
Definition c_isnan (z : complex F) : bool := fisnan (re z) || fisnan (im z).
Definition nd_where_isnan (a : ndarray F) : list nat :=
  match a with
  | Float64 l => np_where fisnan l
  | Complex128 l => np_where c_isnan l
  end.

(** The dtype of a curve the velocity model returns: complex128 when a
    value carries an imaginary part, float64 otherwise (the record of the
    model holds both as lists of complex values). *)
Definition as_ndarray (a : list (complex F)) : ndarray F :=
  if forallb (fun z => im z ==! fzero) a then Float64 (astype_float a)
  else Complex128 a.

(** *** [interp1d] over complex abscissae

    numpy orders complex128 values by real part, then by imaginary part:
    [c_sort_lt] is the order of its sorting and searching (NaN last),
    [c_less] and [c_greater] are [<] and [>]. *)
Definition c_sort_lt (a b : complex F) : bool :=
  if re a <! re b then negb (fisnan (im a)) || fisnan (im b)
  else if re b <! re a then fisnan (im b) && negb (fisnan (im a))
  else if (re a ==! re b) || (fisnan (re a) && fisnan (re b))
       then (im a <! im b) || (fisnan (im b) && negb (fisnan (im a)))
       else fisnan (re b).

Definition c_less (x y : complex F) : bool :=
  ((re x <! re y) && negb (fisnan (im x)) && negb (fisnan (im y)))
  || ((re x ==! re y) && (im x <! im y)).
Definition c_greater (x y : complex F) : bool :=
  ((re y <! re x) && negb (fisnan (im x)) && negb (fisnan (im y)))
  || ((re x ==! re y) && (im y <! im x)).

Fixpoint insert_by_cx (p : complex F * F) (l : list (complex F * F))
  : list (complex F * F) :=
  match l with
  | [] => [p]
  | q :: l' =>
      if c_sort_lt (fst q) (fst p) then q :: insert_by_cx p l' else p :: q :: l'
  end.

Definition sort_by_cx (l : list (complex F * F)) : list (complex F * F) :=
  foldr insert_by_cx [] l.

Record interp1d_cobj : Type := {
  ic_x : list (complex F);
  ic_y : list F;
  ic_bounds_error : bool;
  ic_fill : F * F
}.

Definition interp1d_cx (x : list (complex F)) (y : list F) (bounds_error : bool)
    (fill_value : F * F) : result interp1d_cobj :=
  if negb (length x =? length y)%nat then Raise ValueError
  else
    let s := sort_by_cx (zip x y) in
    if (length x <? 1)%nat then Raise ValueError
    else Ok {| ic_x := map fst s; ic_y := map snd s;
               ic_bounds_error := bounds_error; ic_fill := fill_value |}.

Fixpoint searchsorted_cx (xs : list (complex F)) (q : complex F) : nat :=
  match xs with
  | [] => 0
  | x :: xs' => if c_sort_lt x q then S (searchsorted_cx xs' q) else 0
  end.

Definition py_nth_cx (l : list (complex F)) (i : Z) : complex F :=
  match py_get l i with Ok v => v | Raise _ => mkC fnan fzero end.

Definition interp_point_cx (o : interp1d_cobj) (q : F) : complex F :=
  let n := Z.of_nat (length (ic_x o)) in
  let hi := Z.min (Z.max (Z.of_nat (searchsorted_cx (ic_x o) (of_real q))) 1) (n - 1) in
  let lo := (hi - 1)%Z in
  let x_lo := py_nth_cx (ic_x o) lo in
  let x_hi := py_nth_cx (ic_x o) hi in
  let y_lo := py_nth (ic_y o) lo in
  let y_hi := py_nth (ic_y o) hi in
  let slope := c_div (of_real (y_hi -! y_lo)) (c_sub x_hi x_lo) in
  c_add (c_mul slope (c_sub (of_real q) x_lo)) (of_real y_lo).

Definition below_bounds_cx (o : interp1d_cobj) (q : F) : bool :=
  c_less (of_real q) (py_nth_cx (ic_x o) 0).
Definition above_bounds_cx (o : interp1d_cobj) (q : F) : bool :=
  c_greater (of_real q) (py_nth_cx (ic_x o) (-1)).

Definition interp_fill_cx (o : interp1d_cobj) (q : F) : complex F :=
  if above_bounds_cx o q then of_real (snd (ic_fill o))
  else if below_bounds_cx o q then of_real (fst (ic_fill o))
  else interp_point_cx o q.

Definition interp1d_call_cx (o : interp1d_cobj) (x_new : list F)
  : result (list (complex F)) :=
  if ic_bounds_error o && existsb (below_bounds_cx o) x_new then Raise ValueError
  else if ic_bounds_error o && existsb (above_bounds_cx o) x_new then Raise ValueError
  else Ok (map (interp_fill_cx o) x_new).

(** [interp1d(x, y, bounds_error=False)(x_new)] for [x] of either dtype. *)
Definition interp_nan_cx (x : list (complex F)) (y x_new : list F)
  : result (list (complex F)) :=
  o <- interp1d_cx x y false (fnan, fnan) ;; interp1d_call_cx o x_new.

Definition nd_interp_nan (x : ndarray F) (y x_new : list F) : result (ndarray F) :=
  match x with
  | Float64 x => r <- interp_nan x y x_new ;; Ok (Float64 r)
  | Complex128 x => r <- interp_nan_cx x y x_new ;; Ok (Complex128 r)
  end.

End Complex128.

(** ** Data model *)

(** The prime component of a station ([RFStation._chech_comp] admits no
    other) and the key of its amplitude array in the station's
    [__dict__]. *)
Inductive Comp : Type := CompR | CompQ | CompL | CompZ.

Definition data_key (c : Comp) : string :=
  match c with
  | CompR => "datar"
  | CompQ => "dataq"
  | CompL => "datal"
  | CompZ => "dataz"
  end.

(** [RFStation]: the fields the functions below read.  The amplitude
    arrays are the entries of the object's [__dict__] ("datar", "datat",
    ...), one row per event. *)
Record RFStation (F : Type) : Type := {
  comp : Comp;
  only_r : bool;
  ev_num : nat;
  rflength : nat;
  sampling : F;
  shift : F;
  stla : F;
  stlo : F;
  stel : F;
  time_axis : list F;
  rayp : list F;
  bazi : list F;
  dis : list F;
  evdp : list F;
  data_dict : gmap string (list (list F))
}.
Arguments comp {F} _.
Arguments only_r {F} _.
Arguments ev_num {F} _.
Arguments rflength {F} _.
Arguments sampling {F} _.
Arguments shift {F} _.
Arguments stla {F} _.
Arguments stlo {F} _.
Arguments stel {F} _.
Arguments time_axis {F} _.
Arguments rayp {F} _.
Arguments bazi {F} _.
Arguments dis {F} _.
Arguments evdp {F} _.
Arguments data_dict {F} _.

Inductive Phase : Type := PhaseP | PhaseS.

(** A ray parameter handed to the velocity model: one value, or one value
    per depth (from the ray-parameter library). *)
Inductive rayparam (F : Type) : Type :=
| RpScalar (p : F)
| RpArray (ps : list F).
Arguments RpScalar {F} p.
Arguments RpArray {F} ps.

(** [seispy.utils.DepModel] is not part of this module; its queries are
    taken as they are: curves over the elevation-adjusted depth grid whose
    values may carry an imaginary part. *)
Record DepModel (F : Type) : Type := {
  depths : list F;
  depths_elev : list F;
  elevation : F;
  radius_s : rayparam F -> Phase -> bool -> list (complex F);
  raylength : rayparam F -> Phase -> bool -> list (complex F);
  tpds : rayparam F -> rayparam F -> bool -> list (complex F)
}.
Arguments depths {F} _.
Arguments depths_elev {F} _.
Arguments elevation {F} _.
Arguments radius_s {F} _ _ _ _.
Arguments raylength {F} _ _ _ _.
Arguments tpds {F} _ _ _ _.

(** [seispy.utils.Mod3DPerturbation]: the velocity sampled by [interpn] at
    (depth, latitude, longitude) with extrapolation outside the grid, the
    fractional perturbations at a point, and the reference velocities. *)
Record Mod3DPerturbation (F : Type) : Type := {
  model_vs : F -> F -> F -> F;
  model_vp : F -> F -> F -> F;
  interpdvs : F * F * F -> F;
  interpdvp : F * F * F -> F;
  cvs : F;
  cvp : F
}.
Arguments model_vs {F} _ _ _ _.
Arguments model_vp {F} _ _ _ _.
Arguments interpdvs {F} _ _.
Arguments interpdvp {F} _ _.
Arguments cvs {F} _.
Arguments cvp {F} _.

(** The functions of [seispy.geo] the module calls. *)
Record Geo (F : Type) : Type := {
  tand : F -> F;
  asind : F -> F;
  km2deg : F -> F;
  srad2skm : F -> F;
  skm2srad : F -> F;
  sdeg2skm : F -> F;
  latlon_from : F -> F -> F -> F -> F * F
}.
Arguments tand {F} _ _.
Arguments asind {F} _ _.
Arguments km2deg {F} _ _.
Arguments srad2skm {F} _ _.
Arguments skm2srad {F} _ _.
Arguments sdeg2skm {F} _ _.
Arguments latlon_from {F} _ _ _ _ _.

(** The [srayp] argument: [None], or a ray-parameter library (loaded, or
    the path of a file that exists) with its lookup
    [get_psrayp(lib, dis, evdp, depths)], which returns one ray parameter
    per depth, or a path that does not exist, or a value of another type. *)
Inductive srayp_arg (F : Type) : Type :=
| SraypNone
| SraypLib (get_psrayp : F -> F -> list F -> list F)
| SraypMissingFile
| SraypOther.
Arguments SraypNone {F}.
Arguments SraypLib {F} get_psrayp.
Arguments SraypMissingFile {F}.
Arguments SraypOther {F}.

(** ** [_imag2nan] and [xps_tps_map] *)

Section RayTimeMapper.
Context {F : Type} `{Numeric F}.

Definition c_nan : complex F := mkC fnan fzero.

Definition _imag2nan (arr : list (complex F)) : list (complex F) :=
  let StopIndex := np_where (fun z => im z ==! fone) arr in
  match StopIndex with
  | [] => arr
  | k :: _ => take k arr ++ replicate (length arr - k) c_nan
  end.

Record xps_tps : Type := {
  xt_tps : list (complex F);
  xt_x_s : list (complex F);
  xt_x_p : list (complex F);
  xt_raylength : option (list (complex F) * list (complex F))
}.

(** [interp1d(depths_elev, curve, bounds_error=False,
              fill_value=(np.nan, curve[-1]))(depths)] *)
Definition to_depths (dep_mod : DepModel F) (curve : list (complex F))
  : result (list (complex F)) :=
  last_v <- py_get curve (-1) ;;
  interp_filled_c (depths_elev dep_mod) curve (c_nan, last_v) (depths dep_mod).

Definition xps_tps_map (dep_mod : DepModel F) (srayp prayp : rayparam F)
    (is_raylen sphere : bool) : result xps_tps :=
  let x_s := radius_s dep_mod prayp PhaseS sphere in
  let x_p := radius_s dep_mod prayp PhaseP sphere in
  let rl := if is_raylen
            then Some (raylength dep_mod srayp PhaseS sphere,
                       raylength dep_mod prayp PhaseP sphere)
            else None in
  let tps := tpds dep_mod srayp prayp sphere in
  if negb (elevation dep_mod ==! fzero) then
    x_s' <- to_depths dep_mod x_s ;;
    x_p' <- to_depths dep_mod x_p ;;
    tps' <- to_depths dep_mod tps ;;
    match rl with
    | Some (raylength_s, raylength_p) =>
        raylength_s' <- to_depths dep_mod raylength_s ;;
        raylength_p' <- to_depths dep_mod raylength_p ;;
        Ok {| xt_tps := tps'; xt_x_s := x_s'; xt_x_p := x_p';
              xt_raylength := Some (raylength_s', raylength_p') |}
    | None =>
        Ok {| xt_tps := tps'; xt_x_s := x_s'; xt_x_p := x_p';
              xt_raylength := None |}
    end
  else Ok {| xt_tps := tps; xt_x_s := x_s; xt_x_p := x_p; xt_raylength := rl |}.

End RayTimeMapper.

(** ** [moveoutcorrect_ref] *)

(** What the variable [StopIndex] holds: the integer [depths.shape[0]], or
    the index array returned by [np.where]. *)
Inductive stop_index : Type :=
| StopLen (n : nat)
| StopArr (idx : list nat).

(** [a[0:StopIndex]].  numpy takes a slice bound through [__index__], which
    it provides for 0-d integer arrays only: the 1-d array of [np.where] is
    refused with TypeError. *)
Definition slice_to {A : Type} (l : list A) (stop : stop_index) : result (list A) :=
  match stop with
  | StopLen n => Ok (take n l)
  | StopArr _ => Raise TypeError
  end.

(** [EndIndex[i] = StopIndex - 1]: an array is stored into the scalar slot
    only when it has one element. *)
Definition stop_minus_one (stop : stop_index) : result Z :=
  match stop with
  | StopLen n => Ok (Z.of_nat n - 1)%Z
  | StopArr [k] => Ok (Z.of_nat k - 1)%Z
  | StopArr _ => Raise ValueError
  end.

Section MoveoutCorrector.
Context {F : Type} `{Numeric F}.

Definition get_attr (sta : RFStation F) (name : string) : result (list (list F)) :=
  match data_dict sta !! name with
  | Some d => Ok d
  | None => Raise AttributeError
  end.

Definition select_chan (sta : RFStation F) (chan : string) : result (list (list F)) :=
  if String.eqb chan "r" then get_attr sta "datar"
  else if String.eqb chan "t" then get_attr sta "datat"
  else if String.eqb chan "z" then get_attr sta "dataz"
  else if String.eqb chan "l" then get_attr sta "datal"
  else Raise ValueError.

(** [Refaxis = j * sampling - shift] *)
Definition refaxis (sta : RFStation F) (j : Z) : F :=
  of_Z j *! sampling sta -! shift sta.

(** [np.where(Refaxis <= tps[i, 0:StopIndex])[0]] *)
Definition crossing (sta : RFStation F) (tps_i : list F) (stop : stop_index) (j : Z)
  : result (list nat) :=
  sl <- slice_to tps_i stop ;;
  Ok (np_where (fun t => refaxis sta j <=! t) sl).

(** The loop over [j]; an empty crossing search leaves it ([break]).
    [Tpds_ref] has the dtype of the reference curve, [tps_i] is a row of
    the float64 buffer. *)
Fixpoint newaxis_loop (sta : RFStation F) (Tpds_ref : ndarray F) (tps_i : list F)
    (stop : stop_index) (js : list Z) (Newaxis : ndarray F) : result (ndarray F) :=
  match js with
  | [] => Ok Newaxis
  | j :: js' =>
      index <- crossing sta tps_i stop j ;;
      match index with
      | [] => Ok Newaxis
      | i0 :: _ =>
          let i0 := Z.of_nat i0 in
          r1 <- nd_get Tpds_ref i0 ;;
          r0 <- nd_get Tpds_ref (i0 - 1) ;;
          t1 <- py_get tps_i i0 ;;
          t0 <- py_get tps_i (i0 - 1) ;;
          let Ratio := sc_div (sc_sub r1 r0) (SFloat (t1 -! t0)) in
          newaxis_loop sta Tpds_ref tps_i stop js'
            (nd_append_scalar Newaxis
               (sc_add r0 (sc_mul (SFloat (refaxis sta j -! t0)) Ratio)))
      end
  end.

(** [np.arange(0, rflength) * sampling - shift] *)
Definition x_new_axis (sta : RFStation F) : list F :=
  map (refaxis sta) (py_range 0 (Z.of_nat (rflength sta))).

(** The zero padding or cut that brings [New_data] to the trace length. *)
Definition nd_fit_length (rflength : nat) (New_data : ndarray F) : ndarray F :=
  if (nd_length New_data <? rflength)%nat
  then nd_append New_data (Float64 (np_zeros (rflength - nd_length New_data)))
  else nd_take rflength New_data.

(** The body of the second loop over the events.  The row is stored in the
    float64 buffer [Newdatar]. *)
Definition moveout_event (sta : RFStation F) (n_depths : nat)
    (Tpds_ref : ndarray F) (TempTpds : list F) (data : list (list F)) (i : nat)
  : result (list F * Z) :=
  let StopIndex := np_where (fun v => v ==! fone) (np_imag_real TempTpds) in
  let StopIndex := match StopIndex with
                   | [] => StopLen n_depths
                   | _ => StopArr StopIndex
                   end in
  EndIndex_i <- stop_minus_one StopIndex ;;
  pre <- np_arange (fopp (shift sta)) fzero (sampling sta) ;;
  let Newaxis := Float64 (pre ++ [fzero]) in
  j0 <- match ftrunc (shift sta /! sampling sta +! fone) with
        | Some j0 => Ok j0
        | None => Raise ValueError
        end ;;
  Newaxis <- newaxis_loop sta Tpds_ref TempTpds StopIndex
               (py_range j0 (Z.of_nat (rflength sta))) Newaxis ;;
  let endidx := nd_length Newaxis in
  data_i <- get_row data i ;;
  Tempdata <- nd_interp_nan Newaxis (take endidx data_i) (x_new_axis sta) ;;
  let endIndice := nd_where_isnan Tempdata in
  let New_data := match endIndice with
                  | [] => Tempdata
                  | e0 :: _ =>
                      nd_append (nd_slice 1 e0 Tempdata)
                                (Float64 (drop (endidx + 1) data_i))
                  end in
  row <- assign_row (rflength sta) (nd_real (nd_fit_length (rflength sta) New_data)) ;;
  Ok (row, EndIndex_i).

(** [DepModel(YAxisRange, velmod, stel)] is taken as a parameter. *)
Definition moveoutcorrect_ref
    (DepModel_init : list F -> string -> F -> result (DepModel F))
    (stadatar : RFStation F) (raypref : F) (YAxisRange : list F)
    (chan velmod : string) (sphere : bool)
  : result (list (list F) * list Z) :=
  data <- select_chan stadatar chan ;;
  dep_mod <- DepModel_init YAxisRange velmod (stel stadatar) ;;
  tps <- mapM (fun i =>
                 p <- get_row (rayp stadatar) i ;;
                 m <- xps_tps_map dep_mod (RpScalar p) (RpScalar p) false sphere ;;
                 assign_row (length YAxisRange) (astype_float (xt_tps m)))
              (seq 0 (ev_num stadatar)) ;;
  ref <- xps_tps_map dep_mod (RpScalar raypref) (RpScalar raypref) false sphere ;;
  let Tpds_ref := as_ndarray (xt_tps ref) in
  rows <- mapM (fun i =>
                  TempTpds <- get_row tps i ;;
                  moveout_event stadatar (length (depths dep_mod))
                    Tpds_ref TempTpds data i)
               (seq 0 (ev_num stadatar)) ;;
  Ok (map fst rows, map snd rows).

End MoveoutCorrector.

(** ** [RFStation.normalize] and [time2depth] *)

Section TimeDepthConverter.
Context {F : Type} `{Numeric F}.

(** [stadatar.__dict__['data{}'.format(stadatar.comp.lower())]] *)
Definition prime_data (sta : RFStation F) : result (list (list F)) :=
  match data_dict sta !! data_key (comp sta) with
  | Some d => Ok d
  | None => Raise KeyError
  end.

(** [np.mean(data, axis=0)] for rows of the trace length. *)
Definition mean_axis0 (ncols : nat) (rows : list (list F)) : list F :=
  map (fun j => np_mean (map (fun r => default fnan (r !! j)) rows)) (seq 0 ncols).

(** One turn of the loop of [normalize]: row [i] of the prime component is
    divided in place by [maxamp[i]], and so is row [i] of [datat] unless the
    station holds the prime component alone. *)
Definition normalize_step (sta : RFStation F) (maxamp : list F)
    (dict : gmap string (list (list F))) (i : nat)
  : result (gmap string (list (list F))) :=
  data <- match dict !! data_key (comp sta) with
          | Some d => Ok d
          | None => Raise KeyError
          end ;;
  row <- get_row data i ;;
  m <- get_row maxamp i ;;
  let dict := <[data_key (comp sta) := <[i := map (fun a => a /! m) row]> data]> dict in
  if only_r sta then Ok dict
  else match dict !! "datat"%string with
       | None => Raise AttributeError
       | Some datat =>
           trow <- get_row datat i ;;
           m <- get_row maxamp i ;;
           Ok (<["datat"%string := <[i := map (fun a => a /! m) trow]> datat]> dict)
       end.

Fixpoint normalize_loop (sta : RFStation F) (maxamp : list F) (events : list nat)
    (dict : gmap string (list (list F))) : result (gmap string (list (list F))) :=
  match events with
  | [] => Ok dict
  | i :: events' =>
      dict' <- normalize_step sta maxamp dict i ;;
      normalize_loop sta maxamp events' dict'
  end.

(** [RFStation.normalize(method)]: the divisor of each trace is its own
    largest absolute amplitude ([single]) or the largest absolute amplitude
    of the mean trace ([average]). *)
Definition normalize (sta : RFStation F) (method : string) : result (RFStation F) :=
  maxamp <- (if String.eqb method "single"
             then data <- prime_data sta ;;
                  mapM (fun row => np_nanmax (map fabs row)) data
             else if String.eqb method "average"
             then data <- prime_data sta ;;
                  amp <- np_nanmax (map fabs (mean_axis0 (rflength sta) data)) ;;
                  Ok (replicate (ev_num sta) (fone *! amp))
             else Raise ValueError) ;;
  dict' <- normalize_loop sta maxamp (seq 0 (ev_num sta)) (data_dict sta) ;;
  Ok {| comp := comp sta; only_r := only_r sta; ev_num := ev_num sta;
        rflength := rflength sta; sampling := sampling sta; shift := shift sta;
        stla := stla sta; stlo := stlo sta; stel := stel sta;
        time_axis := time_axis sta; rayp := rayp sta; bazi := bazi sta;
        dis := dis sta; evdp := evdp sta; data_dict := dict' |}.

(** The depth at each sample of the time axis, with the end index.  The
    travel-time array is float64 (it is built in a [np.zeros] buffer by
    [psrf2depth] and by [psrf_3D_timecorrect]). *)
Definition depth_axis (sta : RFStation F) (YAxisRange TempTpds : list F)
  : result (Z * list F) :=
  let StopIndex := np_where (fun v => v ==! fone) (np_imag_real TempTpds) in
  match StopIndex with
  | [] =>
      DepthAxis <- interp_nan TempTpds YAxisRange (time_axis sta) ;;
      Ok ((Z.of_nat (length YAxisRange) - 1)%Z, DepthAxis)
  | k :: _ =>
      x <- slice_to TempTpds (StopArr StopIndex) ;;
      y <- slice_to YAxisRange (StopArr StopIndex) ;;
      DepthAxis <- interp_nan x y (time_axis sta) ;;
      Ok ((Z.of_nat k - 1)%Z, DepthAxis)
  end.

(** The row of [PS_RFdepth] for one event, given its depth axis: zeros
    unless the amplitudes are resampled ([continue] otherwise). *)
Definition depth_row (YAxisRange DepthAxis PS_RFTempAmps : list F) : result (list F) :=
  let ValueIndices := np_where (fun d => negb (fisnan d)) DepthAxis in
  match ValueIndices with
  | [] => Ok (np_zeros (length YAxisRange))
  | _ =>
      if (length PS_RFTempAmps <? foldr Nat.max 0 ValueIndices)%nat
      then Ok (np_zeros (length YAxisRange))
      else
        x <- take_indices DepthAxis ValueIndices ;;
        y <- take_indices PS_RFTempAmps ValueIndices ;;
        PS_RFAmps <- interp_nan x y YAxisRange ;;
        assign_row (length YAxisRange) PS_RFAmps
  end.

Definition time2depth_event (sta : RFStation F) (YAxisRange : list F)
    (Tpds : list (list F)) (i : nat) : result (list F * Z) :=
  TempTpds <- get_row Tpds i ;;
  ed <- depth_axis sta YAxisRange TempTpds ;;
  data <- prime_data sta ;;
  PS_RFTempAmps <- get_row data i ;;
  row <- depth_row YAxisRange (snd ed) PS_RFTempAmps ;;
  Ok (row, fst ed).

(** [normalize] is the method name, or [None]; an empty string is falsy. *)
Definition time2depth (stadatar : RFStation F) (YAxisRange : list F)
    (Tpds : list (list F)) (normalize_arg : option string)
  : result (list (list F) * list Z) :=
  sta <- match normalize_arg with
         | None => Ok stadatar
         | Some m => if String.eqb m "" then Ok stadatar else normalize stadatar m
         end ;;
  rows <- mapM (time2depth_event sta YAxisRange Tpds) (seq 0 (ev_num sta)) ;;
  Ok (map fst rows, map snd rows).

End TimeDepthConverter.

(** ** [psrf_3D_migration] *)

Section MigrationCorrector.
Context {F : Type} `{Numeric F}.

(** One entry of [tmpds]. *)
Definition tmpds_term (mod3d : Mod3DPerturbation F) (dls dvs dlp dvp : F) : F :=
  (dls /! (cvs mod3d *! (fone +! dvs)) -! dls /! cvs mod3d)
  -! (dlp /! (cvp mod3d *! (fone +! dvp)) -! dlp /! cvp mod3d).

(** [np.array([YAxisRange, lat, lon]).T] *)
Definition points (YAxisRange lat lon : list F) : list (F * F * F) :=
  zip (zip YAxisRange lat) lon.

Definition raw_tmpds (mod3d : Mod3DPerturbation F)
    (YAxisRange plat_s plon_s plat_p plon_p dls dlp : list F) : list F :=
  let dvp := map (interpdvp mod3d) (points YAxisRange plat_p plon_p) in
  let dvs := map (interpdvs mod3d) (points YAxisRange plat_s plon_s) in
  zip_with (fun s p => tmpds_term mod3d (fst s) (snd s) (fst p) (snd p))
           (zip dls dvs) (zip dlp dvp).

Definition timecorrection (mod3d : Mod3DPerturbation F)
    (YAxisRange plat_s plon_s plat_p plon_p dls dlp : list F) : list F :=
  let tmpds := raw_tmpds mod3d YAxisRange plat_s plon_s plat_p plon_p dls dlp in
  let tmpds := mask_assign fisnan fzero tmpds in
  np_cumsum tmpds.

Definition psrf_3D_migration
    (pplat_s pplon_s pplat_p pplon_p raylength_s raylength_p Tpds : list (list F))
    (YAxisRange : list F) (mod3d : Mod3DPerturbation F) : result (list (list F)) :=
  let ev_num := length raylength_p in
  timecorrections <-
    mapM (fun i =>
            plat_p <- get_row pplat_p i ;;
            plon_p <- get_row pplon_p i ;;
            plat_s <- get_row pplat_s i ;;
            plon_s <- get_row pplon_s i ;;
            dlp <- get_row raylength_p i ;;
            dls <- get_row raylength_s i ;;
            assign_row (length dlp)
              (timecorrection mod3d YAxisRange plat_s plon_s plat_p plon_p dls dlp))
         (seq 0 ev_num) ;;
  Ok (zip_with (zip_with fadd) Tpds timecorrections).

End MigrationCorrector.

(** ** [psrf_3D_raytracing]

    The depth grid is the caller's array: the function receives a
    reference to it and updates it in place, so it runs over a store of
    arrays. *)

Abbreviation loc := positive.
Abbreviation heap F := (gmap loc (list F)).

(** The five arrays the function returns. *)
Record trace3d (F : Type) : Type := {
  pplat_s : list (list F);
  pplon_s : list (list F);
  pplat_p : list (list F);
  pplon_p : list (list F);
  tps : list (list F)
}.
Arguments pplat_s {F} _.
Arguments pplon_s {F} _.
Arguments pplat_p {F} _.
Arguments pplon_p {F} _.
Arguments tps {F} _.

(** Where the two legs are at one depth sample. *)
Record legs (F : Type) : Type := {
  x_s : F; x_p : F;
  lat_s : F; lon_s : F;
  lat_p : F; lon_p : F
}.
Arguments x_s {F} _.
Arguments x_p {F} _.
Arguments lat_s {F} _.
Arguments lon_s {F} _.
Arguments lat_p {F} _.
Arguments lon_p {F} _.

Section RayTracer3D.
Context {F : Type} `{Numeric F}.
Variable geo : Geo F.
Variable mod3d : Mod3DPerturbation F.

(** One pass of the loop over [enumerate(YAxisRange[:-1])]: the
    velocities sampled at the legs' positions at depth [dep], and the
    legs at the next sample. *)
Definition trace_step (stadatar : RFStation F) (ddepth rayps_i bazi_i dep : F)
    (st : legs F) : F * F * legs F :=
  let vs_j := model_vs mod3d dep (lat_s st) (lon_s st) in
  let vp_j := model_vp mod3d dep (lat_p st) (lon_p st) in
  let x_s' := ddepth *! tand geo (asind geo (vs_j *! rayps_i)) +! x_s st in
  let x_p' := ddepth *! tand geo (asind geo (vp_j *! rayps_i)) +! x_p st in
  let ll_s := latlon_from geo (stla stadatar) (stlo stadatar) bazi_i (km2deg geo x_s') in
  let ll_p := latlon_from geo (stla stadatar) (stlo stadatar) bazi_i (km2deg geo x_p') in
  (vs_j, vp_j,
   {| x_s := x_s'; x_p := x_p';
      lat_s := fst ll_s; lon_s := snd ll_s;
      lat_p := fst ll_p; lon_p := snd ll_p |}).

Fixpoint trace_steps (stadatar : RFStation F) (ddepth rayps_i bazi_i : F)
    (deps : list F) (st : legs F) : list (F * F * legs F) :=
  match deps with
  | [] => []
  | dep :: deps' =>
      let o := trace_step stadatar ddepth rayps_i bazi_i dep st in
      o :: trace_steps stadatar ddepth rayps_i bazi_i deps' (snd o)
  end.

(** The legs of one event at every depth sample (index 0 is the
    station) and the arrays [vs], [vp], whose last entry keeps the zero
    of [np.zeros_like]. *)
Record event_trace : Type := {
  et_legs : list (legs F);
  et_vs : list F;
  et_vp : list F
}.

Definition trace_event (stadatar : RFStation F) (grid : list F)
    (ddepth rayps_i bazi_i : F) : event_trace :=
  let st0 := {| x_s := fzero; x_p := fzero;
                lat_s := stla stadatar; lon_s := stlo stadatar;
                lat_p := stla stadatar; lon_p := stlo stadatar |} in
  let outs := trace_steps stadatar ddepth rayps_i bazi_i
                (take (length grid - 1) grid) st0 in
  {| et_legs := st0 :: map snd outs;
     et_vs := map (fun o => fst (fst o)) outs ++ [fzero];
     et_vp := map (fun o => snd (fst o)) outs ++ [fzero] |}.

Definition sq (x : F) : F := x *! x.

(** [np.cumsum((np.sqrt((R / vs) ** 2 - srayps ** 2) -
                np.sqrt((R / vp) ** 2 - rayp_i ** 2)) * (ddepth / R))] *)
Definition tps_correction (R vs vp srayps : list F) (rayp_i ddepth : F) : list F :=
  np_cumsum
    (zip_with (fun a b =>
                 let R_j := fst a in
                 let vs_j := snd a in
                 let vp_j := fst b in
                 let ps_j := snd b in
                 (fsqrt (sq (R_j /! vs_j) -! sq ps_j)
                  -! fsqrt (sq (R_j /! vp_j) -! sq rayp_i))
                 *! (ddepth /! R_j))
              (zip R vs) (zip vp srayps)).

(** The body of the loop over the events: the rows of the four
    coordinate arrays and of [tps]. *)
Definition raytracing_event (stadatar : RFStation F) (srayp : srayp_arg F)
    (grid dep_range R : list F) (ddepth elevation : F) (i : nat)
  : result (event_trace * list F) :=
  let n := length grid in
  rayp_i <- get_row (rayp stadatar) i ;;
  srayps <- match srayp with
            | SraypLib get_psrayp =>
                dis_i <- get_row (dis stadatar) i ;;
                evdp_i <- get_row (evdp stadatar) i ;;
                Ok (map (fun p => skm2srad geo (sdeg2skm geo p))
                        (get_psrayp dis_i evdp_i grid))
            | _ => Ok (replicate n rayp_i)
            end ;;
  _ <- (if (n <? 1)%nat then Raise IndexError else Ok tt) ;;
  bazi_i <- (if (n <? 2)%nat then Ok fzero else get_row (bazi stadatar) i) ;;
  let tr := trace_event stadatar grid ddepth (srad2skm geo rayp_i) bazi_i in
  let tps_corr := tps_correction R (et_vs tr) (et_vp tr) srayps rayp_i ddepth in
  tps_i <- (if negb (elevation ==! fzero)
            then r <- interp_strict grid tps_corr dep_range ;; assign_row n r
            else Ok (np_zeros n)) ;;
  Ok (tr, tps_i).

Definition raytracing_body (stadatar : RFStation F) (srayp : srayp_arg F)
    (grid dep_range R : list F) (elevation : F) : result (trace3d F) :=
  let ddepth := np_mean (np_diff grid) in
  _ <- match srayp with
       | SraypMissingFile => Raise FileNotFoundError
       | SraypOther => Raise TypeError
       | _ => Ok tt
       end ;;
  rows <- mapM (raytracing_event stadatar srayp grid dep_range R ddepth elevation)
               (seq 0 (ev_num stadatar)) ;;
  let coord (f : legs F -> F) := map (fun r => map f (et_legs (fst r))) rows in
  Ok {| pplat_s := coord lat_s; pplon_s := coord lon_s;
        pplat_p := coord lat_p; pplon_p := coord lon_p;
        tps := map snd rows |}.

(** [R], computed from the grid as the caller passed it. *)
Definition earth_radius (sphere : bool) (YAxisRange : list F) (elevation : F) : list F :=
  if sphere
  then map (fun d => of_Z 6371 -! d +! elevation) YAxisRange
  else replicate (length YAxisRange) (of_Z 6371 +! elevation).

Definition psrf_3D_raytracing (stadatar : RFStation F) (YAxisRange : loc)
    (srayp : srayp_arg F) (elevation : F) (sphere : bool) (h : heap F)
  : heap F * result (trace3d F) :=
  match h !! YAxisRange with
  | None => (h, Raise ValueError)
  | Some grid0 =>
      let R := earth_radius sphere grid0 elevation in
      let dep_range := grid0 in
      (* YAxisRange -= elevation *)
      let h' := alter (map (fun d => d -! elevation)) YAxisRange h in
      (h', match h' !! YAxisRange with
           | None => Raise ValueError
           | Some grid => raytracing_body stadatar srayp grid dep_range R elevation
           end)
  end.

End RayTracer3D.


(** ** The callers of the mapper and of the converter

    [interp_depth_model], [psrf2depth], [psrf_1D_raytracing] and the
    methods of [RFStation] that run the functions above.  What they call
    outside this module is taken as it is: [os.path.exists], the
    constructors [DepModel] and [Mod3DPerturbation], [np.load], and
    [rad2deg] and [latlon_from] of [seispy.geo] applied to an array. *)

(** A 3-D velocity model as [np.load] returns it, seen through the two
    [interpn] calls made on it: the P and the S velocity at a list of
    points (depth, latitude, longitude). *)
Record VelocityGrid (F : Type) : Type := {
  interpn_vp : list (F * F * F) -> result (list F);
  interpn_vs : list (F * F * F) -> result (list F)
}.
Arguments interpn_vp {F} _ _.
Arguments interpn_vs {F} _ _.

(** The seven arrays [psrf_1D_raytracing] returns. *)
Record trace1d (F : Type) : Type := {
  t1_pplat_s : list (list F);
  t1_pplon_s : list (list F);
  t1_pplat_p : list (list F);
  t1_pplon_p : list (list F);
  t1_raylength_s : list (list F);
  t1_raylength_p : list (list F);
  t1_tps : list (list F)
}.
Arguments t1_pplat_s {F} _.
Arguments t1_pplon_s {F} _.
Arguments t1_pplat_p {F} _.
Arguments t1_pplon_p {F} _.
Arguments t1_raylength_s {F} _.
Arguments t1_raylength_p {F} _.
Arguments t1_tps {F} _.

(** How a method call ends: with its return value, with an exception of
    the functions it runs, or with the UnboundLocalError of a local
    variable read before any branch has assigned it. *)
Inductive outcome (A : Type) : Type :=
| Returned (a : A)
| Failed (e : exn)
| FailedUnboundLocal.
Arguments Returned {A} a.
Arguments Failed {A} e.
Arguments FailedUnboundLocal {A}.

Section Callers.
Context {F : Type} `{Numeric F}.

Variable geo : Geo F.
(** [os.path.exists] *)
Variable path_exists : string -> bool.
(** [DepModel(YAxisRange, velmod, elevation)] *)
Variable DepModel_init : list F -> string -> F -> result (DepModel F).
(** [np.load(velmod)] *)
Variable np_load : string -> result (VelocityGrid F).
(** The model after [dep_mod.vp, dep_mod.vs = vp, vs]. *)
Variable set_velocities : DepModel F -> list F -> list F -> DepModel F.
(** [rad2deg(x)] and [latlon_from(lat, lon, azimuth, delta)] on an array of
    offsets. *)
Variable rad2deg : list (complex F) -> list (complex F).
Variable latlon_from_arr :
  F -> F -> F -> list (complex F) -> result (list (complex F) * list (complex F)).
(** [Mod3DPerturbation(mod3dpath, dep_range)] *)
Variable Mod3DPerturbation_init : string -> list F -> result (Mod3DPerturbation F).

Definition interp_depth_model (model : VelocityGrid F) (lat lon : F)
    (new_dep : list F) : result (list F * list F) :=
  let points := map (fun depth => (depth, lat, lon)) new_dep in
  vp <- interpn_vp model points ;;
  vs <- interpn_vs model points ;;
  Ok (vp, vs).

(** The velocity model of [psrf2depth]: a model [DepModel] builds from
    [velmod]; or, when [velmod] is a path [DepModel] cannot read, the
    [iasp91] model with the velocities of the 3-D model at that path under
    the station; whatever goes wrong is reported as FileNotFoundError for
    a path and as ValueError otherwise. *)
Definition velocity_model (stadatar : RFStation F) (YAxisRange : list F)
    (velmod : string) : result (DepModel F) :=
  if path_exists velmod then
    match DepModel_init YAxisRange velmod (stel stadatar) with
    | Ok dep_mod => Ok dep_mod
    | Raise _ =>
        dep_mod <- DepModel_init YAxisRange "iasp91" (stel stadatar) ;;
        match (velmod_3d <- np_load velmod ;;
               v <- interp_depth_model velmod_3d (stla stadatar) (stlo stadatar)
                      (depths_elev dep_mod) ;;
               Ok (set_velocities dep_mod (fst v) (snd v))) with
        | Ok dep_mod => Ok dep_mod
        | Raise _ => Raise FileNotFoundError
        end
    end
  else
    match DepModel_init YAxisRange velmod (stel stadatar) with
    | Ok dep_mod => Ok dep_mod
    | Raise _ => Raise ValueError
    end.

(** The check of the [srayp] argument, made before either event loop. *)
Definition check_srayp (srayp : srayp_arg F) : result unit :=
  match srayp with
  | SraypMissingFile => Raise FileNotFoundError
  | SraypOther => Raise TypeError
  | _ => Ok tt
  end.

(** The call of [xps_tps_map] for event [i]: with the event's ray
    parameter for both phases, or with the library's ray parameters over
    the elevation-adjusted depths for the converted phase. *)
Definition map_event (dep_mod : DepModel F) (stadatar : RFStation F)
    (srayp : srayp_arg F) (is_raylen sphere : bool) (i : nat) : result xps_tps :=
  match srayp with
  | SraypLib get_psrayp =>
      dis_i <- get_row (dis stadatar) i ;;
      evdp_i <- get_row (evdp stadatar) i ;;
      let rayp_s := map (fun p => skm2srad geo (sdeg2skm geo p))
                        (get_psrayp dis_i evdp_i (depths_elev dep_mod)) in
      prayp <- get_row (rayp stadatar) i ;;
      xps_tps_map dep_mod (RpArray rayp_s) (RpScalar prayp) is_raylen sphere
  | _ =>
      p <- get_row (rayp stadatar) i ;;
      xps_tps_map dep_mod (RpScalar p) (RpScalar p) is_raylen sphere
  end.

(** One pass of the event loop of [psrf2depth]: the rows stored in [tps],
    [x_s] and [x_p], which are float64 buffers. *)
Definition psrf2depth_event (dep_mod : DepModel F) (stadatar : RFStation F)
    (srayp : srayp_arg F) (width : nat) (sphere : bool) (i : nat)
  : result (list F * list F * list F) :=
  m <- map_event dep_mod stadatar srayp false sphere i ;;
  tps_i <- assign_row width (astype_float (xt_tps m)) ;;
  xs_i <- assign_row width (astype_float (xt_x_s m)) ;;
  xp_i <- assign_row width (astype_float (xt_x_p m)) ;;
  Ok (tps_i, xs_i, xp_i).

(** [psrf2depth]: [(ps_rfdepth, endindex, x_s, x_p)]. *)
Definition psrf2depth (stadatar : RFStation F) (YAxisRange : list F)
    (velmod : string) (srayp : srayp_arg F) (normalize_arg : option string)
    (sphere : bool)
  : result (list (list F) * list Z * list (list F) * list (list F)) :=
  dep_mod <- velocity_model stadatar YAxisRange velmod ;;
  _ <- check_srayp srayp ;;
  rows <- mapM (psrf2depth_event dep_mod stadatar srayp (length YAxisRange) sphere)
               (seq 0 (ev_num stadatar)) ;;
  out <- time2depth stadatar (depths dep_mod) (map (fun r => fst (fst r)) rows)
           normalize_arg ;;
  Ok (fst out, snd out, map (fun r => snd (fst r)) rows, map snd rows).

(** One pass of the event loop of [psrf_1D_raytracing].  Only the loop
    that runs with a ray-parameter library passes the offsets through
    [_imag2nan]. *)
Definition raytracing1d_event (dep_mod : DepModel F) (stadatar : RFStation F)
    (srayp : srayp_arg F) (width : nat) (sphere : bool) (i : nat)
  : result (list F * list F * list F * list F * list F * list F * list F) :=
  m <- map_event dep_mod stadatar srayp true sphere i ;;
  match xt_raylength m with
  | None => Raise ValueError
  | Some (raylen_s, raylen_p) =>
      tps_i <- assign_row width (astype_float (xt_tps m)) ;;
      rs_i <- assign_row width (astype_float raylen_s) ;;
      rp_i <- assign_row width (astype_float raylen_p) ;;
      let marked (x : list (complex F)) :=
        match srayp with
        | SraypLib _ => _imag2nan x
        | _ => x
        end in
      bazi_i <- get_row (bazi stadatar) i ;;
      ll_s <- latlon_from_arr (stla stadatar) (stlo stadatar) bazi_i
                (rad2deg (marked (xt_x_s m))) ;;
      lat_s_i <- assign_row width (astype_float (fst ll_s)) ;;
      lon_s_i <- assign_row width (astype_float (snd ll_s)) ;;
      bazi_i <- get_row (bazi stadatar) i ;;
      ll_p <- latlon_from_arr (stla stadatar) (stlo stadatar) bazi_i
                (rad2deg (marked (xt_x_p m))) ;;
      lat_p_i <- assign_row width (astype_float (fst ll_p)) ;;
      lon_p_i <- assign_row width (astype_float (snd ll_p)) ;;
      Ok (lat_s_i, lon_s_i, lat_p_i, lon_p_i, rs_i, rp_i, tps_i)
  end.

Definition psrf_1D_raytracing (stadatar : RFStation F) (YAxisRange : list F)
    (velmod : string) (srayp : srayp_arg F) (sphere : bool)
  : result (trace1d F) :=
  dep_mod <- DepModel_init YAxisRange velmod (stel stadatar) ;;
  _ <- check_srayp srayp ;;
  rows <- mapM (raytracing1d_event dep_mod stadatar srayp (length YAxisRange) sphere)
               (seq 0 (ev_num stadatar)) ;;
  Ok {| t1_pplat_s := map (fun r => r.1.1.1.1.1.1) rows;
        t1_pplon_s := map (fun r => r.1.1.1.1.1.2) rows;
        t1_pplat_p := map (fun r => r.1.1.1.1.2) rows;
        t1_pplon_p := map (fun r => r.1.1.1.2) rows;
        t1_raylength_s := map (fun r => r.1.1.2) rows;
        t1_raylength_p := map (fun r => r.1.2) rows;
        t1_tps := map snd rows |}.

(** *** Methods of [RFStation]

    A method is modelled by what it returns; [moveoutcorrect], which can
    store its result in the station, also by the station it leaves. *)

(** [RFStation.psrf2depth(dep_range, **kwargs)] *)
Definition RFStation_psrf2depth (self : RFStation F) (dep_range : list F)
    (velmod : string) (srayp : srayp_arg F) (normalize_arg : option string)
    (sphere : bool) : result (list (list F)) :=
  out <- psrf2depth self dep_range velmod srayp normalize_arg sphere ;;
  Ok (fst (fst (fst out))).

(** [RFStation.psrf_1D_raytracing(dep_range, **kwargs)] *)
Definition RFStation_psrf_1D_raytracing (self : RFStation F) (dep_range : list F)
    (velmod : string) (srayp : srayp_arg F) (sphere : bool)
  : result (list (list F) * list (list F) * list (list F)) :=
  r <- psrf_1D_raytracing self dep_range velmod srayp sphere ;;
  Ok (t1_pplat_s r, t1_pplon_s r, t1_tps r).

(** [RFStation.psrf_3D_raytracing(mod3dpath, dep_range, srayp)]: the
    function is called without [elevation], which is then 0, and without
    [sphere], which is then true. *)
Definition RFStation_psrf_3D_raytracing (self : RFStation F) (mod3dpath : string)
    (dep_range : loc) (srayp : srayp_arg F) (h : heap F)
  : heap F * result (list (list F) * list (list F) * list (list F)) :=
  match h !! dep_range with
  | None => (h, Raise ValueError)
  | Some grid =>
      match Mod3DPerturbation_init mod3dpath grid with
      | Raise e => (h, Raise e)
      | Ok mod3d =>
          let out := psrf_3D_raytracing geo mod3d self dep_range srayp fzero true h in
          (fst out, r <- snd out ;; Ok (pplat_s r, pplon_s r, tps r))
      end
  end.

(** [RFStation.psrf_3D_timecorrect(mod3dpath, dep_range, normalize, **kwargs)] *)
Definition RFStation_psrf_3D_timecorrect (self : RFStation F) (mod3dpath : string)
    (dep_range : list F) (normalize_arg : option string)
    (velmod : string) (srayp : srayp_arg F) (sphere : bool)
  : result (list (list F)) :=
  mod3d <- Mod3DPerturbation_init mod3dpath dep_range ;;
  r <- psrf_1D_raytracing self dep_range velmod srayp sphere ;;
  tps3d <- psrf_3D_migration (t1_pplat_s r) (t1_pplon_s r) (t1_pplat_p r) (t1_pplon_p r)
             (t1_raylength_s r) (t1_raylength_p r) (t1_tps r) dep_range mod3d ;;
  out <- time2depth self dep_range tps3d normalize_arg ;;
  Ok (fst out).

(** The channel [moveoutcorrect] corrects besides the transverse one: the
    first of [datar], [dataz], [datal] the station holds; with none of
    them the variable [chan] is left unassigned. *)
Definition prime_chan (self : RFStation F) : option string :=
  if bool_decide (is_Some (data_dict self !! "datar"%string)) then Some "r"%string
  else if bool_decide (is_Some (data_dict self !! "dataz"%string)) then Some "z"%string
  else if bool_decide (is_Some (data_dict self !! "datal"%string)) then Some "l"%string
  else None.

Definition set_data (self : RFStation F) (dict : gmap string (list (list F)))
  : RFStation F :=
  {| comp := comp self; only_r := only_r self; ev_num := ev_num self;
     rflength := rflength self; sampling := sampling self; shift := shift self;
     stla := stla self; stlo := stlo self; stel := stel self;
     time_axis := time_axis self; rayp := rayp self; bazi := bazi self;
     dis := dis self; evdp := evdp self; data_dict := dict |}.

(** [RFStation.moveoutcorrect(ref_rayp, dep_range, velmod, replace)]: the
    station after the call, and [(rf_corr, t_corr)] when the method
    returns it ([replace] false). *)
Definition RFStation_moveoutcorrect (self : RFStation F) (ref_rayp : F)
    (dep_range : list F) (velmod : string) (replace : bool)
  : outcome (RFStation F * option (list (list F) * option (list (list F)))) :=
  match (if only_r self then Ok None
         else r <- moveoutcorrect_ref DepModel_init self (skm2srad geo ref_rayp)
                     dep_range "t" velmod true ;;
              Ok (Some (fst r))) with
  | Raise e => Failed e
  | Ok t_corr =>
      match prime_chan self with
      | None => FailedUnboundLocal
      | Some chan =>
          match moveoutcorrect_ref DepModel_init self (skm2srad geo ref_rayp)
                  dep_range chan velmod true with
          | Raise e => Failed e
          | Ok r =>
              let rf_corr := fst r in
              if replace then
                let dict := <[String.append "data" chan := rf_corr]> (data_dict self) in
                let dict := match t_corr with
                            | Some t => <["datat"%string := t]> dict
                            | None => dict
                            end in
                Returned (set_data self dict, None)
              else Returned (self, Some (rf_corr, t_corr))
          end
      end
  end.

End Callers.

(** ** Vocabulary of the statements *)

Section Vocabulary.
Context {F : Type} `{Numeric F}.



(** A 2-D array of [n] rows of width [w]. *)
Definition shape (n w : nat) (M : list (list F)) : Prop :=
  length M = n /\ Forall (fun row => length row = w) M.

(** [M[i, j]] *)
Definition entry (M : list (list F)) (i j : nat) : option F :=
  match M !! i with
  | Some row => row !! j
  | None => None
  end.

(** A depth grid in ascending order, as numpy orders numbers: no entry
    sorts before its predecessor. *)
Definition ascending (x : list F) : Prop :=
  forall i a b, x !! i = Some a -> x !! S i = Some b -> np_lt b a = false.

(** The same as a test. *)
Fixpoint ascendingb (x : list F) : bool :=
  match x with
  | a :: (b :: _) as t => negb (np_lt b a) && ascendingb t
  | _ => true
  end.

(** Linear interpolation of the samples [(x, y)] at [q], in the bracketing
    interval. *)
Definition lerp (x y : list F) (q : F) : F :=
  interp_point {| ip_x := x; ip_y := y;
                  ip_bounds_error := false; ip_fill := (fnan, fnan) |} q.

(** The value of a curve over the elevation-adjusted grid [x] at a depth
    [q] of the unadjusted grid, as the specification words it: the curve's
    last value above the last adjusted depth (flat extension), invalid
    below the first adjusted depth, and interpolated in between. *)
Definition reinterpolate (x : list F) (curve : list (complex F)) (q : F) : complex F :=
  if py_nth x (-1) <! q then default (mkC fnan fzero) (last curve)
  else if q <! py_nth x 0 then mkC fnan fzero
  else mkC (lerp x (map re curve) q) (lerp x (map im curve) q).

End Vocabulary.

(** The per-event arrays of the station have an entry for event [i]. *)
Definition event_fields {F : Type} (sta : RFStation F) (i : nat) : Prop :=
  is_Some (rayp sta !! i) /\ is_Some (bazi sta !! i)
  /\ is_Some (dis sta !! i) /\ is_Some (evdp sta !! i).

(** [srayp] is [None], or a loaded library whose lookup returns one ray
    parameter per depth of the grid it is given. *)
Definition srayp_usable {F : Type} (srayp : srayp_arg F) : Prop :=
  match srayp with
  | SraypNone => True
  | SraypLib get_psrayp =>
      forall dis evdp depths, length (get_psrayp dis evdp depths) = length depths
  | _ => False
  end.

(** ** Laws of the arithmetic

    The few facts about the numbers that the proofs use.  They hold for
    binary64 and for the exact reals (both proved below). *)

Class NumericLaws (F : Type) `{Numeric F} : Prop := {
  fisnan_nan : fisnan fnan = true;
  fisnan_zero : fisnan fzero = false;
  fzero_neq_one : (fzero ==! fone) = false;
  fadd_zero_zero : fzero +! fzero = fzero;
  fsub_zero_zero : fzero -! fzero = fzero;
  fone_plus_zero : forall d, (d ==! fzero) = true -> fone +! d = fone;
  fmul_one_r : forall c, c *! fone = c;
  fsub_diag : forall x, x -! x = fzero \/ fisnan (x -! x) = true;
  fadd_zero_r : forall x, x +! fzero = x \/ (x +! fzero ==! x) = true;
  fsub_nan_l : forall x y, fisnan x = true -> fisnan (x -! y) = true;
  fsub_nan_r : forall x y, fisnan y = true -> fisnan (x -! y) = true;
  fadd_nan_l : forall x y, fisnan x = true -> fisnan (x +! y) = true;
  fmul_nan_l : forall x y, fisnan x = true -> fisnan (x *! y) = true;
  fdiv_nan_r : forall x y, fisnan y = true -> fisnan (x /! y) = true;
  fltb_nan_l : forall x y, fisnan x = true -> (x <! y) = false;
  fltb_nan_r : forall x y, fisnan y = true -> (x <! y) = false
}.

(** ** Inputs on which the functions are run

    Small stations, grids and collaborators for the worked examples. *)

Module Fixtures.
Open Scope float_scope.

(** A velocity model for running the functions: every query returns the
    given curve scaled by the ray parameter. *)
Definition scaled (p : rayparam float) (curve : list (complex float))
  : list (complex float) :=
  match p with
  | RpScalar p => map (fun z => mkC (re z * p) (im z * p)) curve
  | RpArray ps => zip_with (fun z p => mkC (re z * p) (im z * p)) curve ps
  end.

Definition curve_model (grid : list float) (elev : float)
    (curve : list (complex float)) : DepModel float :=
  {| depths := grid;
     depths_elev := map (fun d => d - elev) grid;
     elevation := elev;
     radius_s := fun p _ _ => scaled p curve;
     raylength := fun p _ _ => scaled p curve;
     tpds := fun s _ _ => scaled s curve |}.

(** A curve that is real down to 10 km and carries an imaginary part at
    20 km and at 30 km. *)
Definition grid4 : list float := [0; 10; 20; 30].
Definition turning_curve : list (complex float) :=
  [mkC 0 0; mkC 1 0; mkC 1.5 0.5; mkC 1.75 1.5].

(** A curve that carries an imaginary part at every depth, as for a ray
    that is evanescent from the first depth sample on. *)
Definition evanescent_curve : list (complex float) :=
  [mkC 0 0.5; mkC 1 0.75; mkC 1.5 1.25; mkC 1.75 1.5].

(** One event, eight samples at 0.5 s, one second before the arrival. *)
Definition station1 : RFStation float :=
  {| comp := CompR; only_r := true; ev_num := 1; rflength := 8;
     sampling := 0.5; shift := 1;
     stla := 10; stlo := 20; stel := 0;
     time_axis := [-1; -0.5; 0; 0.5; 1; 1.5; 2; 2.5];
     rayp := [1]; bazi := [0]; dis := [30]; evdp := [10];
     data_dict := {[ "datar"%string := [[1; 2; 3; 4; 5; 6; 7; 8]] ]} |}.

(** A [Geo] on binary64 to run the tracer on: small-angle trigonometry and
    a planar projection, with binary fractions for the unit factors.  The
    theorems hold for every [Geo]; this one is what the examples run. *)
Definition small_angle_geo : Geo float :=
  {| tand := fun x => x / 64;
     asind := fun x => x * 64;
     km2deg := fun km => km / 128;
     srad2skm := fun p => p / 4096;
     skm2srad := fun p => p * 4096;
     sdeg2skm := fun p => p / 128;
     latlon_from := fun lat lon baz d => (lat + d, lon) |}.

(** A laterally uniform 3-D model without perturbation. *)
Definition uniform_mod3d : Mod3DPerturbation float :=
  {| model_vs := fun _ _ _ => 4;
     model_vp := fun _ _ _ => 8;
     interpdvs := fun _ => 0;
     interpdvp := fun _ => 0;
     cvs := 3.5;
     cvp := 6.5 |}.

Definition grid3 : list float := [0; 10; 20].

(** The store of a caller who holds the depth grid [grid3] at address 1. *)
Definition store1 : heap float := {[ 1%positive := grid3 ]}.



(** A station 500 m above sea level on the grid [0, 8, 16, 24]: the
    elevation-adjusted grid is [-0.5, 7.5, 15.5, 23.5]. *)
Definition raised_model : DepModel float :=
  curve_model [0; 8; 16; 24] 0.5 [mkC 0 0; mkC 1 0; mkC 2 0; mkC 4 0].

(** Two events on the grid [grid4] with a travel-time curve that grows by
    one unit per depth sample and per unit of ray parameter.  With the ray
    parameter 0.25 the curve ends at 0.75 s, before the trace does. *)
Definition line_curve : list (complex float) :=
  [mkC 0 0; mkC 1 0; mkC 2 0; mkC 3 0].

Definition line_model (g : list float) (velmod : string) (e : float)
  : result (DepModel float) :=
  Ok (curve_model g e line_curve).

Definition station2 : RFStation float :=
  {| comp := CompR; only_r := true; ev_num := 2; rflength := 8;
     sampling := 0.5; shift := 1;
     stla := 10; stlo := 20; stel := 0;
     time_axis := [-1; -0.5; 0; 0.5; 1; 1.5; 2; 2.5];
     rayp := [0.25; 1]; bazi := [0; 90]; dis := [30; 60]; evdp := [10; 20];
     data_dict := {[ "datar"%string := [[1; 2; 3; 4; 5; 6; 7; 8];
                                       [10; 20; 30; 40; 50; 60; 70; 80]] ]} |}.

(** One event of four samples at 1 s, one second before the arrival, and
    a travel-time curve over [grid3] whose last value carries an imaginary
    part. *)
Definition station3 : RFStation float :=
  {| comp := CompR; only_r := true; ev_num := 1; rflength := 4;
     sampling := 1; shift := 1;
     stla := 10; stlo := 20; stel := 0;
     time_axis := [-1; 0; 1; 2];
     rayp := [1]; bazi := [0]; dis := [30]; evdp := [10];
     data_dict := {[ "datar"%string := [[1; -4; 2; 5]] ]} |}.
Definition late_turning_curve : list (complex float) :=
  [mkC 0 0; mkC 1 0; mkC 3 1].

End Fixtures.

(** *** Exact collaborators *)

(** Modelled from the spec: [seispy.geo] is not part of this module.  The
    degree-valued tangent and arcsine, the conversions between kilometres
    and degrees of arc and between the units of the ray parameter on a
    sphere of radius 6371 km, and the great-circle projection
    [destination(lat, lon, azimuthDeg, angularDistanceDeg)]. *)
Module ExactGeo.
Local Open Scope R_scope.

Definition deg2rad (a : R) : R := a * PI / 180.
Definition rad2deg (a : R) : R := a * 180 / PI.

Definition tan_deg (x : xreal) : xreal :=
  match x with
  | XReal a => XReal (tan (deg2rad a))
  | XNaN => XNaN
  end.

Definition asin_deg (x : xreal) : xreal :=
  match x with
  | XReal a =>
      if Rle_dec (-1) a then
        if Rle_dec a 1 then XReal (rad2deg (asin a)) else XNaN
      else XNaN
  | XNaN => XNaN
  end.

Definition lift (f : R -> R) (x : xreal) : xreal :=
  match x with
  | XReal a => XReal (f a)
  | XNaN => XNaN
  end.

(** The angle of the point [(x, y)], in (-PI, PI]. *)
Definition atan2 (y x : R) : R :=
  if Rlt_dec 0 x then atan (y / x)
  else if Rlt_dec x 0 then
         if Rle_dec 0 y then atan (y / x) + PI else atan (y / x) - PI
       else if Rlt_dec 0 y then PI / 2
            else if Rlt_dec y 0 then - (PI / 2) else 0.

Definition destination (lat lon az delta : R) : R * R :=
  let phi := deg2rad lat in
  let theta := deg2rad az in
  let d := deg2rad delta in
  let phi2 := asin (sin phi * cos d + cos phi * sin d * cos theta) in
  let dlam := atan2 (sin theta * sin d * cos phi) (cos d - sin phi * sin phi2) in
  (rad2deg phi2, lon + rad2deg dlam).

Definition project (lat lon az delta : xreal) : xreal * xreal :=
  match lat, lon, az, delta with
  | XReal a, XReal b, XReal c, XReal d =>
      (XReal (fst (destination a b c d)), XReal (snd (destination a b c d)))
  | _, _, _, _ => (XNaN, XNaN)
  end.

Definition geo : Geo xreal :=
  {| tand := tan_deg;
     asind := asin_deg;
     km2deg := lift (fun km => rad2deg (km / 6371));
     srad2skm := lift (fun p => p / 6371);
     skm2srad := lift (fun p => p * 6371);
     sdeg2skm := lift (fun p => rad2deg p / 6371);
     latlon_from := project |}.

(** A laterally uniform model: 4 km/s for S, 8 km/s for P. *)
Definition uniform_mod3d : Mod3DPerturbation xreal :=
  {| model_vs := fun _ _ _ => XReal 4;
     model_vp := fun _ _ _ => XReal 8;
     interpdvs := fun _ => XReal 0;
     interpdvp := fun _ => XReal 0;
     cvs := XReal 4;
     cvp := XReal 8 |}.

(** One event arriving vertically (primary ray parameter 0) at a station
    on the equator. *)
Definition vertical_station : RFStation xreal :=
  {| comp := CompR; only_r := true; ev_num := 1; rflength := 0;
     sampling := XReal 1; shift := XReal 0;
     stla := XReal 0; stlo := XReal 0; stel := XReal 0;
     time_axis := [];
     rayp := [XReal 0]; bazi := [XReal 0]; dis := [XReal 60]; evdp := [XReal 10];
     data_dict := ∅ |}.


Definition grid2 : list xreal := [XReal 0; XReal 10].

End ExactGeo.

(** Two more facts about zero, used for the callers of the functions. *)
Class ZeroLaws (F : Type) `{Numeric F} : Prop := {
  feqb_zero_refl : (fzero ==! fzero) = true;
  fsub_zero_r : forall x, x -! fzero = x
}.

(** *** Collaborators of the callers *)

Module CallerFixtures.
Open Scope float_scope.

(** No path exists, and nothing can be loaded. *)
Definition no_path (p : string) : bool := false.
Definition no_load (p : string) : result (VelocityGrid float) := Raise FileNotFoundError.
Definition keep_velocities (d : DepModel float) (vp vs : list float) : DepModel float := d.

(** A [DepModel] that knows no velocity model. *)
Definition no_model (g : list float) (velmod : string) (e : float)
  : result (DepModel float) := Raise KeyError.

(** One path exists, [model.npz], which [DepModel] cannot read; it reads
    the built-in model. *)
Definition one_path (p : string) : bool := String.eqb p "model.npz".
Definition builtin_model (g : list float) (velmod : string) (e : float)
  : result (DepModel float) :=
  if String.eqb velmod "iasp91"
  then Ok (Fixtures.curve_model g e Fixtures.line_curve)
  else Raise KeyError.

(** Offsets are kept as degrees, and a point is projected due north. *)
Definition rad2deg_id (x : list (complex float)) : list (complex float) := x.
Definition north (lat lon baz : float) (delta : list (complex float))
  : result (list (complex float) * list (complex float)) :=
  Ok (map (fun d => mkC (lat + re d) 0) delta, map (fun _ => mkC lon 0) delta).

(** A perturbation model is there at every path. *)
Definition uniform_at (path : string) (dep_range : list float)
  : result (Mod3DPerturbation float) := Ok Fixtures.uniform_mod3d.

(** A station whose prime component is Q. *)
Definition station_q : RFStation float :=
  {| comp := CompQ; only_r := true; ev_num := 1; rflength := 8;
     sampling := 0.5; shift := 1;
     stla := 10; stlo := 20; stel := 0;
     time_axis := [-1; -0.5; 0; 0.5; 1; 1.5; 2; 2.5];
     rayp := [1]; bazi := [0]; dis := [30]; evdp := [10];
     data_dict := {[ "dataq"%string := [[1; 2; 3; 4; 5; 6; 7; 8]] ]} |}.

(** A station with radial and transverse traces of two events. *)
Definition station_rt : RFStation float :=
  {| comp := CompR; only_r := false; ev_num := 2; rflength := 4;
     sampling := 0.5; shift := 1;
     stla := 10; stlo := 20; stel := 0;
     time_axis := [-1; -0.5; 0; 0.5];
     rayp := [0.25; 1]; bazi := [0; 90]; dis := [30; 60]; evdp := [10; 20];
     data_dict := {[ "datar"%string := [[1; -4; 2; 0]; [0.5; 0.25; -0.125; 0]];
                     "datat"%string := [[2; 8; -2; 1]; [1; 0; 0.5; -1]] ]} |}.

(** A station whose time axis has one sample more than its trace. *)
Definition station_long_axis : RFStation float :=
  {| comp := CompR; only_r := true; ev_num := 1; rflength := 8;
     sampling := 0.5; shift := 1;
     stla := 10; stlo := 20; stel := 0;
     time_axis := [-1; -0.5; 0; 0.5; 1; 1.5; 2; 2.5; 3];
     rayp := [1]; bazi := [0]; dis := [30]; evdp := [10];
     data_dict := {[ "datar"%string := [[1; 2; 3; 4; 5; 6; 7; 8]] ]} |}.

(** Two events whose mean trace is [1, -2, 2, 2]. *)
Definition station_avg : RFStation float :=
  {| comp := CompR; only_r := true; ev_num := 2; rflength := 4;
     sampling := 0.5; shift := 1;
     stla := 10; stlo := 20; stel := 0;
     time_axis := [-1; -0.5; 0; 0.5];
     rayp := [0.25; 1]; bazi := [0; 90]; dis := [30; 60]; evdp := [10; 20];
     data_dict := {[ "datar"%string := [[1; -4; 2; 0]; [1; 0; 2; 4]] ]} |}.

End CallerFixtures.

(** A station in exact arithmetic, with one trace. *)
Module ExactStation.
Local Open Scope R_scope.

Definition trace : list R := [1; -4; 2].

(** The largest of [a] and the entries of [rs]. *)
Definition peak (a : R) (rs : list R) : R := fold_left Rmax rs a.

Definition station : RFStation xreal :=
  {| comp := CompR; only_r := true; ev_num := 1; rflength := 3;
     sampling := XReal 1; shift := XReal 0;
     stla := XReal 0; stlo := XReal 0; stel := XReal 0;
     time_axis := [XReal 0; XReal 1; XReal 2];
     rayp := [XReal 0]; bazi := [XReal 0]; dis := [XReal 60]; evdp := [XReal 10];
     data_dict := {[ "datar"%string := [map XReal trace] ]} |}.

(** The same trace recorded from one sample before the arrival, a Ps
    travel-time curve over three depths, and a velocity model that returns
    this curve for every ray parameter. *)
Definition station_shifted : RFStation xreal :=
  {| comp := CompR; only_r := true; ev_num := 1; rflength := 3;
     sampling := XReal 1; shift := XReal 1;
     stla := XReal 0; stlo := XReal 0; stel := XReal 0;
     time_axis := [XReal (-1); XReal 0; XReal 1];
     rayp := [XReal 0]; bazi := [XReal 0]; dis := [XReal 60]; evdp := [XReal 10];
     data_dict := {[ "datar"%string := [map XReal trace] ]} |}.

Definition curve : list R := [0; 1; 3].
Definition grid : list xreal := [XReal 0; XReal 10; XReal 20].

Definition model (g : list xreal) (velmod : string) (e : xreal)
  : result (DepModel xreal) :=
  Ok {| depths := g; depths_elev := g; elevation := e;
        radius_s := fun _ _ _ => map (fun _ => of_real (XReal 0)) g;
        raylength := fun _ _ _ => map (fun _ => of_real (XReal 0)) g;
        tpds := fun _ _ _ => map (fun t => of_real (XReal t)) curve |}.

End ExactStation.

(** * Proofs *)

(** ** Binary64 and the exact reals satisfy the laws *)

Module Float64Facts.

Lemma SFcompare_refl x : x <> S754_nan -> SFcompare x x = Some Eq.
Proof.
  destruct x as [s|s| |s m e]; intros Hx; try congruence; simpl.
  - reflexivity.
  - destruct s; reflexivity.
  - rewrite Z.compare_refl, Pos.compare_cont_refl. destruct s; reflexivity.
Qed.

Lemma is_nan_SF x : is_nan x = true <-> Prim2SF x = S754_nan.
Proof.
  unfold is_nan. rewrite FloatAxioms.eqb_spec. unfold SFeqb. split.
  - intros Hn. destruct (Prim2SF x) eqn:E; try reflexivity;
      rewrite SFcompare_refl in Hn by congruence; discriminate.
  - intros ->. reflexivity.
Qed.

Lemma sub_diag x : (x - x = 0 \/ is_nan (x - x) = true)%float.
Proof.
  destruct (Prim2SF x) as [s|s| |s m e] eqn:E.
  - left. apply Prim2SF_inj. rewrite sub_spec, E. destruct s; reflexivity.
  - right. apply is_nan_SF. rewrite sub_spec, E. destruct s; reflexivity.
  - right. apply is_nan_SF. rewrite sub_spec, E. reflexivity.
  - left. apply Prim2SF_inj. rewrite sub_spec, E.
    unfold SF64sub, SFsub. rewrite Z.sub_diag. reflexivity.
Qed.

Lemma add_zero_r x : (x + 0 = x \/ (x + 0 =? x) = true)%float.
Proof.
  destruct (Prim2SF x) as [s|s| |s m e] eqn:E.
  - right. rewrite FloatAxioms.eqb_spec, add_spec, E. destruct s; reflexivity.
  - left. apply Prim2SF_inj. rewrite add_spec, E. destruct s; reflexivity.
  - left. apply Prim2SF_inj. rewrite add_spec, E. reflexivity.
  - left. apply Prim2SF_inj. rewrite add_spec, E. reflexivity.
Qed.

Lemma one_plus_zero d : ((d =? 0) = true -> 1 + d = 1)%float.
Proof.
  rewrite FloatAxioms.eqb_spec. intros Hd. apply Prim2SF_inj. rewrite add_spec.
  destruct (Prim2SF d) as [s|s| |s m e] eqn:E; try discriminate.
  - reflexivity.
  - destruct s; discriminate.
  - destruct s; discriminate.
Qed.

(** Multiplying a canonical mantissa by 2^52 and rounding at the exponent
    lowered by 52 shifts the 52 zero bits out again, exactly. *)
Lemma mul_one_r_SF s m e :
  valid_binary (S754_finite s m e) = true ->
  SF64mul (S754_finite s m e) (Prim2SF 1) = S754_finite s m e.
Proof.
  intros Hv. change (Prim2SF 1) with (S754_finite false Float64.P52 (-52)).
  unfold SF64mul, SFmul. rewrite xorb_false_r.
  simpl in Hv. unfold bounded, canonical_mantissa in Hv.
  apply andb_prop in Hv. destruct Hv as [Hc Hb]. apply Z.eqb_eq in Hc.
  rewrite Pos.mul_comm.
  change (Float64.P52 * m)%positive with (Pos.iter xO m 52).
  unfold binary_round_aux.
  assert (Hd : Zdigits2 (Zpos (Pos.iter xO m 52)) = (Zpos (digits2_pos m) + 52)%Z).
  { cbn [Pos.iter Zdigits2 digits2_pos]. rewrite !Pos2Z.inj_succ. lia. }
  unfold shr_fexp at 1. rewrite Hd.
  replace (Z.pos (digits2_pos m) + 52 + (e + -52))%Z
    with (Z.pos (digits2_pos m) + e)%Z by lia.
  rewrite Hc. replace (e - (e + -52))%Z with 52%Z by lia.
  cbn [shr shr_record_of_loc Pos.iter SpecFloat.iter_pos shr_1 orb].
  cbn [loc_of_shr_record shr_m round_nearest_even].
  replace (e + -52 + 52)%Z with e by lia.
  unfold shr_fexp. cbn [Zdigits2 shr_record_of_loc]. rewrite Hc, Z.sub_diag.
  cbn [shr shr_m]. rewrite Hb. reflexivity.
Qed.

Lemma mul_one_r x : (x * 1 = x)%float.
Proof.
  apply Prim2SF_inj. rewrite mul_spec.
  pose proof (Prim2SF_valid x) as Hv.
  destruct (Prim2SF x) as [s|s| |s m e] eqn:E.
  - destruct s; reflexivity.
  - destruct s; reflexivity.
  - reflexivity.
  - apply mul_one_r_SF. exact Hv.
Qed.

Lemma nan_op (op : float -> float -> float)
    (sf : spec_float -> spec_float -> spec_float)
    (Hspec : forall x y, Prim2SF (op x y) = sf (Prim2SF x) (Prim2SF y))
    (Hl : forall b, sf S754_nan b = S754_nan)
    (Hr : forall a, sf a S754_nan = S754_nan) x y :
  is_nan x = true \/ is_nan y = true -> is_nan (op x y) = true.
Proof.
  rewrite !is_nan_SF, Hspec. intros [-> | ->]; auto.
Qed.

Lemma ltb_nan x y : is_nan x = true \/ is_nan y = true -> (x <? y)%float = false.
Proof.
  rewrite !is_nan_SF, ltb_spec. unfold SFltb.
  intros [-> | ->]; [reflexivity|]. destruct (Prim2SF x); reflexivity.
Qed.

End Float64Facts.

#[export] Instance float_NumericLaws : NumericLaws float.
Proof.
  split; cbn [fisnan fzero fone fnan fadd fsub fmul fdiv feqb fltb float_Numeric].
  - reflexivity.
  - reflexivity.
  - reflexivity.
  - reflexivity.
  - reflexivity.
  - apply Float64Facts.one_plus_zero.
  - apply Float64Facts.mul_one_r.
  - apply Float64Facts.sub_diag.
  - apply Float64Facts.add_zero_r.
  - intros x y Hx. apply (Float64Facts.nan_op _ _ sub_spec); auto.
    intros a; destruct a as [[]|[]| |]; reflexivity.
  - intros x y Hx. apply (Float64Facts.nan_op _ _ sub_spec); auto.
    intros a; destruct a as [[]|[]| |]; reflexivity.
  - intros x y Hx. apply (Float64Facts.nan_op _ _ add_spec); auto.
    intros a; destruct a as [[]|[]| |]; reflexivity.
  - intros x y Hx. apply (Float64Facts.nan_op _ _ mul_spec); auto.
    intros a; destruct a as [[]|[]| |]; reflexivity.
  - intros x y Hx. apply (Float64Facts.nan_op _ _ div_spec); auto.
    intros a; destruct a as [[]|[]| |]; reflexivity.
  - intros x y Hx. apply Float64Facts.ltb_nan; auto.
  - intros x y Hx. apply Float64Facts.ltb_nan; auto.
Qed.

#[export] Instance xreal_NumericLaws : NumericLaws xreal.
Proof.
  split; cbn [fisnan fzero fone fnan fadd fsub fmul fdiv feqb fltb xreal_Numeric].
  - reflexivity.
  - reflexivity.
  - unfold XR.eqb. destruct (Req_dec_T 0 1) as [E|E]; [lra|reflexivity].
  - unfold XR.lift2. f_equal. lra.
  - unfold XR.lift2. f_equal. lra.
  - intros [d|]; unfold XR.eqb, XR.lift2; [|discriminate].
    destruct (Req_dec_T d 0) as [->|E]; [|discriminate]. intros _. f_equal. lra.
  - intros [c|]; unfold XR.lift2; [|reflexivity]. f_equal. lra.
  - intros [x|]; unfold XR.lift2; [left|right; reflexivity]. f_equal. lra.
  - intros [x|]; unfold XR.lift2; left; [|reflexivity]. f_equal. lra.
  - intros [x|] y; [discriminate|reflexivity].
  - intros [x|] [y|]; try discriminate; reflexivity.
  - intros [x|] y; [discriminate|reflexivity].
  - intros [x|] y; [discriminate|reflexivity].
  - intros [x|] [y|]; try discriminate; reflexivity.
  - intros [x|] y; [discriminate|reflexivity].
  - intros [x|] [y|]; try discriminate; reflexivity.
Qed.

(** ** Index searches *)

Section WhereFacts.
Context {A : Type}.

Lemma where_from_nil (p : A -> bool) k l :
  where_from p k l = [] <-> Forall (fun a => p a = false) l.
Proof.
  revert k. induction l as [|a l IH]; intros k; simpl.
  - split; auto.
  - destruct (p a) eqn:E.
    + split; [discriminate|]. intros Hf. inversion Hf; congruence.
    + rewrite IH. split; [intros Hf; constructor; assumption|].
      intros Hf. inversion Hf; assumption.
Qed.

Lemma where_from_spec (p : A -> bool) k l i :
  i ∈ where_from p k l <-> exists a, k <= i /\ l !! (i - k) = Some a /\ p a = true.
Proof.
  revert k. induction l as [|a l IH]; intros k; simpl.
  - rewrite elem_of_nil. split; [tauto|]. intros (b & _ & Hb & _). discriminate.
  - assert (Htl : i ∈ where_from p (S k) l <->
                  exists b, k <= i /\ i <> k /\ l !! (i - S k) = Some b /\ p b = true).
    { rewrite IH. split.
      - intros (b & Hk & Hb & Hp). exists b. repeat split; auto; lia.
      - intros (b & Hk & Hne & Hb & Hp). exists b. repeat split; auto; lia. }
    destruct (p a) eqn:E.
    + rewrite elem_of_cons, Htl. split.
      * intros [-> | (b & Hk & Hne & Hb & Hp)].
        -- exists a. rewrite Nat.sub_diag. auto.
        -- exists b. repeat split; auto.
           replace (i - k) with (S (i - S k)) by lia. exact Hb.
      * intros (b & Hk & Hb & Hp).
        destruct (decide (i = k)) as [->|Hne]; [left; reflexivity|right].
        exists b. repeat split; auto.
        replace (i - k) with (S (i - S k)) in Hb by lia. exact Hb.
    + rewrite Htl. split.
      * intros (b & Hk & Hne & Hb & Hp). exists b. repeat split; auto.
        replace (i - k) with (S (i - S k)) by lia. exact Hb.
      * intros (b & Hk & Hb & Hp).
        destruct (decide (i = k)) as [->|Hne].
        -- rewrite Nat.sub_diag in Hb. simpl in Hb. congruence.
        -- exists b. repeat split; auto.
           replace (i - k) with (S (i - S k)) in Hb by lia. exact Hb.
Qed.

Lemma np_where_spec (p : A -> bool) l i :
  i ∈ np_where p l <-> exists a, l !! i = Some a /\ p a = true.
Proof.
  unfold np_where. rewrite where_from_spec. split.
  - intros (a & _ & Ha & Hp). rewrite Nat.sub_0_r in Ha. eauto.
  - intros (a & Ha & Hp). exists a. rewrite Nat.sub_0_r. auto with lia.
Qed.

Lemma np_where_lt (p : A -> bool) l i : i ∈ np_where p l -> i < length l.
Proof.
  rewrite np_where_spec. intros (a & Ha & _). eapply lookup_lt_Some, Ha.
Qed.

End WhereFacts.

Section FloatArrayFacts.
Context {F : Type} `{NumericLaws F}.

(** No entry of a float64 array has imaginary part 1: the search for the
    turning point finds nothing on such an array. *)
Lemma np_where_imag_real (l : list F) :
  np_where (fun v => v ==! fone) (np_imag_real l) = [].
Proof.
  apply where_from_nil. unfold np_imag_real.
  apply Forall_map, Forall_forall. intros x _. apply fzero_neq_one.
Qed.

End FloatArrayFacts.

(** ** The turning point (C1) *)

(** C1 (the code departs from the claim).  The claim: the first depth index
    whose value carries a non-zero imaginary part is located, the curve is
    cut there and every deeper index is marked invalid, and no value below
    the turning point is taken by its real part.  On a travel-time curve
    whose samples at 20 km and 30 km have imaginary parts 0.5 and 1.5:
    [_imag2nan] returns the curve as it is, because it searches for an
    imaginary part equal to 1; and [moveoutcorrect_ref] stores the real
    parts of the curve in its float64 buffer, finds no turning point, sets
    the end index to the last depth (3) and maps the trace through all four
    samples. *)
Lemma C1_turning_point_not_located :
  _imag2nan Fixtures.turning_curve = Fixtures.turning_curve
  /\ moveoutcorrect_ref
       (fun g _ e => Ok (Fixtures.curve_model g e Fixtures.turning_curve))
       Fixtures.station1 0.5%float Fixtures.grid4 "r" "iasp91" true
     = Ok ([[2; 3; 5; 8; 0; 0; 0; 0]%float], [3%Z]).
Proof. split; vm_compute; reflexivity. Qed.

(** ** Loops over the events *)

Section MapM.
Context {A B : Type}.

Lemma mapM_Ok_inv (f : A -> result B) l bs :
  mapM f l = Ok bs -> Forall2 (fun a b => f a = Ok b) l bs.
Proof.
  revert bs. induction l as [|a l IH]; intros bs; simpl.
  - intros [= <-]. constructor.
  - destruct (f a) as [b|e] eqn:Ea; simpl; [|discriminate].
    destruct (mapM f l) as [bs'|e]; simpl; [|discriminate].
    intros [= <-]. constructor; auto.
Qed.



End MapM.

Lemma mapM_seq_lookup {B : Type} (f : nat -> result B) n bs i :
  mapM f (seq 0 n) = Ok bs -> i < n -> exists b, bs !! i = Some b /\ f i = Ok b.
Proof.
  intros Hm Hi. apply mapM_Ok_inv in Hm.
  destruct (Forall2_lookup_l _ _ _ i i Hm) as (b & Hb & Hf).
  - apply lookup_seq. auto with lia.
  - eauto.
Qed.

Lemma mapM_seq_length {B : Type} (f : nat -> result B) n bs :
  mapM f (seq 0 n) = Ok bs -> length bs = n.
Proof.
  intros Hm. apply mapM_Ok_inv, Forall2_length in Hm.
  rewrite length_seq in Hm. auto.
Qed.

(** ** The 3-D ray tracer (C2, C8, C10) *)

Lemma get_row_Some {A : Type} (l : list A) i a : l !! i = Some a -> get_row l i = Ok a.
Proof. unfold get_row. intros ->. reflexivity. Qed.

Lemma get_row_Ok {A : Type} (l : list A) i a : get_row l i = Ok a -> l !! i = Some a.
Proof. unfold get_row. destruct (l !! i); [intros [= ->]; reflexivity|discriminate]. Qed.

Section RayTracer3DFacts.
Context {F : Type} `{Numeric F}.
Variable geo : Geo F.
Variable mod3d : Mod3DPerturbation F.

Lemma trace_steps_length sta dd rp baz deps st :
  length (trace_steps geo mod3d sta dd rp baz deps st) = length deps.
Proof.
  revert st. induction deps as [|dep deps IH]; intros st; simpl; [reflexivity|].
  rewrite IH. reflexivity.
Qed.



(** What a successful pass of the event loop has computed. *)
Lemma raytracing_event_Ok sta srayp grid dep_range R ddepth elevation i tr tps_i :
  raytracing_event geo mod3d sta srayp grid dep_range R ddepth elevation i = Ok (tr, tps_i) ->
  exists p baz,
    rayp sta !! i = Some p
    /\ tr = trace_event geo mod3d sta grid ddepth (srad2skm geo p) baz
    /\ 1 <= length grid
    /\ ((elevation ==! fzero) = true -> tps_i = np_zeros (length grid)).
Proof.
  unfold raytracing_event. intros Hev.
  destruct (get_row (rayp sta) i) as [p|] eqn:Hp; [|discriminate]. simpl in Hev.
  apply get_row_Ok in Hp.
  match type of Hev with bind ?m _ = _ => destruct m as [srayps|]; [|discriminate] end.
  simpl in Hev.
  destruct (length grid <? 1)%nat eqn:Hn; [discriminate|]. simpl in Hev.
  apply Nat.ltb_ge in Hn.
  match type of Hev with bind ?m _ = _ => destruct m as [baz|]; [|discriminate] end.
  simpl in Hev.
  match type of Hev with bind ?m _ = _ => destruct m as [t|] eqn:Ht; [|discriminate] end.
  simpl in Hev. injection Hev as <- <-.
  exists p, baz. repeat split; auto.
  intros He. rewrite He in Ht. simpl in Ht. congruence.
Qed.

End RayTracer3DFacts.



Lemma mapM_Ok_Forall {A B : Type} (f : A -> result B) (P : B -> Prop) l :
  (forall a, a ∈ l -> exists b, f a = Ok b /\ P b) ->
  exists bs, mapM f l = Ok bs /\ Forall P bs.
Proof.
  induction l as [|a l IH]; intros Hf; simpl.
  - exists []. split; [reflexivity|constructor].
  - destruct (Hf a) as (b & Hb & HP); [left|].
    destruct IH as (bs & Hbs & HPs); [intros a' Ha'; apply Hf; right; exact Ha'|].
    exists (b :: bs). rewrite Hb. simpl. rewrite Hbs. simpl.
    split; [reflexivity|constructor; assumption].
Qed.

Section RayTracer3DElevation.
Context {F : Type} `{Numeric F}.
Variable geo : Geo F.
Variable mod3d : Mod3DPerturbation F.

Lemma raytracing_event_zero_elevation sta srayp grid dep_range R ddepth elevation i :
  (elevation ==! fzero) = true ->
  1 <= length grid ->
  event_fields sta i ->
  exists tr,
    raytracing_event geo mod3d sta srayp grid dep_range R ddepth elevation i
    = Ok (tr, np_zeros (length grid)).
Proof.
  intros He Hn ([p Hp] & [baz Hbaz] & [d Hd] & [ed Hed]).
  unfold raytracing_event.
  rewrite (get_row_Some _ _ _ Hp). cbn [bind].
  assert (Hs : exists srayps,
             match srayp with
             | SraypLib get_psrayp =>
                 dis_i <- get_row (dis sta) i ;;
                 evdp_i <- get_row (evdp sta) i ;;
                 Ok (map (fun p => skm2srad geo (sdeg2skm geo p))
                         (get_psrayp dis_i evdp_i grid))
             | _ => Ok (replicate (length grid) p)
             end = Ok srayps).
  { destruct srayp; eauto.
    rewrite (get_row_Some _ _ _ Hd), (get_row_Some _ _ _ Hed). cbn [bind]. eauto. }
  destruct Hs as (srayps & ->). cbn [bind].
  apply Nat.ltb_ge in Hn. rewrite Hn. cbn [bind].
  rewrite (get_row_Some _ _ _ Hbaz).
  destruct (length grid <? 2)%nat; cbn [bind]; rewrite He; cbn [negb bind]; eauto.
Qed.

(** With zero elevation the call succeeds on a well-formed station and a
    non-empty grid, and every row of the travel-time output is the zero row
    it was initialised with. *)
Lemma zero_elevation_leaves_tps_zero sta (y : loc) srayp elevation sphere
    (h : heap F) grid :
  h !! y = Some grid ->
  1 <= length grid ->
  (forall i, i < ev_num sta -> event_fields sta i) ->
  srayp_usable srayp ->
  (elevation ==! fzero) = true ->
  exists r,
    snd (psrf_3D_raytracing geo mod3d sta y srayp elevation sphere h) = Ok r
    /\ tps r = replicate (ev_num sta) (np_zeros (length grid)).
Proof.
  intros Hy Hn Hsta Hsr He.
  unfold psrf_3D_raytracing. rewrite Hy. cbn [snd].
  rewrite lookup_alter_eq, Hy. cbn [fmap option_fmap option_map].
  set (grid' := map (fun d => d -! elevation) grid).
  assert (Hn' : 1 <= length grid') by (unfold grid'; rewrite length_map; exact Hn).
  unfold raytracing_body.
  assert (Hs : match srayp with
               | SraypMissingFile => Raise FileNotFoundError
               | SraypOther => Raise TypeError
               | _ => Ok tt
               end = Ok tt) by (destruct srayp; simpl in Hsr; tauto).
  rewrite Hs. cbn [bind].
  destruct (mapM_Ok_Forall
              (raytracing_event geo mod3d sta srayp grid' grid
                 (earth_radius sphere grid elevation) (np_mean (np_diff grid')) elevation)
              (fun r => snd r = np_zeros (length grid))
              (seq 0 (ev_num sta))) as (rows & Hm & Hrows).
  { intros i Hi. apply elem_of_seq in Hi.
    destruct (raytracing_event_zero_elevation sta srayp grid' grid
                (earth_radius sphere grid elevation) (np_mean (np_diff grid'))
                elevation i He Hn') as (tr & Htr); [apply Hsta; lia|].
    exists (tr, np_zeros (length grid')). split; [exact Htr|].
    unfold grid'. rewrite length_map. reflexivity. }
  pose proof (mapM_seq_length _ _ _ Hm) as Hlen.
  rewrite Hm. cbn [bind]. eexists. split; [reflexivity|]. cbn [tps].
  rewrite <- Hlen. clear -Hrows.
  induction Hrows as [|r rows Hr _ IH]; simpl; [reflexivity|].
  rewrite Hr, IH. reflexivity.
Qed.

End RayTracer3DElevation.



(** C2 (the code departs from the claim).  The claim: with zero elevation
    the travel-time output keeps its initial zeros, and with a non-zero
    elevation the accumulated correction is re-interpolated from the
    shifted grid onto the caller's grid.  The first half holds
    ([zero_elevation_leaves_tps_zero]).  For the second, take one event, the
    grid [0, 10, 20] and elevation 1: the shifted grid is [-1, 9, 19], the
    interpolant built on it enforces its bounds, the caller's depth 20 lies
    above them, and the call raises ValueError -- for every velocity
    model and every [seispy.geo] -- instead of returning a re-interpolated
    curve (the caller's grid has been shifted all the same).  In exact
    arithmetic no elevation other than zero gets through
    ([ExactElevation.nonzero_elevation_never_returns]). *)
Theorem C2_nonzero_elevation_raises
    (geo : Geo float) (mod3d : Mod3DPerturbation float) :
  psrf_3D_raytracing geo mod3d Fixtures.station1 1%positive SraypNone
    1%float true Fixtures.store1
  = ({[ 1%positive := [-1; 9; 19]%float ]}, Raise ValueError).
Proof. vm_compute. reflexivity. Qed.

(** *** The S leg and the secondary-phase ray parameter *)

Module ExactFacts.
Import ExactGeo.
Local Open Scope R_scope.

Lemma div_real a b : b <> 0 -> XR.div (XReal a) (XReal b) = XReal (a / b).
Proof. intros Hb. unfold XR.div. destruct (Req_dec_T b 0); [contradiction|reflexivity]. Qed.

Lemma eqb_refl_real a : XR.eqb (XReal a) (XReal a) = true.
Proof. unfold XR.eqb. destruct (Req_dec_T a a); [reflexivity|contradiction]. Qed.




End ExactFacts.


(** ** The migration corrector (C3, C9) *)

Lemma Forall_zip_with_2 {A B C : Type} (f : A -> B -> C)
    (PA : A -> Prop) (PB : B -> Prop) (P : C -> Prop) l k :
  (forall a b, PA a -> PB b -> P (f a b)) ->
  Forall PA l -> Forall PB k -> Forall P (zip_with f l k).
Proof.
  intros Hf Hl. revert k. induction Hl as [|a l Ha _ IH]; intros k Hk; simpl.
  - constructor.
  - destruct Hk as [|b k Hb Hk]; constructor; auto.
Qed.

Section CumsumFacts.
Context {F : Type} `{Numeric F}.

Lemma cumsum_from_length acc (l : list F) : length (cumsum_from acc l) = length l.
Proof.
  revert acc. induction l as [|x l IH]; intros acc; simpl; [reflexivity|].
  rewrite IH. reflexivity.
Qed.

Lemma np_cumsum_length (l : list F) : length (np_cumsum l) = length l.
Proof. destruct l; simpl; [reflexivity|]. rewrite cumsum_from_length. reflexivity. Qed.





End CumsumFacts.

Lemma shape_lookup {F : Type} (n w : nat) (M : list (list F)) i :
  shape n w M -> i < n -> exists row, M !! i = Some row /\ length row = w.
Proof.
  intros [Hn Hw] Hi.
  destruct (lookup_lt_is_Some_2 M i) as [row Hrow]; [lia|].
  exists row. split; [exact Hrow|].
  rewrite Forall_forall in Hw. apply Hw. eapply list_elem_of_lookup_2, Hrow.
Qed.

Section MigrationFacts.
Context {F : Type} `{Numeric F}.

Lemma timecorrection_length (mod3d : Mod3DPerturbation F)
    (Y plat_s plon_s plat_p plon_p dls dlp : list F) :
  length plat_s = length Y -> length plon_s = length Y ->
  length plat_p = length Y -> length plon_p = length Y ->
  length dls = length Y -> length dlp = length Y ->
  length (timecorrection mod3d Y plat_s plon_s plat_p plon_p dls dlp) = length Y.
Proof.
  intros H1 H2 H3 H4 H5 H6.
  unfold timecorrection, mask_assign, raw_tmpds, points.
  rewrite np_cumsum_length, length_map.
  rewrite !length_zip_with, !length_map, !length_zip_with. lia.
Qed.

(** On arrays of [n] events by [length Y] depths the event loop raises
    nothing, and row [i] of the result is row [i] of the travel times plus
    the correction of event [i]. *)
Lemma psrf_3D_migration_rows
    pplat_s pplon_s pplat_p pplon_p raylength_s raylength_p Tpds Y
    (mod3d : Mod3DPerturbation F) n :
  shape n (length Y) pplat_s -> shape n (length Y) pplon_s ->
  shape n (length Y) pplat_p -> shape n (length Y) pplon_p ->
  shape n (length Y) raylength_s -> shape n (length Y) raylength_p ->
  exists tc,
    psrf_3D_migration pplat_s pplon_s pplat_p pplon_p raylength_s raylength_p
      Tpds Y mod3d = Ok (zip_with (zip_with fadd) Tpds tc)
    /\ length tc = n
    /\ forall i crow, tc !! i = Some crow ->
         exists plat_s plon_s plat_p plon_p dls dlp,
           pplat_s !! i = Some plat_s /\ pplon_s !! i = Some plon_s
           /\ pplat_p !! i = Some plat_p /\ pplon_p !! i = Some plon_p
           /\ raylength_s !! i = Some dls /\ raylength_p !! i = Some dlp
           /\ crow = timecorrection mod3d Y plat_s plon_s plat_p plon_p dls dlp.
Proof.
  intros Hlas Hlos Hlap Hlop Hls Hlp. unfold psrf_3D_migration.
  assert (Hn : length raylength_p = n) by apply Hlp.
  set (f := fun i : nat => _).
  destruct (mapM_Ok_Forall f
              (fun _ => True) (seq 0 (length raylength_p))) as (tc & Htc & _).
  { intros i Hi. apply elem_of_seq in Hi. rewrite Hn in Hi.
    assert (Hin : i < n) by lia. unfold f.
    destruct (shape_lookup _ _ _ i Hlap Hin) as (plat_p & E1 & L1).
    destruct (shape_lookup _ _ _ i Hlop Hin) as (plon_p & E2 & L2).
    destruct (shape_lookup _ _ _ i Hlas Hin) as (plat_s & E3 & L3).
    destruct (shape_lookup _ _ _ i Hlos Hin) as (plon_s & E4 & L4).
    destruct (shape_lookup _ _ _ i Hlp Hin) as (dlp & E5 & L5).
    destruct (shape_lookup _ _ _ i Hls Hin) as (dls & E6 & L6).
    rewrite (get_row_Some _ _ _ E1), (get_row_Some _ _ _ E2),
      (get_row_Some _ _ _ E3), (get_row_Some _ _ _ E4),
      (get_row_Some _ _ _ E5), (get_row_Some _ _ _ E6).
    cbn [bind]. unfold assign_row.
    rewrite timecorrection_length, L5, Nat.eqb_refl by assumption. eauto. }
  rewrite Htc. cbn [bind]. exists tc. split; [reflexivity|].
  pose proof (mapM_seq_length _ _ _ Htc) as Hlen.
  split; [lia|]. intros i crow Hc.
  assert (Hi : i < length raylength_p).
  { apply lookup_lt_Some in Hc. lia. }
  destruct (mapM_seq_lookup _ _ _ i Htc Hi) as (crow' & Hc' & Hrow).
  assert (crow' = crow) as -> by congruence.
  unfold f in Hrow.
  repeat match type of Hrow with
         | bind (get_row ?l ?k) _ = _ =>
             let E := fresh "E" in
             destruct (get_row l k) eqn:E; [|discriminate];
             apply get_row_Ok in E; cbn [bind] in Hrow
         end.
  assert (Hrowlen : forall (M : list (list F)) row,
             shape n (length Y) M -> M !! i = Some row -> length row = length Y).
  { intros M row [_ HM] Hrw. rewrite Forall_forall in HM. apply HM.
    eapply list_elem_of_lookup_2, Hrw. }
  unfold assign_row in Hrow.
  rewrite timecorrection_length in Hrow by eauto.
  match goal with
  | E : raylength_p !! i = Some ?dlp |- _ =>
      rewrite (Hrowlen raylength_p dlp Hlp E), Nat.eqb_refl in Hrow
  end.
  injection Hrow as <-.
  do 6 eexists. repeat split; eassumption.
Qed.


End MigrationFacts.

Section ZeroPerturbation.
Context {F : Type} `{NumericLaws F}.
Variable mod3d : Mod3DPerturbation F.
Hypothesis dvs_zero : forall pt, (interpdvs mod3d pt ==! fzero) = true.
Hypothesis dvp_zero : forall pt, (interpdvp mod3d pt ==! fzero) = true.

(** Without perturbation a term is [(a - a) - (b - b)]: zero, or NaN when
    a quotient is not finite. *)
Lemma tmpds_term_zero dls dvs dlp dvp :
  (dvs ==! fzero) = true -> (dvp ==! fzero) = true ->
  tmpds_term mod3d dls dvs dlp dvp = fzero
  \/ fisnan (tmpds_term mod3d dls dvs dlp dvp) = true.
Proof.
  intros Hs Hp. unfold tmpds_term.
  rewrite (fone_plus_zero _ Hs), (fone_plus_zero _ Hp), !fmul_one_r.
  destruct (fsub_diag (dls /! cvs mod3d)) as [-> | Hn].
  - destruct (fsub_diag (dlp /! cvp mod3d)) as [-> | Hn].
    + left. apply fsub_zero_zero.
    + right. apply fsub_nan_r, Hn.
  - right. apply fsub_nan_l, Hn.
Qed.

Lemma cumsum_from_zeros n : cumsum_from fzero (replicate n fzero) = replicate n (fzero : F).
Proof.
  induction n as [|n IH]; simpl; [reflexivity|].
  rewrite fadd_zero_zero, IH. reflexivity.
Qed.

Lemma np_cumsum_zeros n : np_cumsum (replicate n fzero) = replicate n (fzero : F).
Proof. destruct n; simpl; [reflexivity|]. rewrite cumsum_from_zeros. reflexivity. Qed.

Lemma mask_assign_zero (l : list F) :
  Forall (fun x => x = fzero \/ fisnan x = true) l ->
  mask_assign fisnan fzero l = replicate (length l) fzero.
Proof.
  induction 1 as [|x l Hx _ IH]; simpl; [reflexivity|].
  rewrite IH. f_equal.
  destruct Hx as [-> | ->]; [|reflexivity].
  rewrite fisnan_zero. reflexivity.
Qed.

Lemma raw_tmpds_zero Y plat_s plon_s plat_p plon_p dls dlp :
  Forall (fun x => x = fzero \/ fisnan x = true)
         (raw_tmpds mod3d Y plat_s plon_s plat_p plon_p dls dlp).
Proof.
  unfold raw_tmpds.
  apply (Forall_zip_with_2 _ (fun s => (snd s ==! fzero) = true)
                             (fun p => (snd p ==! fzero) = true)).
  - intros s p Hs Hp. apply tmpds_term_zero; assumption.
  - apply (Forall_zip_with_2 _ (fun _ => True) (fun d => (d ==! fzero) = true)).
    + intros a b _ Hb. exact Hb.
    + apply Forall_true. auto.
    + apply Forall_map, Forall_true. intros pt. apply dvs_zero.
  - apply (Forall_zip_with_2 _ (fun _ => True) (fun d => (d ==! fzero) = true)).
    + intros a b _ Hb. exact Hb.
    + apply Forall_true. auto.
    + apply Forall_map, Forall_true. intros pt. apply dvp_zero.
Qed.

Lemma raw_tmpds_length Y plat_s plon_s plat_p plon_p dls dlp w :
  length Y = w -> length plat_s = w -> length plon_s = w ->
  length plat_p = w -> length plon_p = w -> length dls = w -> length dlp = w ->
  length (raw_tmpds mod3d Y plat_s plon_s plat_p plon_p dls dlp) = w.
Proof.
  intros. unfold raw_tmpds, points.
  rewrite !length_zip_with, !length_map, !length_zip_with. lia.
Qed.

(** The correction of an event is zero at every depth sample. *)
Lemma timecorrection_zero Y plat_s plon_s plat_p plon_p dls dlp w :
  length Y = w -> length plat_s = w -> length plon_s = w ->
  length plat_p = w -> length plon_p = w -> length dls = w -> length dlp = w ->
  timecorrection mod3d Y plat_s plon_s plat_p plon_p dls dlp = np_zeros w.
Proof.
  intros. unfold timecorrection.
  rewrite mask_assign_zero by apply raw_tmpds_zero.
  rewrite (raw_tmpds_length _ _ _ _ _ _ _ w) by assumption.
  apply np_cumsum_zeros.
Qed.



End ZeroPerturbation.



(** Entry [k] of [tmpds] before the NaN are replaced: the term of the
    formula at depth sample [k]. *)
Lemma raw_tmpds_lookup {F : Type} `{Numeric F} (mod3d : Mod3DPerturbation F)
    Y plat_s plon_s plat_p plon_p dls dlp k y las los lap lop ls lp :
  Y !! k = Some y ->
  plat_s !! k = Some las -> plon_s !! k = Some los ->
  plat_p !! k = Some lap -> plon_p !! k = Some lop ->
  dls !! k = Some ls -> dlp !! k = Some lp ->
  raw_tmpds mod3d Y plat_s plon_s plat_p plon_p dls dlp !! k
  = Some (tmpds_term mod3d ls (interpdvs mod3d (y, las, los))
                           lp (interpdvp mod3d (y, lap, lop))).
Proof.
  intros HY H1 H2 H3 H4 H5 H6. unfold raw_tmpds, points.
  rewrite !lookup_zip_with, !list_lookup_fmap, !lookup_zip_with.
  rewrite HY, H1, H2, H3, H4, H5, H6. reflexivity.
Qed.




(** ** Re-interpolation onto the unadjusted grid (C7) *)

Section InterpFacts.
Context {F : Type} `{Numeric F}.

Lemma insert_by_x_head (p : F * F) l :
  (forall q, l !! 0 = Some q -> np_lt (fst q) (fst p) = false) ->
  insert_by_x p l = p :: l.
Proof.
  destruct l as [|q l]; intros Hq; simpl; [reflexivity|].
  rewrite (Hq q eq_refl). reflexivity.
Qed.

(** Sorting leaves samples that are already in order where they are. *)
Lemma sort_by_x_sorted (l : list (F * F)) :
  (forall i p q, l !! i = Some p -> l !! S i = Some q -> np_lt (fst q) (fst p) = false) ->
  sort_by_x l = l.
Proof.
  induction l as [|p l IH]; intros Hs; [reflexivity|].
  unfold sort_by_x in *. cbn [foldr]. rewrite IH.
  - apply insert_by_x_head. intros q Hq. apply (Hs 0 p q); [reflexivity|exact Hq].
  - intros i a b Ha Hb. apply (Hs (S i) a b); assumption.
Qed.

Lemma sort_by_x_ascending (x y : list F) :
  ascending x -> sort_by_x (zip x y) = zip x y.
Proof.
  intros Hx. apply sort_by_x_sorted. intros i p q Hp Hq.
  rewrite lookup_zip_with in Hp. rewrite lookup_zip_with in Hq.
  destruct (x !! i) as [a|] eqn:Ea; [|discriminate]. cbn in Hp.
  destruct (y !! i); [|discriminate]. cbn in Hp. injection Hp as <-.
  destruct (x !! S i) as [b|] eqn:Eb; [|discriminate]. cbn in Hq.
  destruct (y !! S i); [|discriminate]. cbn in Hq. injection Hq as <-.
  cbn [fst]. exact (Hx i a b Ea Eb).
Qed.

Lemma interp1d_ascending (x y : list F) be fill :
  ascending x -> length y = length x -> 1 <= length x ->
  interp1d x y be fill
  = Ok {| ip_x := x; ip_y := y; ip_bounds_error := be; ip_fill := fill |}.
Proof.
  intros Hx Hy Hn. unfold interp1d.
  rewrite Hy, Nat.eqb_refl. cbn [negb].
  apply Nat.ltb_ge in Hn. rewrite Hn.
  rewrite sort_by_x_ascending by exact Hx.
  rewrite fst_zip, snd_zip by lia. reflexivity.
Qed.

Lemma interp1d_call_length o (q r : list F) :
  interp1d_call o q = Ok r -> length r = length q.
Proof.
  unfold interp1d_call.
  destruct (ip_bounds_error o && existsb (below_bounds o) q); [discriminate|].
  destruct (ip_bounds_error o && existsb (above_bounds o) q); [discriminate|].
  intros [= <-]. apply length_map.
Qed.

(** With [bounds_error=False] a call returns, one value per query. *)
Lemma interp_filled_ascending (x y : list F) fill q :
  ascending x -> length y = length x -> 1 <= length x ->
  interp_filled x y fill q
  = Ok (map (fun d => if py_nth x (-1) <! d then snd fill
                      else if d <! py_nth x 0 then fst fill
                      else lerp x y d) q).
Proof.
  intros Hx Hy Hn. unfold interp_filled.
  rewrite interp1d_ascending by assumption. cbn [bind].
  unfold interp1d_call. cbn [ip_bounds_error andb]. reflexivity.
Qed.

Lemma py_get_last {A : Type} (l : list A) :
  py_get l (-1) = match last l with Some v => Ok v | None => Raise IndexError end.
Proof.
  unfold py_get. cbn [Z.ltb Z.compare].
  destruct (decide (l = [])) as [->|Hne]; [reflexivity|].
  assert (Hl : 0 < length l) by (destruct l; [congruence|simpl; lia]).
  replace (-1 + Z.of_nat (length l) <? 0)%Z with false by (symmetry; apply Z.ltb_ge; lia).
  replace (Z.to_nat (-1 + Z.of_nat (length l))) with (Nat.pred (length l)) by lia.
  rewrite <- last_lookup. destruct (last l) eqn:E; [reflexivity|].
  apply last_None in E. contradiction.
Qed.

Lemma to_depths_ascending (dep_mod : DepModel F) curve :
  ascending (depths_elev dep_mod) ->
  length curve = length (depths_elev dep_mod) ->
  1 <= length (depths_elev dep_mod) ->
  to_depths dep_mod curve
  = Ok (map (reinterpolate (depths_elev dep_mod) curve) (depths dep_mod)).
Proof.
  intros Hx Hc Hn. unfold to_depths. rewrite py_get_last.
  destruct (last curve) as [v|] eqn:Ev.
  2:{ apply last_None in Ev. subst curve. simpl in Hc. lia. }
  cbn [bind]. unfold interp_filled_c.
  rewrite !interp_filled_ascending by (rewrite ?length_map; assumption).
  cbn [bind fst snd re im c_nan]. f_equal.
  induction (depths dep_mod) as [|d ds IH]; simpl; [reflexivity|].
  rewrite IH. f_equal. unfold reinterpolate. rewrite Ev. cbn [default].
  destruct (py_nth (depths_elev dep_mod) (-1) <! d); [destruct v; reflexivity|].
  destruct (d <! py_nth (depths_elev dep_mod) 0); reflexivity.
Qed.

End InterpFacts.

Lemma ascendingb_correct {F : Type} `{Numeric F} (x : list F) :
  ascendingb x = true -> ascending x.
Proof.
  induction x as [|a x IH]; intros Hb i u v Hu Hv; [discriminate|].
  destruct x as [|b x]; [destruct i; discriminate|].
  cbn [ascendingb] in Hb. apply andb_prop in Hb as [Hab Hx].
  destruct i as [|i].
  - cbn in Hu, Hv. injection Hu as <-. injection Hv as <-.
    apply negb_true_iff, Hab.
  - apply (IH Hx i u v); assumption.
Qed.

(** C7.  When the station elevation is not zero, every curve that
    [xps_tps_map] returns -- the travel time, the two offsets and, when
    asked for, the two ray lengths -- is the velocity model's curve over
    the elevation-adjusted grid re-interpolated at the depths of the
    unadjusted grid: a depth above the last adjusted depth gets the
    curve's last value (flat extension), a depth below the first adjusted
    depth gets the invalid value, and a depth in between is interpolated
    linearly. *)
Theorem C7_curves_reinterpolated_onto_unadjusted_grid
    {F : Type} `{Numeric F} (dep_mod : DepModel F) (srayp prayp : rayparam F)
    (is_raylen sphere : bool) :
  (elevation dep_mod ==! fzero) = false ->
  ascending (depths_elev dep_mod) ->
  1 <= length (depths_elev dep_mod) ->
  length (radius_s dep_mod prayp PhaseS sphere) = length (depths_elev dep_mod) ->
  length (radius_s dep_mod prayp PhaseP sphere) = length (depths_elev dep_mod) ->
  length (tpds dep_mod srayp prayp sphere) = length (depths_elev dep_mod) ->
  length (raylength dep_mod srayp PhaseS sphere) = length (depths_elev dep_mod) ->
  length (raylength dep_mod prayp PhaseP sphere) = length (depths_elev dep_mod) ->
  let x := depths_elev dep_mod in
  let onto curve := map (reinterpolate x curve) (depths dep_mod) in
  xps_tps_map dep_mod srayp prayp is_raylen sphere
  = Ok {| xt_tps := onto (tpds dep_mod srayp prayp sphere);
          xt_x_s := onto (radius_s dep_mod prayp PhaseS sphere);
          xt_x_p := onto (radius_s dep_mod prayp PhaseP sphere);
          xt_raylength :=
            if is_raylen
            then Some (onto (raylength dep_mod srayp PhaseS sphere),
                       onto (raylength dep_mod prayp PhaseP sphere))
            else None |}
  /\ (forall curve q,
        (py_nth x (-1) <! q) = true ->
        reinterpolate x curve q = default (mkC fnan fzero) (last curve))
  /\ (forall curve q,
        (py_nth x (-1) <! q) = false -> (q <! py_nth x 0) = true ->
        reinterpolate x curve q = mkC fnan fzero).
Proof.
  intros He Hx Hn Hs Hp Ht Hls Hlp x onto. split; [|split].
  - unfold xps_tps_map. rewrite He. cbn [negb].
    rewrite !to_depths_ascending by assumption. cbn [bind].
    destruct is_raylen.
    + rewrite !to_depths_ascending by assumption. reflexivity.
    + reflexivity.
  - intros curve q Ha. unfold reinterpolate. rewrite Ha. reflexivity.
  - intros curve q Ha Hb. unfold reinterpolate. rewrite Ha, Hb. reflexivity.
Qed.

Lemma C7_curves_witness :
  let x := depths_elev Fixtures.raised_model in
  let onto curve := map (reinterpolate x curve) (depths Fixtures.raised_model) in
  xps_tps_map Fixtures.raised_model (RpScalar 1%float) (RpScalar 1%float) true true
  = Ok {| xt_tps := onto (tpds Fixtures.raised_model (RpScalar 1%float)
                            (RpScalar 1%float) true);
          xt_x_s := onto (radius_s Fixtures.raised_model (RpScalar 1%float) PhaseS true);
          xt_x_p := onto (radius_s Fixtures.raised_model (RpScalar 1%float) PhaseP true);
          xt_raylength :=
            if true
            then Some (onto (raylength Fixtures.raised_model (RpScalar 1%float) PhaseS true),
                       onto (raylength Fixtures.raised_model (RpScalar 1%float) PhaseP true))
            else None |}
  /\ (forall curve q,
        (py_nth x (-1) <! q) = true ->
        reinterpolate x curve q = default (mkC fnan fzero) (last curve))
  /\ (forall curve q,
        (py_nth x (-1) <! q) = false -> (q <! py_nth x 0) = true ->
        reinterpolate x curve q = mkC fnan fzero).
Proof.
  apply (C7_curves_reinterpolated_onto_unadjusted_grid Fixtures.raised_model
           (RpScalar 1%float) (RpScalar 1%float) true true).
  - vm_compute; reflexivity.
  - apply ascendingb_correct. vm_compute; reflexivity.
  - vm_compute; lia.
  - vm_compute; reflexivity.
  - vm_compute; reflexivity.
  - vm_compute; reflexivity.
  - vm_compute; reflexivity.
  - vm_compute; reflexivity.
Defined.

(** On the fixture (elevation 0.5 km, adjusted grid [-0.5 .. 23.5]): the
    depths 0, 8 and 16 are interpolated and the depth 24, above the last
    adjusted depth, takes the last value of the curve. *)
Example xps_tps_map_raised :
  xt_tps <$> (match xps_tps_map Fixtures.raised_model (RpScalar 1%float)
                      (RpScalar 1%float) false true with
              | Ok r => Some r | Raise _ => None end)
  = Some [mkC 0.0625 0; mkC 1.0625 0; mkC 2.125 0; mkC 4 0]%float.
Proof. vm_compute. reflexivity. Qed.

(** ** Time-to-depth conversion: events without a usable depth axis *)

Section DepthRowFacts.
Context {F : Type} `{NumericLaws F}.

Lemma insert_by_x_Forall (P : F * F -> Prop) p l :
  P p -> Forall P l -> Forall P (insert_by_x p l).
Proof.
  intros Hp Hl. induction Hl as [|q l Hq Hl IH]; simpl.
  - constructor; [exact Hp|constructor].
  - destruct (np_lt (fst q) (fst p)); repeat constructor; assumption.
Qed.

Lemma sort_by_x_Forall (P : F * F -> Prop) l : Forall P l -> Forall P (sort_by_x l).
Proof.
  unfold sort_by_x. induction 1 as [|p l Hp _ IH]; simpl; [constructor|].
  apply insert_by_x_Forall; assumption.
Qed.

(** An entry of an array of NaN is NaN, at whatever index it is read. *)
Lemma py_nth_nan (l : list F) i :
  Forall (fun v => fisnan v = true) l -> fisnan (py_nth l i) = true.
Proof.
  intros Hl. unfold py_nth, py_get.
  destruct (_ <? 0)%Z; [apply fisnan_nan|].
  destruct (l !! _) as [v|] eqn:Ev; [|apply fisnan_nan].
  rewrite Forall_forall in Hl. apply Hl. eapply list_elem_of_lookup_2, Ev.
Qed.

(** Interpolating over an axis of NaN gives NaN at every query. *)
Lemma interp_nan_of_nan_axis (x y q : list F) :
  Forall (fun v => fisnan v = true) x ->
  length x = length y -> 1 <= length x ->
  exists r, interp_nan x y q = Ok r
            /\ length r = length q
            /\ Forall (fun v => fisnan v = true) r.
Proof.
  intros Hx Hlen Hn. unfold interp_nan, interp1d.
  rewrite Hlen, Nat.eqb_refl. cbn [negb].
  rewrite <- Hlen. apply Nat.ltb_ge in Hn. rewrite Hn. cbn [bind].
  unfold interp1d_call. cbn [ip_bounds_error andb].
  eexists. split; [reflexivity|]. split; [apply length_map|].
  set (o := {| ip_x := _ |}).
  assert (Hox : Forall (fun v => fisnan v = true) (ip_x o)).
  { cbn [o ip_x]. apply Forall_map.
    apply (sort_by_x_Forall (fun p => fisnan (fst p) = true)).
    clear -Hx. revert y. induction Hx as [|a x Ha _ IH]; intros [|b y];
      simpl; constructor; auto. }
  apply Forall_map, Forall_true. intros d. unfold interp_fill, above_bounds, below_bounds.
  rewrite (fltb_nan_l _ d (py_nth_nan _ (-1) Hox)).
  rewrite (fltb_nan_r d _ (py_nth_nan _ 0 Hox)).
  unfold interp_point. apply fadd_nan_l, fmul_nan_l, fdiv_nan_r, fsub_nan_l.
  apply py_nth_nan, Hox.
Qed.

Lemma np_where_valid_nil (D : list F) :
  Forall (fun v => fisnan v = true) D ->
  np_where (fun d => negb (fisnan d)) D = [].
Proof.
  intros HD. apply where_from_nil. eapply Forall_impl; [exact HD|].
  intros v Hv. cbn. rewrite Hv. reflexivity.
Qed.

(** The two guards of the event loop: no valid sample, or a valid sample
    past the trace. *)
Lemma depth_row_guard (Y DepthAxis amps : list F) :
  np_where (fun d => negb (fisnan d)) DepthAxis = []
  \/ length amps < foldr Nat.max 0 (np_where (fun d => negb (fisnan d)) DepthAxis) ->
  depth_row Y DepthAxis amps = Ok (np_zeros (length Y)).
Proof.
  unfold depth_row. intros [-> | Hlt]; [reflexivity|].
  destruct (np_where _ DepthAxis) as [|k ks]; [reflexivity|].
  apply Nat.ltb_lt in Hlt. rewrite Hlt. reflexivity.
Qed.

(** On a float64 travel-time array the search for the turning point is
    empty and the curve is used whole. *)
Lemma depth_axis_whole (sta : RFStation F) Y TempTpds :
  depth_axis sta Y TempTpds
  = (DepthAxis <- interp_nan TempTpds Y (time_axis sta) ;;
     Ok ((Z.of_nat (length Y) - 1)%Z, DepthAxis)).
Proof. unfold depth_axis. rewrite np_where_imag_real. reflexivity. Qed.

End DepthRowFacts.

Section Time2DepthFacts.
Context {F : Type} `{NumericLaws F}.

Lemma normalize_fields (sta sta' : RFStation F) m :
  normalize sta m = Ok sta' ->
  ev_num sta' = ev_num sta /\ time_axis sta' = time_axis sta.
Proof.
  unfold normalize. intros Hn.
  repeat match type of Hn with
         | bind ?c _ = _ => destruct c; [|discriminate]; cbn [bind] in Hn
         end.
  injection Hn as <-. split; reflexivity.
Qed.

(** The station the event loop runs on has the events and the time axis
    of the station passed in. *)
Lemma time2depth_rows (stadatar : RFStation F) Y Tpds norm P E :
  time2depth stadatar Y Tpds norm = Ok (P, E) ->
  exists sta,
    ev_num sta = ev_num stadatar /\ time_axis sta = time_axis stadatar
    /\ forall i, i < ev_num stadatar ->
         exists row e, time2depth_event sta Y Tpds i = Ok (row, e)
                       /\ P !! i = Some row /\ E !! i = Some e.
Proof.
  unfold time2depth. intros Ht.
  match type of Ht with bind ?c _ = _ => destruct c as [sta|] eqn:Hs; [|discriminate] end.
  cbn [bind] in Ht.
  match type of Ht with bind ?c _ = _ => destruct c as [rows|] eqn:Hr; [|discriminate] end.
  cbn [bind] in Ht. injection Ht as <- <-.
  assert (Hf : ev_num sta = ev_num stadatar /\ time_axis sta = time_axis stadatar).
  { destruct norm as [m|]; [|injection Hs as <-; split; reflexivity].
    destruct (String.eqb m ""); [injection Hs as <-; split; reflexivity|].
    eapply normalize_fields, Hs. }
  destruct Hf as [Hev Hax]. exists sta. repeat split; [exact Hev|exact Hax|].
  intros i Hi. rewrite <- Hev in Hi.
  destruct (mapM_seq_lookup _ _ _ i Hr Hi) as ([row e] & Hrow & Hevt).
  exists row, e. rewrite !list_lookup_fmap, Hrow. repeat split. exact Hevt.
Qed.

(** A successful event whose travel-time curve is NaN throughout has
    produced the zero row. *)
Lemma time2depth_event_nan_curve (sta : RFStation F) Y Tpds i T row e :
  time2depth_event sta Y Tpds i = Ok (row, e) ->
  Tpds !! i = Some T ->
  Forall (fun t => fisnan t = true) T ->
  length T = length Y -> 1 <= length Y ->
  row = np_zeros (length Y) /\ e = (Z.of_nat (length Y) - 1)%Z.
Proof.
  unfold time2depth_event. intros Hev HT Hnan Hlen Hn.
  rewrite (get_row_Some _ _ _ HT) in Hev. cbn [bind] in Hev.
  destruct (interp_nan_of_nan_axis T Y (time_axis sta) Hnan Hlen)
    as (D & HD & _ & HDnan); [lia|].
  rewrite depth_axis_whole, HD in Hev. cbn [bind] in Hev.
  destruct (prime_data sta); [|discriminate]. cbn [bind] in Hev.
  match type of Hev with bind ?c _ = _ => destruct c; [|discriminate] end.
  cbn [bind snd fst] in Hev.
  rewrite depth_row_guard in Hev by (left; apply np_where_valid_nil, HDnan).
  cbn [bind] in Hev. injection Hev as <- <-. split; reflexivity.
Qed.

End Time2DepthFacts.

(** X19.  In [time2depth], for an event whose amplitudes are there:
    whenever the depth axis of the event has no valid (non-NaN) sample, or
    its last valid sample index exceeds the length of the trace, the event
    gives an all-zero row and raises nothing; in particular an event whose
    travel-time curve is NaN at every depth gives a depth axis without any
    valid sample and an all-zero row, which is the event's row of the
    depth profile that [time2depth] returns. *)
Theorem X19_invalid_events_give_zero_rows
    {F : Type} `{NumericLaws F} (sta : RFStation F) (Y : list F)
    (Tpds : list (list F)) (i : nat) (TempTpds : list F)
    (data : list (list F)) (amps : list F) :
  Tpds !! i = Some TempTpds ->
  prime_data sta = Ok data ->
  data !! i = Some amps ->
  (forall e DepthAxis,
      depth_axis sta Y TempTpds = Ok (e, DepthAxis) ->
      np_where (fun d => negb (fisnan d)) DepthAxis = []
      \/ length amps < foldr Nat.max 0 (np_where (fun d => negb (fisnan d)) DepthAxis) ->
      time2depth_event sta Y Tpds i = Ok (np_zeros (length Y), e))
  /\ (Forall (fun t => fisnan t = true) TempTpds ->
      length TempTpds = length Y -> 2 <= length Y ->
      exists DepthAxis,
        depth_axis sta Y TempTpds = Ok ((Z.of_nat (length Y) - 1)%Z, DepthAxis)
        /\ Forall (fun d => fisnan d = true) DepthAxis
        /\ time2depth_event sta Y Tpds i
           = Ok (np_zeros (length Y), (Z.of_nat (length Y) - 1)%Z)
        /\ forall norm P E,
             time2depth sta Y Tpds norm = Ok (P, E) -> i < ev_num sta ->
             P !! i = Some (np_zeros (length Y))).
Proof.
  intros HT Hd Ha.
  assert (Hguard : forall e DepthAxis,
             depth_axis sta Y TempTpds = Ok (e, DepthAxis) ->
             np_where (fun d => negb (fisnan d)) DepthAxis = []
             \/ length amps
                < foldr Nat.max 0 (np_where (fun d => negb (fisnan d)) DepthAxis) ->
             time2depth_event sta Y Tpds i = Ok (np_zeros (length Y), e)).
  { intros e D HD Hg. unfold time2depth_event.
    rewrite (get_row_Some _ _ _ HT). cbn [bind]. rewrite HD. cbn [bind].
    rewrite Hd. cbn [bind]. rewrite (get_row_Some _ _ _ Ha). cbn [bind snd fst].
    rewrite (depth_row_guard _ _ _ Hg). reflexivity. }
  split; [exact Hguard|].
  intros Hnan Hlen Hn.
  destruct (interp_nan_of_nan_axis TempTpds Y (time_axis sta) Hnan Hlen)
    as (D & HD & _ & HDnan); [lia|].
  assert (Hax : depth_axis sta Y TempTpds = Ok ((Z.of_nat (length Y) - 1)%Z, D)).
  { rewrite depth_axis_whole, HD. reflexivity. }
  exists D. split; [exact Hax|]. split; [exact HDnan|].
  split; [apply (Hguard _ D Hax); left; apply np_where_valid_nil, HDnan|].
  intros norm P E Ht Hi.
  destruct (time2depth_rows _ _ _ _ _ _ Ht) as (sta' & _ & _ & Hrows).
  destruct (Hrows i Hi) as (row & e & Hev & HP & _).
  destruct (time2depth_event_nan_curve _ _ _ _ _ _ _ Hev HT Hnan Hlen) as [-> _];
    [lia|exact HP].
Qed.

Lemma X19_invalid_events_witness :
  (forall e DepthAxis,
      depth_axis Fixtures.station1 Fixtures.grid4 [nan; nan; nan; nan]%float
      = Ok (e, DepthAxis) ->
      np_where (fun d => negb (fisnan d)) DepthAxis = []
      \/ length [1; 2; 3; 4; 5; 6; 7; 8]%float
         < foldr Nat.max 0 (np_where (fun d => negb (fisnan d)) DepthAxis) ->
      time2depth_event Fixtures.station1 Fixtures.grid4 [[nan; nan; nan; nan]%float] 0
      = Ok (np_zeros (length Fixtures.grid4), e))
  /\ (Forall (fun t => fisnan t = true) [nan; nan; nan; nan]%float ->
      length [nan; nan; nan; nan]%float = length Fixtures.grid4 ->
      2 <= length Fixtures.grid4 ->
      exists DepthAxis,
        depth_axis Fixtures.station1 Fixtures.grid4 [nan; nan; nan; nan]%float
        = Ok ((Z.of_nat (length Fixtures.grid4) - 1)%Z, DepthAxis)
        /\ Forall (fun d => fisnan d = true) DepthAxis
        /\ time2depth_event Fixtures.station1 Fixtures.grid4
             [[nan; nan; nan; nan]%float] 0
           = Ok (np_zeros (length Fixtures.grid4),
                 (Z.of_nat (length Fixtures.grid4) - 1)%Z)
        /\ forall norm P E,
             time2depth Fixtures.station1 Fixtures.grid4
               [[nan; nan; nan; nan]%float] norm = Ok (P, E) ->
             0 < ev_num Fixtures.station1 ->
             P !! 0 = Some (np_zeros (length Fixtures.grid4))).
Proof.
  apply (X19_invalid_events_give_zero_rows Fixtures.station1 Fixtures.grid4
           [[nan; nan; nan; nan]%float] 0 [nan; nan; nan; nan]%float
           [[1; 2; 3; 4; 5; 6; 7; 8]%float] [1; 2; 3; 4; 5; 6; 7; 8]%float);
    vm_compute; reflexivity.
Defined.

(** The fixture run through: the event with the NaN curve gets the zero
    row, with or without normalisation. *)
Example time2depth_nan_event :
  time2depth Fixtures.station1 Fixtures.grid4 [[nan; nan; nan; nan]%float]
    (Some "single"%string)
  = Ok ([[0; 0; 0; 0]%float], [3%Z]).
Proof. vm_compute. reflexivity. Qed.

(** ** Moveout correction (C5, C6) *)

Section MoveoutFacts.
Context {F : Type} `{Numeric F}.

Lemma assign_row_Ok w (row r : list F) :
  assign_row w row = Ok r -> length r = w /\ (length row = w -> r = row).
Proof.
  unfold assign_row. destruct (length row =? w)%nat eqn:E.
  - intros [= <-]. apply Nat.eqb_eq in E. auto.
  - apply Nat.eqb_neq in E. destruct row as [|v [|? ?]]; try discriminate.
    intros [= <-]. rewrite length_replicate. split; [reflexivity|contradiction].
Qed.

Lemma nd_real_length (a : ndarray F) : length (nd_real a) = nd_length a.
Proof. destruct a; cbn; [reflexivity|apply length_map]. Qed.

Lemma nd_length_complex (a : ndarray F) : length (nd_complex a) = nd_length a.
Proof. destruct a; cbn; [apply length_map|reflexivity]. Qed.

Lemma nd_length_append (a b : ndarray F) :
  nd_length (nd_append a b) = nd_length a + nd_length b.
Proof.
  destruct a, b; cbn [nd_append nd_length];
    rewrite length_app, ?nd_length_complex; cbn [nd_length nd_complex];
    rewrite ?length_map; reflexivity.
Qed.

Lemma nd_length_append_scalar (a : ndarray F) s :
  nd_length (nd_append_scalar a s) = S (nd_length a).
Proof.
  destruct a, s; cbn [nd_append_scalar nd_length nd_complex];
    rewrite length_app, ?length_map; cbn [length]; lia.
Qed.

Lemma nd_length_take n (a : ndarray F) :
  nd_length (nd_take n a) = Nat.min n (nd_length a).
Proof. destruct a; cbn [nd_take nd_length]; apply length_take. Qed.

Lemma nd_take_ge n (a : ndarray F) : nd_length a <= n -> nd_take n a = a.
Proof.
  destruct a; cbn [nd_take nd_length]; intros Hn; rewrite take_ge by lia; reflexivity.
Qed.

Lemma nd_append_nil (a : ndarray F) : nd_append a (Float64 []) = a.
Proof.
  destruct a; cbn [nd_append nd_complex map]; rewrite app_nil_r; reflexivity.
Qed.

Lemma nd_fit_length_length n (a : ndarray F) : nd_length (nd_fit_length n a) = n.
Proof.
  unfold nd_fit_length. destruct (nd_length a <? n)%nat eqn:E.
  - apply Nat.ltb_lt in E. rewrite nd_length_append. cbn [nd_length].
    unfold np_zeros. rewrite length_replicate. lia.
  - apply Nat.ltb_ge in E. rewrite nd_length_take. lia.
Qed.

(** Zero padding at the far end, or a cut, for either dtype. *)
Lemma nd_fit_length_pad n (a : ndarray F) :
  nd_fit_length n a
  = nd_take n (nd_append a (Float64 (np_zeros (n - nd_length a)))).
Proof.
  unfold nd_fit_length. destruct (nd_length a <? n)%nat eqn:E.
  - apply Nat.ltb_lt in E. rewrite nd_take_ge; [reflexivity|].
    rewrite nd_length_append. cbn [nd_length]. unfold np_zeros.
    rewrite length_replicate. lia.
  - apply Nat.ltb_ge in E. replace (n - nd_length a) with 0 by lia.
    unfold np_zeros. cbn [replicate]. rewrite nd_append_nil. reflexivity.
Qed.

(** What a pass of the second event loop has computed when it succeeds. *)
Lemma moveout_event_Ok sta n_depths Tpds_ref TempTpds data i row e :
  moveout_event sta n_depths Tpds_ref TempTpds data i = Ok (row, e) ->
  length row = rflength sta
  /\ exists data_i Newaxis Tempdata,
       data !! i = Some data_i
       /\ nd_interp_nan Newaxis (take (nd_length Newaxis) data_i) (x_new_axis sta)
          = Ok Tempdata
       /\ row = nd_real
                  (nd_fit_length (rflength sta)
                     match nd_where_isnan Tempdata with
                     | [] => Tempdata
                     | e0 :: _ =>
                         nd_append (nd_slice 1 e0 Tempdata)
                                   (Float64 (drop (nd_length Newaxis + 1) data_i))
                     end).
Proof.
  unfold moveout_event. intros Hev.
  repeat match type of Hev with
         | bind ?c _ = _ =>
             let E := fresh "E" in
             destruct c eqn:E; [|discriminate]; cbn [bind] in Hev
         end.
  injection Hev as <- <-.
  match goal with
  | E : assign_row _ _ = Ok _ |- _ =>
      apply assign_row_Ok in E as [Hl Hr];
      rewrite Hr in * by (rewrite nd_real_length; apply nd_fit_length_length);
      clear Hr
  end.
  match goal with E : get_row _ _ = Ok _ |- _ => apply get_row_Ok in E end.
  split; [exact Hl|]. do 3 eexists.
  split; [eassumption|]. split; [eassumption|reflexivity].
Qed.

End MoveoutFacts.

(** C5.  When moveout correction returns, it returns one corrected row
    per event, and every row has exactly the length of the station's
    traces, wherever the mapping of the event stopped: the row is the
    interpolated trace -- or, when the interpolation left undefined values,
    its samples 1 up to the first undefined one followed by the original
    samples after index [endidx] -- padded with zeros at the far end, or
    cut, to the trace length, as the float64 buffer of the result holds it
    (the real parts, when the reference curve made the new axis complex). *)
Theorem C5_corrected_rows_have_trace_length
    {F : Type} `{Numeric F}
    (DepModel_init : list F -> string -> F -> result (DepModel F))
    (sta : RFStation F) (raypref : F) (Y : list F) (chan velmod : string)
    (sphere : bool) (Newdatar : list (list F)) (EndIndex : list Z) :
  moveoutcorrect_ref DepModel_init sta raypref Y chan velmod sphere
  = Ok (Newdatar, EndIndex) ->
  length Newdatar = ev_num sta
  /\ forall i, i < ev_num sta ->
       exists row data data_i Newaxis Tempdata,
         Newdatar !! i = Some row
         /\ length row = rflength sta
         /\ select_chan sta chan = Ok data
         /\ data !! i = Some data_i
         /\ nd_interp_nan Newaxis (take (nd_length Newaxis) data_i) (x_new_axis sta)
            = Ok Tempdata
         /\ let New_data :=
              match nd_where_isnan Tempdata with
              | [] => Tempdata
              | e0 :: _ =>
                  nd_append (nd_slice 1 e0 Tempdata)
                            (Float64 (drop (nd_length Newaxis + 1) data_i))
              end in
            row = nd_real
                    (nd_take (rflength sta)
                       (nd_append New_data
                          (Float64 (np_zeros (rflength sta - nd_length New_data))))).
Proof.
  unfold moveoutcorrect_ref. intros Hm.
  destruct (select_chan sta chan) as [data|] eqn:Hd; [|discriminate].
  cbn [bind] in Hm.
  repeat match type of Hm with
         | bind (mapM ?f ?l) _ = _ =>
             let E := fresh "Erows" in
             destruct (mapM f l) eqn:E; [|discriminate]; cbn [bind] in Hm
         | bind ?c _ = _ =>
             destruct c; [|discriminate]; cbn [bind] in Hm
         end.
  injection Hm as <- <-.
  split; [rewrite length_map; eapply mapM_seq_length; eassumption|].
  intros i Hi.
  destruct (mapM_seq_lookup _ _ _ i Erows0 Hi) as ([row e] & Hrow & Hev).
  destruct (get_row _ i) as [TempTpds|]; [|discriminate]. cbn [bind] in Hev.
  destruct (moveout_event_Ok _ _ _ _ _ _ _ _ Hev)
    as (Hlen & data_i & Newaxis & Tempdata & Hdi & Hitp & ->).
  eexists _, data, data_i, Newaxis, Tempdata.
  rewrite list_lookup_fmap, Hrow.
  split; [reflexivity|]. split; [exact Hlen|]. split; [reflexivity|].
  split; [exact Hdi|]. split; [exact Hitp|].
  cbv zeta. rewrite nd_fit_length_pad. reflexivity.
Qed.

Lemma C5_corrected_rows_witness :
  length [[2; 3; 3.5; 4; 6; 7; 8; 0]; [20; 30; 50; 70; 0; 0; 0; 0]]%float
  = ev_num Fixtures.station2
  /\ forall i, i < ev_num Fixtures.station2 ->
       exists row data data_i Newaxis Tempdata,
         [[2; 3; 3.5; 4; 6; 7; 8; 0]; [20; 30; 50; 70; 0; 0; 0; 0]]%float !! i = Some row
         /\ length row = rflength Fixtures.station2
         /\ select_chan Fixtures.station2 "r" = Ok data
         /\ data !! i = Some data_i
         /\ nd_interp_nan Newaxis (take (nd_length Newaxis) data_i)
              (x_new_axis Fixtures.station2) = Ok Tempdata
         /\ let New_data :=
              match nd_where_isnan Tempdata with
              | [] => Tempdata
              | e0 :: _ =>
                  nd_append (nd_slice 1 e0 Tempdata)
                            (Float64 (drop (nd_length Newaxis + 1) data_i))
              end in
            row = nd_real
                    (nd_take (rflength Fixtures.station2)
                       (nd_append New_data
                          (Float64 (np_zeros (rflength Fixtures.station2
                                              - nd_length New_data))))).
Proof.
  apply (C5_corrected_rows_have_trace_length Fixtures.line_model Fixtures.station2
           0.5%float Fixtures.grid4 "r" "iasp91" true
           [[2; 3; 3.5; 4; 6; 7; 8; 0]; [20; 30; 50; 70; 0; 0; 0; 0]]%float
           [3%Z; 3%Z]).
  vm_compute; reflexivity.
Defined.

Section NewaxisLoopFacts.
Context {F : Type} `{Numeric F}.

Lemma py_get_in_range {A : Type} (l : list A) (i : Z) :
  (- Z.of_nat (length l) <= i < Z.of_nat (length l))%Z ->
  exists v, py_get l i = Ok v.
Proof.
  intros Hi. unfold py_get.
  destruct (i <? 0)%Z eqn:Ei; cbv zeta.
  - apply Z.ltb_lt in Ei.
    replace (i + Z.of_nat (length l) <? 0)%Z with false
      by (symmetry; apply Z.ltb_ge; lia).
    destruct (lookup_lt_is_Some_2 l (Z.to_nat (i + Z.of_nat (length l)))) as [v ->];
      [lia|eexists; reflexivity].
  - rewrite Ei. apply Z.ltb_ge in Ei.
    destruct (lookup_lt_is_Some_2 l (Z.to_nat i)) as [v ->];
      [lia|eexists; reflexivity].
Qed.

Lemma nd_get_in_range (a : ndarray F) (i : Z) :
  (- Z.of_nat (nd_length a) <= i < Z.of_nat (nd_length a))%Z ->
  exists v, nd_get a i = Ok v.
Proof.
  intros Hi. destruct a as [l|l]; cbn [nd_get nd_length] in *;
    destruct (py_get_in_range l i Hi) as [v ->]; eexists; reflexivity.
Qed.

(** The loop raises nothing when the reference curve is as long as the
    event's curve, and adds at most one entry per sample. *)
Lemma newaxis_loop_total sta (Tpds_ref : ndarray F) (tps_i : list F) n js acc :
  length tps_i <= nd_length Tpds_ref ->
  exists acc',
    newaxis_loop sta Tpds_ref tps_i (StopLen n) js acc = Ok acc'
    /\ nd_length acc <= nd_length acc' <= nd_length acc + length js.
Proof.
  intros Hlen. revert acc. induction js as [|j js IH]; intros acc.
  - exists acc. split; [reflexivity|simpl; lia].
  - cbn [newaxis_loop crossing slice_to bind].
    destruct (np_where _ (take n tps_i)) as [|i0 idx] eqn:Ew.
    + exists acc. split; [reflexivity|simpl; lia].
    + assert (Hi0 : i0 < length tps_i).
      { assert (Hin : i0 ∈ np_where (fun t => refaxis sta j <=! t) (take n tps_i))
          by (rewrite Ew; left).
        apply np_where_lt in Hin. rewrite length_take in Hin. lia. }
      destruct (nd_get_in_range Tpds_ref (Z.of_nat i0)) as [r1 ->]; [lia|].
      destruct (nd_get_in_range Tpds_ref (Z.of_nat i0 - 1)) as [r0 ->]; [lia|].
      destruct (py_get_in_range tps_i (Z.of_nat i0)) as [t1 ->]; [lia|].
      destruct (py_get_in_range tps_i (Z.of_nat i0 - 1)) as [t0 ->]; [lia|].
      cbn [bind].
      destruct (IH (nd_append_scalar acc
                      (sc_add r0 (sc_mul (SFloat (refaxis sta j -! t0))
                                         (sc_div (sc_sub r1 r0) (SFloat (t1 -! t0)))))))
        as (acc' & -> & Hb).
      exists acc'. split; [reflexivity|].
      rewrite nd_length_append_scalar in Hb. simpl in Hb |- *. lia.
Qed.

(** The break: the samples after one whose crossing search is empty are
    not looked at. *)
Lemma newaxis_loop_break sta (Tpds_ref : ndarray F) (tps_i : list F) stop js1 j js2 acc :
  crossing sta tps_i stop j = Ok [] ->
  newaxis_loop sta Tpds_ref tps_i stop (js1 ++ j :: js2) acc
  = newaxis_loop sta Tpds_ref tps_i stop js1 acc.
Proof.
  intros Hj. revert acc. induction js1 as [|a js1 IH]; intros acc.
  - cbn [app newaxis_loop]. rewrite Hj. reflexivity.
  - cbn [app newaxis_loop].
    destruct (crossing sta tps_i stop a) as [[|i0 idx]|]; cbn [bind]; try reflexivity.
    repeat match goal with
           | |- bind ?c _ = bind ?c _ => destruct c; cbn [bind]; [|reflexivity]
           end.
    apply IH.
Qed.

Lemma map_seq_from {B : Type} (f : nat -> B) s n :
  map f (seq s n) = map (fun k => f (s + k)) (seq 0 n).
Proof.
  revert f s. induction n as [|n IH]; intros f s; [reflexivity|].
  cbn [seq map]. rewrite Nat.add_0_r. f_equal.
  rewrite (IH f (S s)), (IH (fun k => f (s + k)) 1).
  apply map_ext. intros k. f_equal. lia.
Qed.

Lemma py_range_split (a j b : Z) :
  (a <= j < b)%Z -> py_range a b = py_range a j ++ j :: py_range (j + 1) b.
Proof.
  intros Hj. unfold py_range.
  replace (Z.to_nat (b - a)) with (Z.to_nat (j - a) + S (Z.to_nat (b - (j + 1)))) by lia.
  rewrite seq_app, map_app. f_equal.
  rewrite (map_seq_from _ (0 + Z.to_nat (j - a))).
  cbn [seq map]. f_equal; [lia|].
  rewrite (map_seq_from _ 1). apply map_ext. intros k. lia.
Qed.

Lemma py_range_length (a b : Z) : length (py_range a b) = Z.to_nat (b - a).
Proof. unfold py_range. rewrite length_map, length_seq. reflexivity. Qed.

(** [interp1d(x, y, bounds_error=False)(q)] returns whenever [x] and [y]
    have the same, non-zero, number of samples. *)
Lemma interp_nan_total (x y q : list F) :
  length x = length y -> 1 <= length x ->
  exists r, interp_nan x y q = Ok r /\ length r = length q.
Proof.
  intros Hlen Hn. unfold interp_nan, interp1d.
  rewrite Hlen, Nat.eqb_refl. cbn [negb].
  rewrite <- Hlen. apply Nat.ltb_ge in Hn. rewrite Hn. cbn [bind].
  unfold interp1d_call. cbn [ip_bounds_error andb].
  eexists. split; [reflexivity|apply length_map].
Qed.

Lemma interp_nan_cx_total (x : list (complex F)) (y q : list F) :
  length x = length y -> 1 <= length x ->
  exists r, interp_nan_cx x y q = Ok r /\ length r = length q.
Proof.
  intros Hlen Hn. unfold interp_nan_cx, interp1d_cx.
  rewrite Hlen, Nat.eqb_refl. cbn [negb].
  rewrite <- Hlen. apply Nat.ltb_ge in Hn. rewrite Hn. cbn [bind].
  unfold interp1d_call_cx. cbn [ic_bounds_error andb].
  eexists. split; [reflexivity|apply length_map].
Qed.

Lemma nd_interp_nan_total (x : ndarray F) (y q : list F) :
  nd_length x = length y -> 1 <= nd_length x ->
  exists r, nd_interp_nan x y q = Ok r /\ nd_length r = length q.
Proof.
  intros Hlen Hn. destruct x as [x|x]; cbn [nd_interp_nan nd_length] in *.
  - destruct (interp_nan_total x y q Hlen Hn) as (r & -> & Hr).
    exists (Float64 r). split; [reflexivity|exact Hr].
  - destruct (interp_nan_cx_total x y q Hlen Hn) as (r & -> & Hr).
    exists (Complex128 r). split; [reflexivity|exact Hr].
Qed.

End NewaxisLoopFacts.

(** C6.  Take an event of a station whose pre-event samples fit before the
    first mapped sample, with a reference curve as long as the event's and
    a trace of the station's length.  If at some output sample [j] the
    search for the crossing is empty, the loop stops there: the new time
    axis is the one built from the samples before [j], nothing is raised,
    and the event still gets its corrected row, of the trace length -- so
    the loop over the events goes on to the next event. *)
Theorem C6_empty_crossing_truncates_mapping
    {F : Type} `{NumericLaws F} (sta : RFStation F) (n_depths : nat)
    (Tpds_ref : ndarray F) (TempTpds : list F) (data : list (list F)) (i : nat)
    (data_i pre : list F) (j0 j : Z) :
  np_arange (fopp (shift sta)) fzero (sampling sta) = Ok pre ->
  ftrunc (shift sta /! sampling sta +! fone) = Some j0 ->
  (Z.of_nat (length pre) <= j0)%Z ->
  length TempTpds <= nd_length Tpds_ref ->
  data !! i = Some data_i ->
  length data_i = rflength sta ->
  (j0 <= j < Z.of_nat (rflength sta))%Z ->
  np_where (fun t => refaxis sta j <=! t) (take n_depths TempTpds) = [] ->
  exists Newaxis row,
    newaxis_loop sta Tpds_ref TempTpds (StopLen n_depths)
      (py_range j0 (Z.of_nat (rflength sta))) (Float64 (pre ++ [fzero]))
    = Ok Newaxis
    /\ newaxis_loop sta Tpds_ref TempTpds (StopLen n_depths)
         (py_range j0 j) (Float64 (pre ++ [fzero])) = Ok Newaxis
    /\ nd_length Newaxis <= length pre + 1 + Z.to_nat (j - j0)
    /\ moveout_event sta n_depths Tpds_ref TempTpds data i
       = Ok (row, (Z.of_nat n_depths - 1)%Z)
    /\ length row = rflength sta.
Proof.
  intros Hpre Hj0 Hfit Href Hrow Hdata Hj Hempty.
  destruct (newaxis_loop_total sta Tpds_ref TempTpds n_depths (py_range j0 j)
              (Float64 (pre ++ [fzero])) Href) as (Newaxis & Hloop & Hlo & Hhi).
  cbn [nd_length] in Hlo, Hhi.
  rewrite length_app in Hlo. rewrite length_app, py_range_length in Hhi.
  cbn [length] in Hlo, Hhi.
  assert (Hfull : newaxis_loop sta Tpds_ref TempTpds (StopLen n_depths)
                    (py_range j0 (Z.of_nat (rflength sta)))
                    (Float64 (pre ++ [fzero]))
                  = Ok Newaxis).
  { rewrite (py_range_split j0 j) by exact Hj.
    rewrite newaxis_loop_break; [exact Hloop|].
    unfold crossing. cbn [slice_to bind]. rewrite Hempty. reflexivity. }
  destruct (nd_interp_nan_total Newaxis (take (nd_length Newaxis) data_i)
              (x_new_axis sta))
    as (Tempdata & Hitp & _).
  { rewrite length_take. lia. }
  { lia. }
  eexists Newaxis, _. split; [exact Hfull|]. split; [exact Hloop|].
  split; [lia|].
  split; [|rewrite nd_real_length; apply nd_fit_length_length].
  unfold moveout_event. rewrite np_where_imag_real.
  cbn [stop_minus_one bind]. rewrite Hpre. cbn [bind]. rewrite Hj0. cbn [bind].
  rewrite Hfull. cbn [bind]. rewrite (get_row_Some _ _ _ Hrow). cbn [bind].
  rewrite Hitp. cbn [bind].
  unfold assign_row. rewrite nd_real_length, nd_fit_length_length, Nat.eqb_refl.
  reflexivity.
Qed.

Lemma C6_empty_crossing_witness :
  exists Newaxis row,
    newaxis_loop Fixtures.station2 (Float64 [0; 0.5; 1; 1.5]%float)
      [0; 0.25; 0.5; 0.75]%float
      (StopLen 4) (py_range 3 (Z.of_nat (rflength Fixtures.station2)))
      (Float64 ([-1; -0.5]%float ++ [fzero])) = Ok Newaxis
    /\ newaxis_loop Fixtures.station2 (Float64 [0; 0.5; 1; 1.5]%float)
         [0; 0.25; 0.5; 0.75]%float
         (StopLen 4) (py_range 3 4) (Float64 ([-1; -0.5]%float ++ [fzero]))
       = Ok Newaxis
    /\ nd_length Newaxis <= length [-1; -0.5]%float + 1 + Z.to_nat (4 - 3)
    /\ moveout_event Fixtures.station2 4 (Float64 [0; 0.5; 1; 1.5]%float)
         [0; 0.25; 0.5; 0.75]%float
         [[1; 2; 3; 4; 5; 6; 7; 8]; [10; 20; 30; 40; 50; 60; 70; 80]]%float 0
       = Ok (row, (Z.of_nat 4 - 1)%Z)
    /\ length row = rflength Fixtures.station2.
Proof.
  apply (C6_empty_crossing_truncates_mapping Fixtures.station2 4
           (Float64 [0; 0.5; 1; 1.5]%float) [0; 0.25; 0.5; 0.75]%float
           [[1; 2; 3; 4; 5; 6; 7; 8]; [10; 20; 30; 40; 50; 60; 70; 80]]%float 0
           [1; 2; 3; 4; 5; 6; 7; 8]%float [-1; -0.5]%float 3 4).
  - vm_compute; reflexivity.
  - vm_compute; reflexivity.
  - cbn; lia.
  - cbn; lia.
  - reflexivity.
  - reflexivity.
  - cbn; lia.
  - vm_compute; reflexivity.
Defined.

(** The two events of the fixture: the crossing search of the first is
    empty at sample 4, its mapping is cut there (the row keeps the original
    samples 5 to 7 and one zero), and the second event is corrected after
    it. *)
Example moveoutcorrect_ref_truncated_event :
  crossing Fixtures.station2 [0; 0.25; 0.5; 0.75]%float (StopLen 4) 4 = Ok []
  /\ moveoutcorrect_ref Fixtures.line_model Fixtures.station2 0.5%float
       Fixtures.grid4 "r" "iasp91" true
     = Ok ([[2; 3; 3.5; 4; 6; 7; 8; 0]; [20; 30; 50; 70; 0; 0; 0; 0]]%float,
           [3%Z; 3%Z]).
Proof. split; vm_compute; reflexivity. Qed.

(** ** A non-zero elevation in exact arithmetic (C2) *)

Lemma insert_by_x_length {F : Type} `{Numeric F} (p : F * F) l :
  length (insert_by_x p l) = S (length l).
Proof.
  induction l as [|q l IH]; [reflexivity|]. simpl.
  destruct (np_lt (fst q) (fst p)); simpl; [rewrite IH|]; reflexivity.
Qed.

Lemma sort_by_x_length {F : Type} `{Numeric F} (l : list (F * F)) :
  length (sort_by_x l) = length l.
Proof.
  unfold sort_by_x. induction l as [|p l IH]; [reflexivity|].
  cbn [foldr]. rewrite insert_by_x_length, IH. reflexivity.
Qed.

Module ExactElevation.
Local Open Scope R_scope.

Lemma list_max_exists (ds : list R) :
  ds <> [] -> exists M, In M ds /\ forall d, In d ds -> d <= M.
Proof.
  induction ds as [|a ds IH]; [congruence|]. intros _.
  destruct ds as [|b ds].
  - exists a. split; [left; reflexivity|]. intros d [<-|[]]. lra.
  - destruct IH as (M & HM & Hle); [congruence|].
    destruct (Rle_dec a M).
    + exists M. split; [right; exact HM|]. intros d [<-|Hd]; [assumption|auto].
    + exists a. split; [left; reflexivity|].
      intros d [<-|Hd]; [lra|]. specialize (Hle d Hd). lra.
Qed.

Lemma list_min_exists (ds : list R) :
  ds <> [] -> exists m, In m ds /\ forall d, In d ds -> m <= d.
Proof.
  induction ds as [|a ds IH]; [congruence|]. intros _.
  destruct ds as [|b ds].
  - exists a. split; [left; reflexivity|]. intros d [<-|[]]. lra.
  - destruct IH as (M & HM & Hle); [congruence|].
    destruct (Rle_dec M a).
    + exists M. split; [right; exact HM|]. intros d [<-|Hd]; [assumption|auto].
    + exists a. split; [left; reflexivity|].
      intros d [<-|Hd]; [lra|]. specialize (Hle d Hd). lra.
Qed.

(** The samples of the interpolant built on the shifted grid are shifted
    depths, in whatever order the sort leaves them. *)
Lemma shifted_samples (ds : list R) (e : R) (ys : list xreal) :
  Forall (fun x => exists d, In d ds /\ x = XReal (d - e))
    (map fst (sort_by_x (zip (map (fun d => d -! XReal e) (map XReal ds)) ys))).
Proof.
  rewrite Forall_fmap. apply sort_by_x_Forall.
  rewrite Forall_forall. intros [x y] Hin.
  apply elem_of_zip_l in Hin. cbn [fst] in Hin.
  rewrite <- list_fmap_compose in Hin.
  apply list_elem_of_fmap in Hin as (d & -> & Hd).
  exists d. split; [apply list_elem_of_In; exact Hd|reflexivity].
Qed.

(** The interpolant built on the shifted grid refuses the caller's grid:
    its deepest depth lies above the shifted range when the elevation is
    positive, its shallowest below when the elevation is negative. *)
Lemma interp_strict_shifted_grid (ds : list R) (e : R) (ys : list xreal) :
  e <> 0 -> ds <> [] ->
  is_ok (interp_strict (map (fun d => d -! XReal e) (map XReal ds)) ys (map XReal ds))
  = false.
Proof.
  intros He Hds. unfold interp_strict, interp1d.
  destruct (_ =? _)%nat eqn:Hxy; [|reflexivity]. cbn [negb].
  destruct (_ <? 1)%nat eqn:Hn; [reflexivity|]. cbn [bind].
  apply Nat.eqb_eq in Hxy.
  apply Nat.ltb_ge in Hn.
  pose proof (shifted_samples ds e ys) as Hxs.
  set (s := sort_by_x _) in *.
  assert (Hlen : (1 <= length (map fst s))%nat).
  { subst s. rewrite length_map, sort_by_x_length, length_zip_with. lia. }
  set (o := {| ip_x := map fst s; ip_y := map snd s;
               ip_bounds_error := true; ip_fill := (fnan, fnan) |}).
  destruct (Rtotal_order e 0) as [Hneg|[H0|Hpos]]; [|contradiction|].
  - destruct (list_min_exists ds Hds) as (m & Hm & Hle).
    assert (Hblw : existsb (below_bounds o) (map XReal ds) = true).
    { apply existsb_exists. exists (XReal m). split; [apply in_map; exact Hm|].
      unfold below_bounds, py_nth, py_get. cbn [o ip_x Z.ltb Z.compare].
      destruct (map fst s) as [|x0 xs] eqn:Es; [simpl in Hlen; lia|].
      change (XR.ltb (XReal m) x0 = true).
      apply Forall_cons in Hxs as [(d & Hd & ->) _].
      specialize (Hle d Hd). unfold XR.ltb.
      destruct (Rlt_dec m (d - e)); [reflexivity|lra]. }
    unfold interp1d_call. rewrite Hblw. reflexivity.
  - destruct (list_max_exists ds Hds) as (M & HM & Hle).
    assert (Habv : existsb (above_bounds o) (map XReal ds) = true).
    { apply existsb_exists. exists (XReal M). split; [apply in_map; exact HM|].
      unfold above_bounds, py_nth. cbn [o ip_x]. rewrite py_get_last.
      destruct (last (map fst s)) as [xl|] eqn:El.
      - apply last_Some_elem_of in El.
        rewrite Forall_forall in Hxs. destruct (Hxs xl El) as (d & Hd & ->).
        specialize (Hle d Hd). change (XR.ltb (XReal (d - e)) (XReal M) = true).
        unfold XR.ltb. destruct (Rlt_dec (d - e) M); [reflexivity|lra].
      - apply last_None in El. rewrite El in Hlen. simpl in Hlen. lia. }
    unfold interp1d_call. rewrite Habv. clear Habv.
    destruct (existsb (below_bounds o) _); reflexivity.
Qed.

(** No event gets through its pass of the loop. *)
Lemma raytracing_event_shifted_grid (geo : Geo xreal) (mod3d : Mod3DPerturbation xreal)
    (sta : RFStation xreal) (srayp : srayp_arg xreal) (ds : list R) (e : R)
    (Rs : list xreal) (ddepth : xreal) (i : nat) :
  e <> 0 -> ds <> [] ->
  is_ok (raytracing_event geo mod3d sta srayp
           (map (fun d => d -! XReal e) (map XReal ds)) (map XReal ds)
           Rs ddepth (XReal e) i) = false.
Proof.
  intros He Hds. unfold raytracing_event.
  assert (Hz : (XReal e ==! fzero) = false).
  { cbn. unfold XR.eqb. destruct (Req_dec_T e 0); [contradiction|reflexivity]. }
  rewrite Hz. cbn [negb].
  repeat match goal with
         | |- is_ok (bind (bind (interp_strict _ _ _) _) _) = false => fail 1
         | |- is_ok (bind ?c _) = false => destruct c; cbn [bind]; [|reflexivity]
         end.
  match goal with
  | |- context [interp_strict ?x ?y ?q] =>
      pose proof (interp_strict_shifted_grid ds e y He Hds) as Hi;
      destruct (interp_strict x y q); [discriminate Hi|reflexivity]
  end.
Qed.

(** In exact arithmetic the ray tracer returns for no elevation other than
    zero: whatever the depth grid, the station (with an event), the
    velocity model and the ray-parameter argument, it raises, having
    shifted the caller's grid. *)
Lemma nonzero_elevation_never_returns (geo : Geo xreal)
    (mod3d : Mod3DPerturbation xreal) (sta : RFStation xreal) (y : loc)
    (srayp : srayp_arg xreal) (e : R) (sphere : bool) (h : heap xreal)
    (ds : list R) :
  e <> 0 -> ds <> [] -> (1 <= ev_num sta)%nat ->
  h !! y = Some (map XReal ds) ->
  let out := psrf_3D_raytracing geo mod3d sta y srayp (XReal e) sphere h in
  is_ok (snd out) = false
  /\ fst out !! y = Some (map (fun d => XReal (d - e)) ds).
Proof.
  intros He Hds Hev Hh. cbv zeta. unfold psrf_3D_raytracing. rewrite Hh.
  cbn [fst snd]. rewrite lookup_alter_eq, Hh. cbn [fmap option_fmap option_map].
  split.
  - unfold raytracing_body.
    destruct srayp; cbn [bind]; try reflexivity.
    all: destruct (ev_num sta) as [|k]; [lia|]; cbn [seq mapM].
    all: match goal with
         | |- context [raytracing_event ?g ?m ?s ?p _ _ ?R ?dd _ ?i] =>
             pose proof (raytracing_event_shifted_grid g m s p ds e R dd i He Hds) as Hi;
             destruct (raytracing_event g m s p _ _ R dd _ i);
               [discriminate Hi|reflexivity]
         end.
  - rewrite <- list_fmap_compose. reflexivity.
Qed.

(** A station 1 km above sea level over the grid [0, 10]. *)
Example raised_station_never_returns :
  is_ok (snd (psrf_3D_raytracing ExactGeo.geo ExactGeo.uniform_mod3d
                ExactGeo.vertical_station 1%positive SraypNone (XReal 1) true
                {[ 1%positive := ExactGeo.grid2 ]})) = false.
Proof.
  apply (nonzero_elevation_never_returns ExactGeo.geo ExactGeo.uniform_mod3d
           ExactGeo.vertical_station 1%positive SraypNone 1 true
           {[ 1%positive := ExactGeo.grid2 ]} [0; 10]).
  - lra.
  - discriminate.
  - cbn. lia.
  - apply lookup_singleton_eq.
Qed.

End ExactElevation.

(** * Further properties of the module *)

(** ** Loops over the events, continued *)

Lemma mapM_Ok_all {A B : Type} (f : A -> result B) (P : B -> Prop) l bs :
  mapM f l = Ok bs -> (forall a b, a ∈ l -> f a = Ok b -> P b) -> Forall P bs.
Proof.
  intros Hm Hf. apply mapM_Ok_inv in Hm.
  induction Hm as [|a b l bs Hab _ IH]; constructor.
  - apply (Hf a b); [left|exact Hab].
  - apply IH. intros a' b' Ha'. apply Hf. right. exact Ha'.
Qed.

(** ** Shape and end index of the depth conversion *)

Section Time2DepthShape.
Context {F : Type} `{NumericLaws F}.

Lemma assign_row_length w (row r : list F) : assign_row w row = Ok r -> length r = w.
Proof. intros Hr. apply assign_row_Ok in Hr. apply Hr. Qed.

Lemma depth_row_length (Y D amps row : list F) :
  depth_row Y D amps = Ok row -> length row = length Y.
Proof.
  unfold depth_row. destruct (np_where _ D) as [|k ks].
  - intros [= <-]. apply length_replicate.
  - destruct (_ <? _)%nat.
    + intros [= <-]. apply length_replicate.
    + intros Hr.
      repeat match type of Hr with
             | bind ?c _ = _ => destruct c; [|discriminate]; cbn [bind] in Hr
             end.
      eapply assign_row_length, Hr.
Qed.

Lemma time2depth_event_Ok (sta : RFStation F) Y Tpds i row e :
  time2depth_event sta Y Tpds i = Ok (row, e) ->
  length row = length Y /\ e = (Z.of_nat (length Y) - 1)%Z.
Proof.
  unfold time2depth_event. intros Hev.
  destruct (get_row Tpds i) as [T|]; [|discriminate]. cbn [bind] in Hev.
  rewrite depth_axis_whole in Hev.
  destruct (interp_nan T Y (time_axis sta)) as [D|]; [|discriminate].
  cbn [bind] in Hev.
  destruct (prime_data sta); [|discriminate]. cbn [bind] in Hev.
  match type of Hev with bind ?c _ = _ => destruct c; [|discriminate] end.
  cbn [bind snd fst] in Hev.
  destruct (depth_row Y D _) as [r|] eqn:Hr; [|discriminate].
  cbn [bind] in Hev. injection Hev as <- <-.
  split; [eapply depth_row_length, Hr|reflexivity].
Qed.

(** The rows of a conversion that returns: one per event, each with a
    value per depth and the grid's last index as its end index. *)
Lemma time2depth_Ok_rows (stadatar : RFStation F) Y Tpds norm P E :
  time2depth stadatar Y Tpds norm = Ok (P, E) ->
  exists rows : list (list F * Z),
    P = map fst rows /\ E = map snd rows
    /\ length rows = ev_num stadatar
    /\ Forall (fun r => length (fst r) = length Y
                         /\ snd r = (Z.of_nat (length Y) - 1)%Z) rows.
Proof.
  unfold time2depth. intros Ht.
  match type of Ht with bind ?c _ = _ => destruct c as [sta|] eqn:Hs; [|discriminate] end.
  cbn [bind] in Ht.
  match type of Ht with bind ?c _ = _ => destruct c as [rows|] eqn:Hr; [|discriminate] end.
  cbn [bind] in Ht. injection Ht as <- <-.
  assert (Hev : ev_num sta = ev_num stadatar).
  { destruct norm as [m|]; [|injection Hs as <-; reflexivity].
    destruct (String.eqb m ""); [injection Hs as <-; reflexivity|].
    eapply normalize_fields, Hs. }
  pose proof (mapM_seq_length _ _ _ Hr) as Hlen. rewrite Hev in Hlen.
  exists rows. repeat split; try exact Hlen.
  eapply mapM_Ok_all; [exact Hr|]. intros i [row e] _ Hi.
  eapply time2depth_event_Ok, Hi.
Qed.

End Time2DepthShape.

(** X1.  When [time2depth] returns, the depth profile has one row per
    event, every row has one value per depth of the grid, and the end index
    of every event is the last index of the grid: a float64 travel-time
    array never shows a turning point to the search. *)
Theorem X1_time2depth_shape_and_end_index
    {F : Type} `{NumericLaws F} (stadatar : RFStation F) (Y : list F)
    (Tpds : list (list F)) (norm : option string)
    (P : list (list F)) (E : list Z) :
  time2depth stadatar Y Tpds norm = Ok (P, E) ->
  shape (ev_num stadatar) (length Y) P
  /\ length E = ev_num stadatar
  /\ Forall (fun e => e = (Z.of_nat (length Y) - 1)%Z) E.
Proof.
  intros Ht.
  destruct (time2depth_Ok_rows _ _ _ _ _ _ Ht) as (rows & -> & -> & Hlen & Hall).
  unfold shape. rewrite !length_map. repeat split; try exact Hlen.
  - apply Forall_map. eapply Forall_impl; [exact Hall|]. intros r Hrw. apply Hrw.
  - apply Forall_map. eapply Forall_impl; [exact Hall|]. intros r Hrw. apply Hrw.
Qed.

Lemma X1_time2depth_witness :
  shape (ev_num Fixtures.station1) (length Fixtures.grid4)
    [[0.375; 0.625; 0.875; nan]%float]
  /\ length [3%Z] = ev_num Fixtures.station1
  /\ Forall (fun e => e = (Z.of_nat (length Fixtures.grid4) - 1)%Z) [3%Z].
Proof.
  apply (X1_time2depth_shape_and_end_index Fixtures.station1 Fixtures.grid4
           [[0; 1; 2; 3]%float] (Some "single"%string)
           [[0.375; 0.625; 0.875; nan]%float] [3%Z]).
  vm_compute. reflexivity.
Defined.

(** ** End index of the moveout correction *)

Lemma moveout_event_end_index {F : Type} `{NumericLaws F}
    (sta : RFStation F) n_depths Tpds_ref TempTpds data i row e :
  moveout_event sta n_depths Tpds_ref TempTpds data i = Ok (row, e) ->
  e = (Z.of_nat n_depths - 1)%Z.
Proof.
  unfold moveout_event. rewrite np_where_imag_real. cbn [stop_minus_one bind].
  intros Hev.
  repeat match type of Hev with
         | bind ?c _ = _ => destruct c; [|discriminate]; cbn [bind] in Hev
         end.
  injection Hev as _ <-. reflexivity.
Qed.

(** X2.  When [moveoutcorrect_ref] returns, the end index it reports is,
    for every event, the last index of the velocity model's depths: the
    travel times are stored in a float64 array before the search for the
    turning point, which therefore finds none. *)
Theorem X2_moveoutcorrect_ref_end_index
    {F : Type} `{NumericLaws F}
    (DepModel_init : list F -> string -> F -> result (DepModel F))
    (sta : RFStation F) (raypref : F) (Y : list F) (chan velmod : string)
    (sphere : bool) (Newdatar : list (list F)) (EndIndex : list Z) :
  moveoutcorrect_ref DepModel_init sta raypref Y chan velmod sphere
  = Ok (Newdatar, EndIndex) ->
  exists dep_mod,
    DepModel_init Y velmod (stel sta) = Ok dep_mod
    /\ length EndIndex = ev_num sta
    /\ Forall (fun e => e = (Z.of_nat (length (depths dep_mod)) - 1)%Z) EndIndex.
Proof.
  unfold moveoutcorrect_ref. intros Hm.
  destruct (select_chan sta chan) as [data|]; [|discriminate]. cbn [bind] in Hm.
  destruct (DepModel_init Y velmod (stel sta)) as [dep_mod|]; [|discriminate].
  cbn [bind] in Hm.
  match type of Hm with bind ?c _ = _ => destruct c as [tps_rows|]; [|discriminate] end.
  cbn [bind] in Hm.
  match type of Hm with bind ?c _ = _ => destruct c as [ref|]; [|discriminate] end.
  cbn [bind] in Hm.
  match type of Hm with bind ?c _ = _ => destruct c as [rows|] eqn:Hr; [|discriminate] end.
  cbn [bind] in Hm. injection Hm as <- <-.
  exists dep_mod. split; [reflexivity|]. rewrite length_map.
  split; [eapply mapM_seq_length, Hr|].
  apply Forall_map. eapply mapM_Ok_all; [exact Hr|].
  intros i [row e] _ Hi. cbn [snd].
  destruct (get_row tps_rows i); [|discriminate]. cbn [bind] in Hi.
  eapply moveout_event_end_index, Hi.
Qed.

Lemma X2_moveoutcorrect_ref_witness :
  exists dep_mod,
    Fixtures.line_model Fixtures.grid4 "iasp91" (stel Fixtures.station2) = Ok dep_mod
    /\ length [3%Z; 3%Z] = ev_num Fixtures.station2
    /\ Forall (fun e => e = (Z.of_nat (length (depths dep_mod)) - 1)%Z) [3%Z; 3%Z].
Proof.
  apply (X2_moveoutcorrect_ref_end_index Fixtures.line_model Fixtures.station2
           0.5%float Fixtures.grid4 "r" "iasp91" true
           [[2; 3; 3.5; 4; 6; 7; 8; 0]; [20; 30; 50; 70; 0; 0; 0; 0]]%float
           [3%Z; 3%Z]).
  vm_compute. reflexivity.
Defined.

(** ** Where the 3-D ray tracer starts *)

Section RayTracer3DShape.
Context {F : Type} `{Numeric F}.
Variable geo : Geo F.
Variable mod3d : Mod3DPerturbation F.

Lemma trace_event_legs sta grid dd rp baz :
  1 <= length grid ->
  length (et_legs (trace_event geo mod3d sta grid dd rp baz)) = length grid
  /\ et_legs (trace_event geo mod3d sta grid dd rp baz) !! 0
     = Some {| x_s := fzero; x_p := fzero;
               lat_s := stla sta; lon_s := stlo sta;
               lat_p := stla sta; lon_p := stlo sta |}.
Proof.
  intros Hn. unfold trace_event. cbn [et_legs length].
  rewrite length_map, trace_steps_length, length_take.
  split; [lia|reflexivity].
Qed.

Lemma raytracing_event_shape sta srayp grid dep_range R ddepth elevation i tr tps_i :
  raytracing_event geo mod3d sta srayp grid dep_range R ddepth elevation i = Ok (tr, tps_i) ->
  length tps_i = length grid
  /\ length (et_legs tr) = length grid
  /\ exists st, et_legs tr !! 0 = Some st
                /\ lat_s st = stla sta /\ lon_s st = stlo sta
                /\ lat_p st = stla sta /\ lon_p st = stlo sta.
Proof.
  intros Hev.
  assert (Htps : length tps_i = length grid).
  { pose proof Hev as Hev'. unfold raytracing_event in Hev'.
    repeat match type of Hev' with
           | bind (if negb _ then _ else _) _ = _ => fail 1
           | bind ?c _ = _ => destruct c; [|discriminate]; cbn [bind] in Hev'
           end.
    cbv zeta in Hev'. destruct (negb _).
    - match type of Hev' with
      | bind (bind ?c _) _ = _ => destruct c; [|discriminate]; cbn [bind] in Hev'
      end.
      match type of Hev' with
      | bind ?c _ = _ => destruct c eqn:Ha; [|discriminate]; cbn [bind] in Hev'
      end.
      injection Hev' as _ <-. apply assign_row_Ok in Ha. apply Ha.
    - cbn [bind] in Hev'. injection Hev' as _ <-. apply length_replicate. }
  destruct (raytracing_event_Ok geo mod3d _ _ _ _ _ _ _ _ _ _ Hev)
    as (p & baz & _ & -> & Hn & _).
  destruct (trace_event_legs sta grid ddepth (srad2skm geo p) baz Hn) as [Hl H0].
  split; [exact Htps|].
  split; [exact Hl|eexists; split; [exact H0|repeat split]].
Qed.

End RayTracer3DShape.

(** X3.  When [psrf_3D_raytracing] returns, each of the five arrays has
    one row per event and one column per depth of the grid, and for every
    event the conversion points of both legs at the first depth sample are
    the station itself. *)
Theorem X3_raytracing_starts_at_station
    {F : Type} `{Numeric F} (geo : Geo F) (mod3d : Mod3DPerturbation F)
    (sta : RFStation F) (y : loc) (srayp : srayp_arg F) (elevation : F)
    (sphere : bool) (h : heap F) (grid : list F) (r : trace3d F) :
  h !! y = Some grid ->
  snd (psrf_3D_raytracing geo mod3d sta y srayp elevation sphere h) = Ok r ->
  (shape (ev_num sta) (length grid) (pplat_s r)
   /\ shape (ev_num sta) (length grid) (pplon_s r)
   /\ shape (ev_num sta) (length grid) (pplat_p r)
   /\ shape (ev_num sta) (length grid) (pplon_p r)
   /\ shape (ev_num sta) (length grid) (tps r))
  /\ forall i, i < ev_num sta ->
       entry (pplat_s r) i 0 = Some (stla sta)
       /\ entry (pplon_s r) i 0 = Some (stlo sta)
       /\ entry (pplat_p r) i 0 = Some (stla sta)
       /\ entry (pplon_p r) i 0 = Some (stlo sta).
Proof.
  intros Hy. unfold psrf_3D_raytracing. rewrite Hy. cbn [snd].
  rewrite lookup_alter_eq, Hy. cbn [fmap option_fmap option_map].
  set (grid' := map (fun d => d -! elevation) grid).
  assert (Hg : length grid' = length grid) by apply length_map.
  unfold raytracing_body. intros Hr.
  match type of Hr with bind ?c _ = _ => destruct c; [|discriminate] end.
  cbn [bind] in Hr.
  match type of Hr with
  | bind (mapM ?f ?l) _ = _ => destruct (mapM f l) as [rows|] eqn:Hm; [|discriminate]
  end.
  cbn [bind] in Hr. injection Hr as <-.
  cbn [pplat_s pplon_s pplat_p pplon_p tps].
  pose proof (mapM_seq_length _ _ _ Hm) as Hlen.
  assert (Hall : Forall (fun rw : event_trace * list F =>
                    length (snd rw) = length grid
                    /\ length (et_legs (fst rw)) = length grid
                    /\ exists st, et_legs (fst rw) !! 0 = Some st
                         /\ lat_s st = stla sta /\ lon_s st = stlo sta
                         /\ lat_p st = stla sta /\ lon_p st = stlo sta) rows).
  { eapply mapM_Ok_all; [exact Hm|]. intros i [tr t] _ Hi. cbn [fst snd].
    rewrite <- Hg. eapply raytracing_event_shape, Hi. }
  assert (Hcoord : forall f : legs F -> F,
             shape (ev_num sta) (length grid)
               (map (fun rw : event_trace * list F => map f (et_legs (fst rw))) rows)).
  { intros f. split; [rewrite length_map; exact Hlen|].
    apply Forall_map. eapply Forall_impl; [exact Hall|].
    intros rw (_ & Hl & _). cbn. rewrite length_map. exact Hl. }
  split.
  - repeat split; try apply Hcoord.
    + rewrite length_map. exact Hlen.
    + apply Forall_map. eapply Forall_impl; [exact Hall|]. intros rw Hrw. apply Hrw.
  - intros i Hi.
    destruct (lookup_lt_is_Some_2 rows i) as [rw Hrw]; [lia|].
    rewrite Forall_forall in Hall.
    destruct (Hall rw (list_elem_of_lookup_2 _ _ _ Hrw))
      as (_ & _ & st & Hst & H1 & H2 & H3 & H4).
    unfold entry. rewrite !list_lookup_fmap, Hrw. cbn.
    rewrite !list_lookup_fmap, Hst. cbn.
    rewrite H1, H2, H3, H4. repeat split.
Qed.

Lemma X3_raytracing_witness :
  let r := {| pplat_s := [[10; 10.0000762939453125; 10.000152587890625]];
              pplon_s := [[20; 20; 20]];
              pplat_p := [[10; 10.000152587890625; 10.00030517578125]];
              pplon_p := [[20; 20; 20]];
              tps := [[0; 0; 0]] |}%float in
  (shape (ev_num Fixtures.station1) (length Fixtures.grid3) (pplat_s r)
   /\ shape (ev_num Fixtures.station1) (length Fixtures.grid3) (pplon_s r)
   /\ shape (ev_num Fixtures.station1) (length Fixtures.grid3) (pplat_p r)
   /\ shape (ev_num Fixtures.station1) (length Fixtures.grid3) (pplon_p r)
   /\ shape (ev_num Fixtures.station1) (length Fixtures.grid3) (tps r))
  /\ forall i, i < ev_num Fixtures.station1 ->
       entry (pplat_s r) i 0 = Some (stla Fixtures.station1)
       /\ entry (pplon_s r) i 0 = Some (stlo Fixtures.station1)
       /\ entry (pplat_p r) i 0 = Some (stla Fixtures.station1)
       /\ entry (pplon_p r) i 0 = Some (stlo Fixtures.station1).
Proof.
  intros r.
  apply (X3_raytracing_starts_at_station Fixtures.small_angle_geo
           Fixtures.uniform_mod3d Fixtures.station1 1%positive SraypNone
           0%float true Fixtures.store1 Fixtures.grid3 r);
    vm_compute; reflexivity.
Defined.

(** ** Zero, continued *)

Module Float64Zero.

Lemma sub_zero_r x : (x - 0 = x)%float.
Proof.
  apply Prim2SF_inj. rewrite sub_spec.
  destruct (Prim2SF x) as [s|s| |s m e] eqn:E.
  - destruct s; reflexivity.
  - destruct s; reflexivity.
  - reflexivity.
  - reflexivity.
Qed.

End Float64Zero.

#[export] Instance float_ZeroLaws : ZeroLaws float.
Proof.
  split.
  - reflexivity.
  - exact Float64Zero.sub_zero_r.
Qed.

#[export] Instance xreal_ZeroLaws : ZeroLaws xreal.
Proof.
  split.
  - cbn. unfold XR.eqb. destruct (Req_dec_T 0 0); [reflexivity|contradiction].
  - intros [r|]; cbn; [f_equal; lra|reflexivity].
Qed.

(** X4.  [RFStation.psrf_3D_raytracing] calls the ray tracer without an
    elevation: whatever the station's elevation [stel] is, on a
    well-formed station and a non-empty grid the call returns, every row
    of the travel times it returns is zero, and the caller's depth grid
    holds after the call the values it held before. *)
Theorem X4_method_raytracing_returns_zero_times
    {F : Type} `{Numeric F} `{!ZeroLaws F} (geo : Geo F)
    (Mod3DPerturbation_init : string -> list F -> result (Mod3DPerturbation F))
    (self : RFStation F) (mod3dpath : string) (dep_range : loc)
    (srayp : srayp_arg F) (h : heap F) (grid : list F)
    (mod3d : Mod3DPerturbation F) :
  h !! dep_range = Some grid ->
  1 <= length grid ->
  (forall i, i < ev_num self -> event_fields self i) ->
  srayp_usable srayp ->
  Mod3DPerturbation_init mod3dpath grid = Ok mod3d ->
  let out := RFStation_psrf_3D_raytracing geo Mod3DPerturbation_init self
               mod3dpath dep_range srayp h in
  (exists lat lon,
      snd out = Ok (lat, lon, replicate (ev_num self) (np_zeros (length grid))))
  /\ fst out !! dep_range = Some grid.
Proof.
  intros Hy Hn Hsta Hsr Hmod. cbv zeta.
  unfold RFStation_psrf_3D_raytracing. rewrite Hy, Hmod. cbn [fst snd].
  split.
  - destruct (zero_elevation_leaves_tps_zero geo mod3d self dep_range srayp fzero
                true h grid Hy Hn Hsta Hsr feqb_zero_refl) as (r & Hr & Ht).
    rewrite Hr. cbn [bind]. rewrite Ht. eauto.
  - unfold psrf_3D_raytracing. rewrite Hy. cbn [fst].
    rewrite lookup_alter_eq, Hy. cbn [fmap option_fmap option_map].
    f_equal. rewrite <- (map_id grid) at 2. apply map_ext.
    intros d. apply fsub_zero_r.
Qed.

Lemma X4_method_raytracing_witness :
  let out := RFStation_psrf_3D_raytracing Fixtures.small_angle_geo
               CallerFixtures.uniform_at Fixtures.station1 "mod3d.npz"
               1%positive SraypNone Fixtures.store1 in
  (exists lat lon,
      snd out = Ok (lat, lon, replicate (ev_num Fixtures.station1)
                                (np_zeros (length Fixtures.grid3))))
  /\ fst out !! 1%positive = Some Fixtures.grid3.
Proof.
  apply (X4_method_raytracing_returns_zero_times Fixtures.small_angle_geo
           CallerFixtures.uniform_at Fixtures.station1 "mod3d.npz" 1%positive
           SraypNone Fixtures.store1 Fixtures.grid3 Fixtures.uniform_mod3d).
  - reflexivity.
  - cbn. lia.
  - intros i Hi. assert (i = 0) as -> by (cbn in Hi; lia).
    repeat split; eexists; reflexivity.
  - exact I.
  - reflexivity.
Defined.

(** ** [psrf2depth] and [psrf_1D_raytracing] *)

Section CallerFacts.
Context {F : Type} `{NumericLaws F}.
Variable geo : Geo F.
Variable path_exists : string -> bool.
Variable DepModel_init : list F -> string -> F -> result (DepModel F).
Variable np_load : string -> result (VelocityGrid F).
Variable set_velocities : DepModel F -> list F -> list F -> DepModel F.
Variable rad2deg : list (complex F) -> list (complex F).
Variable latlon_from_arr :
  F -> F -> F -> list (complex F) -> result (list (complex F) * list (complex F)).

Lemma psrf2depth_event_Ok dep_mod sta srayp w sphere i t xs xp :
  psrf2depth_event geo dep_mod sta srayp w sphere i = Ok (t, xs, xp) ->
  length t = w /\ length xs = w /\ length xp = w.
Proof.
  unfold psrf2depth_event. intros Hev.
  destruct (map_event _ _ _ _ _ _ _) as [m|]; [|discriminate]. cbn [bind] in Hev.
  repeat match type of Hev with
         | bind (assign_row ?w ?r) _ = _ =>
             let E := fresh "E" in
             destruct (assign_row w r) eqn:E; [|discriminate];
             apply assign_row_length in E; cbn [bind] in Hev
         end.
  injection Hev as <- <- <-. auto.
Qed.

Lemma raytracing1d_event_Ok dep_mod sta srayp w sphere i o1 o2 o3 o4 o5 o6 o7 :
  raytracing1d_event geo rad2deg latlon_from_arr dep_mod sta srayp w sphere i
  = Ok (o1, o2, o3, o4, o5, o6, o7) ->
  length o1 = w /\ length o2 = w /\ length o3 = w /\ length o4 = w
  /\ length o5 = w /\ length o6 = w /\ length o7 = w.
Proof.
  unfold raytracing1d_event. intros Hev.
  destruct (map_event _ _ _ _ _ _ _) as [m|]; [|discriminate]. cbn [bind] in Hev.
  destruct (xt_raylength m) as [[rs rp]|]; [|discriminate].
  repeat match type of Hev with
         | bind (assign_row ?w ?r) _ = _ =>
             let E := fresh "E" in
             destruct (assign_row w r) eqn:E; [|discriminate];
             apply assign_row_length in E; cbn [bind] in Hev
         | bind ?c _ = _ => destruct c; [|discriminate]; cbn [bind] in Hev
         end.
  injection Hev as <- <- <- <- <- <- <-. repeat split; assumption.
Qed.

(** The rows [psrf_1D_raytracing] has stored when it returns. *)
Lemma psrf_1D_raytracing_Ok sta Y velmod srayp sphere r :
  psrf_1D_raytracing geo DepModel_init rad2deg latlon_from_arr sta Y velmod srayp sphere
  = Ok r ->
  shape (ev_num sta) (length Y) (t1_pplat_s r)
  /\ shape (ev_num sta) (length Y) (t1_pplon_s r)
  /\ shape (ev_num sta) (length Y) (t1_pplat_p r)
  /\ shape (ev_num sta) (length Y) (t1_pplon_p r)
  /\ shape (ev_num sta) (length Y) (t1_raylength_s r)
  /\ shape (ev_num sta) (length Y) (t1_raylength_p r)
  /\ shape (ev_num sta) (length Y) (t1_tps r).
Proof.
  unfold psrf_1D_raytracing. intros Hp.
  destruct (DepModel_init Y velmod (stel sta)) as [dep_mod|]; [|discriminate].
  cbn [bind] in Hp.
  destruct (check_srayp srayp); [|discriminate]. cbn [bind] in Hp.
  match type of Hp with
  | bind (mapM ?f ?l) _ = _ => destruct (mapM f l) as [rows|] eqn:Hm; [|discriminate]
  end.
  cbn [bind] in Hp. injection Hp as <-.
  cbn [t1_pplat_s t1_pplon_s t1_pplat_p t1_pplon_p t1_raylength_s t1_raylength_p t1_tps].
  pose proof (mapM_seq_length _ _ _ Hm) as Hrows.
  assert (Hw : Forall (fun rw : list F * list F * list F * list F * list F * list F * list F =>
                         length rw.1.1.1.1.1.1 = length Y
                         /\ length rw.1.1.1.1.1.2 = length Y
                         /\ length rw.1.1.1.1.2 = length Y
                         /\ length rw.1.1.1.2 = length Y
                         /\ length rw.1.1.2 = length Y
                         /\ length rw.1.2 = length Y
                         /\ length rw.2 = length Y) rows).
  { eapply mapM_Ok_all; [exact Hm|].
    intros i [[[[[[o1 o2] o3] o4] o5] o6] o7] _ Hi. cbn [fst snd].
    eapply raytracing1d_event_Ok, Hi. }
  unfold shape. rewrite !length_map.
  repeat split; try assumption;
    apply Forall_map; (eapply Forall_impl; [exact Hw|]);
    intros rw Hrw; cbv beta in Hrw |- *;
    destruct Hrw as (? & ? & ? & ? & ? & ? & ?); assumption.
Qed.

End CallerFacts.

(** X5.  When [psrf2depth] returns, the depth profile has one row per
    event with one value per depth of the velocity model, the offsets of
    both phases have one row per event with one value per depth of the
    grid passed in, and the end index of every event is the last index of
    the model's depths. *)
Theorem X5_psrf2depth_shapes_and_end_index
    {F : Type} `{NumericLaws F} (geo : Geo F) (path_exists : string -> bool)
    (DepModel_init : list F -> string -> F -> result (DepModel F))
    (np_load : string -> result (VelocityGrid F))
    (set_velocities : DepModel F -> list F -> list F -> DepModel F)
    (stadatar : RFStation F) (Y : list F) (velmod : string)
    (srayp : srayp_arg F) (norm : option string) (sphere : bool)
    (P : list (list F)) (E : list Z) (xs xp : list (list F)) :
  psrf2depth geo path_exists DepModel_init np_load set_velocities
    stadatar Y velmod srayp norm sphere = Ok (P, E, xs, xp) ->
  exists dep_mod,
    velocity_model path_exists DepModel_init np_load set_velocities stadatar Y velmod
    = Ok dep_mod
    /\ shape (ev_num stadatar) (length (depths dep_mod)) P
    /\ length E = ev_num stadatar
    /\ Forall (fun e => e = (Z.of_nat (length (depths dep_mod)) - 1)%Z) E
    /\ shape (ev_num stadatar) (length Y) xs
    /\ shape (ev_num stadatar) (length Y) xp.
Proof.
  unfold psrf2depth. intros Hp.
  destruct (velocity_model _ _ _ _ _ _ _) as [dep_mod|]; [|discriminate].
  cbn [bind] in Hp.
  destruct (check_srayp srayp); [|discriminate]. cbn [bind] in Hp.
  match type of Hp with
  | bind (mapM ?f ?l) _ = _ => destruct (mapM f l) as [rows|] eqn:Hm; [|discriminate]
  end.
  cbn [bind] in Hp.
  match type of Hp with
  | bind ?c _ = _ => destruct c as [[P' E']|] eqn:Ht; [|discriminate]
  end.
  cbn [bind fst snd] in Hp. injection Hp as <- <- <- <-.
  exists dep_mod. split; [reflexivity|].
  destruct (time2depth_Ok_rows _ _ _ _ _ _ Ht) as (trows & -> & -> & Hlen & Hall).
  pose proof (mapM_seq_length _ _ _ Hm) as Hrows.
  assert (Hw : Forall (fun r : list F * list F * list F =>
                         length (snd (fst r)) = length Y /\ length (snd r) = length Y)
                      rows).
  { eapply mapM_Ok_all; [exact Hm|]. intros i [[t0 r0] r1] _ Hi. cbn [fst snd].
    apply psrf2depth_event_Ok in Hi. tauto. }
  unfold shape. rewrite !length_map. repeat split; try assumption.
  - apply Forall_map. eapply Forall_impl; [exact Hall|]. intros r Hr. apply Hr.
  - apply Forall_map. eapply Forall_impl; [exact Hall|]. intros r Hr. apply Hr.
  - apply Forall_map. eapply Forall_impl; [exact Hw|]. intros r Hr. apply Hr.
  - apply Forall_map. eapply Forall_impl; [exact Hw|]. intros r Hr. apply Hr.
Qed.

Lemma X5_psrf2depth_witness :
  exists dep_mod,
    velocity_model CallerFixtures.no_path Fixtures.line_model CallerFixtures.no_load
      CallerFixtures.keep_velocities Fixtures.station1 Fixtures.grid4 "iasp91"
    = Ok dep_mod
    /\ shape (ev_num Fixtures.station1) (length (depths dep_mod))
         [[0.375; 0.625; 0.875; nan]%float]
    /\ length [3%Z] = ev_num Fixtures.station1
    /\ Forall (fun e => e = (Z.of_nat (length (depths dep_mod)) - 1)%Z) [3%Z]
    /\ shape (ev_num Fixtures.station1) (length Fixtures.grid4) [[0; 1; 2; 3]%float]
    /\ shape (ev_num Fixtures.station1) (length Fixtures.grid4) [[0; 1; 2; 3]%float].
Proof.
  apply (X5_psrf2depth_shapes_and_end_index Fixtures.small_angle_geo
           CallerFixtures.no_path Fixtures.line_model CallerFixtures.no_load
           CallerFixtures.keep_velocities Fixtures.station1 Fixtures.grid4 "iasp91"
           SraypNone (Some "single"%string) true
           [[0.375; 0.625; 0.875; nan]%float] [3%Z]
           [[0; 1; 2; 3]%float] [[0; 1; 2; 3]%float]).
  vm_compute. reflexivity.
Defined.

(** X6.  [psrf2depth] reports a velocity model it cannot build under its
    own exception, whatever [DepModel] raised and before the ray-parameter
    argument is looked at: ValueError when [velmod] is not an existing
    path, FileNotFoundError when it is an existing path that cannot be
    loaded as a 3-D model either. *)
Theorem X6_psrf2depth_relabels_model_errors
    {F : Type} `{Numeric F} (geo : Geo F) (path_exists : string -> bool)
    (DepModel_init : list F -> string -> F -> result (DepModel F))
    (np_load : string -> result (VelocityGrid F))
    (set_velocities : DepModel F -> list F -> list F -> DepModel F)
    (stadatar : RFStation F) (Y : list F) (velmod : string)
    (srayp : srayp_arg F) (norm : option string) (sphere : bool)
    (e0 : exn) :
  DepModel_init Y velmod (stel stadatar) = Raise e0 ->
  (path_exists velmod = true ->
   is_ok (DepModel_init Y "iasp91"%string (stel stadatar)) = true
   /\ is_ok (np_load velmod) = false) ->
  psrf2depth geo path_exists DepModel_init np_load set_velocities
    stadatar Y velmod srayp norm sphere
  = Raise (if path_exists velmod then FileNotFoundError else ValueError).
Proof.
  intros Hd Hp. unfold psrf2depth, velocity_model. rewrite Hd.
  destruct (path_exists velmod); [|reflexivity].
  destruct (Hp eq_refl) as [Hi Hl].
  destruct (DepModel_init Y "iasp91"%string (stel stadatar)); [|discriminate].
  cbn [bind]. destruct (np_load velmod); [discriminate|reflexivity].
Qed.

Lemma X6_psrf2depth_witness :
  psrf2depth Fixtures.small_angle_geo CallerFixtures.one_path
    CallerFixtures.builtin_model CallerFixtures.no_load
    CallerFixtures.keep_velocities Fixtures.station1 Fixtures.grid4 "model.npz"
    SraypOther (Some "single"%string) true
  = Raise (if CallerFixtures.one_path "model.npz" then FileNotFoundError else ValueError).
Proof.
  apply (X6_psrf2depth_relabels_model_errors Fixtures.small_angle_geo
           CallerFixtures.one_path CallerFixtures.builtin_model CallerFixtures.no_load
           CallerFixtures.keep_velocities Fixtures.station1 Fixtures.grid4 "model.npz"
           SraypOther (Some "single"%string) true KeyError).
  - reflexivity.
  - intros _. split; reflexivity.
Defined.

(** X7.  When [psrf_1D_raytracing] returns, each of the seven arrays has
    one row per event and one value per depth of the grid. *)
Theorem X7_psrf_1D_raytracing_shapes
    {F : Type} `{NumericLaws F} (geo : Geo F)
    (DepModel_init : list F -> string -> F -> result (DepModel F))
    (rad2deg : list (complex F) -> list (complex F))
    (latlon_from_arr :
       F -> F -> F -> list (complex F) -> result (list (complex F) * list (complex F)))
    (stadatar : RFStation F) (Y : list F) (velmod : string)
    (srayp : srayp_arg F) (sphere : bool) (r : trace1d F) :
  psrf_1D_raytracing geo DepModel_init rad2deg latlon_from_arr
    stadatar Y velmod srayp sphere = Ok r ->
  shape (ev_num stadatar) (length Y) (t1_pplat_s r)
  /\ shape (ev_num stadatar) (length Y) (t1_pplon_s r)
  /\ shape (ev_num stadatar) (length Y) (t1_pplat_p r)
  /\ shape (ev_num stadatar) (length Y) (t1_pplon_p r)
  /\ shape (ev_num stadatar) (length Y) (t1_raylength_s r)
  /\ shape (ev_num stadatar) (length Y) (t1_raylength_p r)
  /\ shape (ev_num stadatar) (length Y) (t1_tps r).
Proof.
  intros Hp.
  destruct (psrf_1D_raytracing_Ok geo DepModel_init rad2deg latlon_from_arr _ _ _ _ _ _ Hp)
    as (H1 & H2 & H3 & H4 & H5 & H6 & H7).
  repeat split; first [apply H1|apply H2|apply H3|apply H4|apply H5|apply H6|apply H7].
Qed.

Lemma X7_psrf_1D_raytracing_witness :
  let r := {| t1_pplat_s := [[10; 11; 12; 13]];
              t1_pplon_s := [[20; 20; 20; 20]];
              t1_pplat_p := [[10; 11; 12; 13]];
              t1_pplon_p := [[20; 20; 20; 20]];
              t1_raylength_s := [[0; 1; 2; 3]];
              t1_raylength_p := [[0; 1; 2; 3]];
              t1_tps := [[0; 1; 2; 3]] |}%float in
  shape (ev_num Fixtures.station1) (length Fixtures.grid4) (t1_pplat_s r)
  /\ shape (ev_num Fixtures.station1) (length Fixtures.grid4) (t1_pplon_s r)
  /\ shape (ev_num Fixtures.station1) (length Fixtures.grid4) (t1_pplat_p r)
  /\ shape (ev_num Fixtures.station1) (length Fixtures.grid4) (t1_pplon_p r)
  /\ shape (ev_num Fixtures.station1) (length Fixtures.grid4) (t1_raylength_s r)
  /\ shape (ev_num Fixtures.station1) (length Fixtures.grid4) (t1_raylength_p r)
  /\ shape (ev_num Fixtures.station1) (length Fixtures.grid4) (t1_tps r).
Proof.
  intros r.
  apply (X7_psrf_1D_raytracing_shapes Fixtures.small_angle_geo Fixtures.line_model
           CallerFixtures.rad2deg_id CallerFixtures.north Fixtures.station1
           Fixtures.grid4 "iasp91" SraypNone true r).
  vm_compute. reflexivity.
Defined.

(** ** The offsets of the 1-D mapper *)

(** X8.  In [xps_tps_map] the horizontal offsets of both phases come from
    the primary-phase ray parameter alone: two calls that differ only in
    the secondary-phase ray parameter return, when both return, the same
    S offsets and the same P offsets. *)
Theorem X8_offsets_ignore_secondary_ray_parameter
    {F : Type} `{Numeric F} (dep_mod : DepModel F) (srayp srayp' prayp : rayparam F)
    (is_raylen sphere : bool) (m m' : xps_tps) :
  xps_tps_map dep_mod srayp prayp is_raylen sphere = Ok m ->
  xps_tps_map dep_mod srayp' prayp is_raylen sphere = Ok m' ->
  xt_x_s m = xt_x_s m' /\ xt_x_p m = xt_x_p m'.
Proof.
  unfold xps_tps_map. intros Hm Hm'.
  destruct (negb (elevation dep_mod ==! fzero)).
  - destruct (to_depths dep_mod (radius_s dep_mod prayp PhaseS sphere)) as [xs|];
      [|discriminate].
    cbn [bind] in Hm, Hm'.
    destruct (to_depths dep_mod (radius_s dep_mod prayp PhaseP sphere)) as [xp|];
      [|discriminate].
    cbn [bind] in Hm, Hm'.
    destruct (to_depths dep_mod (tpds dep_mod srayp prayp sphere)); [|discriminate].
    destruct (to_depths dep_mod (tpds dep_mod srayp' prayp sphere)); [|discriminate].
    cbn [bind] in Hm, Hm'.
    destruct is_raylen.
    + repeat match type of Hm with
             | bind ?c _ = _ => destruct c; [|discriminate]; cbn [bind] in Hm
             end.
      repeat match type of Hm' with
             | bind ?c _ = _ => destruct c; [|discriminate]; cbn [bind] in Hm'
             end.
      injection Hm as <-. injection Hm' as <-. split; reflexivity.
    + injection Hm as <-. injection Hm' as <-. split; reflexivity.
  - injection Hm as <-. injection Hm' as <-. split; reflexivity.
Qed.

Lemma X8_offsets_witness :
  let c := [mkC 0.0625 0; mkC 1.0625 0; mkC 2.125 0; mkC 4 0]%float in
  let m := {| xt_tps := [mkC 0.125 0; mkC 2.125 0; mkC 4.25 0; mkC 8 0]%float;
              xt_x_s := c; xt_x_p := c; xt_raylength := None |} in
  let m' := {| xt_tps := c; xt_x_s := c; xt_x_p := c; xt_raylength := None |} in
  xt_x_s m = xt_x_s m' /\ xt_x_p m = xt_x_p m'.
Proof.
  intros c m m'.
  apply (X8_offsets_ignore_secondary_ray_parameter Fixtures.raised_model
           (RpArray [2; 2; 2; 2]%float) (RpScalar 1%float) (RpScalar 1%float)
           false true m m');
    vm_compute; reflexivity.
Defined.

(** ** The time correction over a field without perturbation *)

Section ZeroFieldExact.
Context {F : Type} `{NumericLaws F}.

Lemma add_zero_row_exact (row : list F) :
  Forall (fun t => t +! fzero = t) row ->
  zip_with fadd row (np_zeros (length row)) = row.
Proof.
  induction 1 as [|t row Ht _ IH]; [reflexivity|].
  cbn. rewrite Ht. f_equal. exact IH.
Qed.

(** With no perturbation anywhere the migration returns the travel times
    themselves, when adding zero leaves each of them as it is. *)
Lemma psrf_3D_migration_zero_exact (mod3d : Mod3DPerturbation F)
    pplat_s pplon_s pplat_p pplon_p raylength_s raylength_p Tpds Y n :
  (forall pt, (interpdvs mod3d pt ==! fzero) = true) ->
  (forall pt, (interpdvp mod3d pt ==! fzero) = true) ->
  shape n (length Y) pplat_s -> shape n (length Y) pplon_s ->
  shape n (length Y) pplat_p -> shape n (length Y) pplon_p ->
  shape n (length Y) raylength_s -> shape n (length Y) raylength_p ->
  shape n (length Y) Tpds ->
  Forall (Forall (fun t => t +! fzero = t)) Tpds ->
  psrf_3D_migration pplat_s pplon_s pplat_p pplon_p raylength_s raylength_p
    Tpds Y mod3d = Ok Tpds.
Proof.
  intros Hzs Hzp Hlas Hlos Hlap Hlop Hls Hlp Ht Hadd.
  destruct (psrf_3D_migration_rows pplat_s pplon_s pplat_p pplon_p raylength_s
              raylength_p Tpds Y mod3d n Hlas Hlos Hlap Hlop Hls Hlp)
    as (tc & -> & Hlen & Hrows).
  f_equal. apply list_eq. intros i. rewrite lookup_zip_with.
  destruct (Tpds !! i) as [trow|] eqn:Hti; [|reflexivity]. cbn.
  assert (Hi : i < n) by (apply lookup_lt_Some in Hti; destruct Ht as [<- _]; exact Hti).
  destruct (lookup_lt_is_Some_2 tc i) as [crow Hc]; [lia|].
  rewrite Hc. cbn. f_equal.
  destruct (Hrows i crow Hc)
    as (plat_s & plon_s & plat_p & plon_p & dls & dlp
        & H1 & H2 & H3 & H4 & H5 & H6 & ->).
  assert (Hrowlen : forall (M : list (list F)) row,
             shape n (length Y) M -> M !! i = Some row -> length row = length Y).
  { intros M row [_ HM] Hrw. rewrite Forall_forall in HM. apply HM.
    eapply list_elem_of_lookup_2, Hrw. }
  rewrite (timecorrection_zero mod3d Hzs Hzp Y plat_s plon_s plat_p plon_p dls dlp
             (length Y)) by eauto.
  rewrite <- (Hrowlen Tpds trow Ht Hti).
  apply add_zero_row_exact.
  rewrite Forall_forall in Hadd. apply Hadd. eapply list_elem_of_lookup_2, Hti.
Qed.

End ZeroFieldExact.

(** X9.  Over a 3-D model that returns no perturbation at any point,
    [RFStation.psrf_3D_timecorrect] returns exactly the depth profile that
    [time2depth] computes from the travel times of [psrf_1D_raytracing]
    (it returns whenever they do), provided that adding zero leaves each
    of these travel times as it is -- which is so for every number but
    the negative zero of binary64. *)
Theorem X9_timecorrect_without_perturbation
    {F : Type} `{NumericLaws F} (geo : Geo F)
    (DepModel_init : list F -> string -> F -> result (DepModel F))
    (rad2deg : list (complex F) -> list (complex F))
    (latlon_from_arr :
       F -> F -> F -> list (complex F) -> result (list (complex F) * list (complex F)))
    (Mod3DPerturbation_init : string -> list F -> result (Mod3DPerturbation F))
    (self : RFStation F) (mod3dpath : string) (dep_range : list F)
    (norm : option string) (velmod : string) (srayp : srayp_arg F) (sphere : bool)
    (mod3d : Mod3DPerturbation F) (r : trace1d F) :
  Mod3DPerturbation_init mod3dpath dep_range = Ok mod3d ->
  (forall pt, (interpdvs mod3d pt ==! fzero) = true
              /\ (interpdvp mod3d pt ==! fzero) = true) ->
  psrf_1D_raytracing geo DepModel_init rad2deg latlon_from_arr
    self dep_range velmod srayp sphere = Ok r ->
  Forall (Forall (fun t => t +! fzero = t)) (t1_tps r) ->
  RFStation_psrf_3D_timecorrect geo DepModel_init rad2deg latlon_from_arr
    Mod3DPerturbation_init self mod3dpath dep_range norm velmod srayp sphere
  = (out <- time2depth self dep_range (t1_tps r) norm ;; Ok (fst out)).
Proof.
  intros Hmod Hz Hr Hadd. unfold RFStation_psrf_3D_timecorrect.
  rewrite Hmod. cbn [bind]. rewrite Hr. cbn [bind].
  destruct (psrf_1D_raytracing_Ok geo DepModel_init rad2deg latlon_from_arr _ _ _ _ _ _ Hr)
    as (H1 & H2 & H3 & H4 & H5 & H6 & H7).
  rewrite (psrf_3D_migration_zero_exact mod3d _ _ _ _ _ _ _ _ (ev_num self));
    try assumption; try (intros pt; apply Hz).
  reflexivity.
Qed.

Lemma X9_timecorrect_witness :
  RFStation_psrf_3D_timecorrect Fixtures.small_angle_geo Fixtures.line_model
    CallerFixtures.rad2deg_id CallerFixtures.north CallerFixtures.uniform_at
    Fixtures.station1 "mod3d.npz" Fixtures.grid4 (Some "single"%string)
    "iasp91" SraypNone true
  = (out <- time2depth Fixtures.station1 Fixtures.grid4 [[0; 1; 2; 3]%float]
              (Some "single"%string) ;;
     Ok (fst out)).
Proof.
  apply (X9_timecorrect_without_perturbation Fixtures.small_angle_geo
           Fixtures.line_model CallerFixtures.rad2deg_id CallerFixtures.north
           CallerFixtures.uniform_at Fixtures.station1 "mod3d.npz" Fixtures.grid4
           (Some "single"%string) "iasp91" SraypNone true Fixtures.uniform_mod3d
           {| t1_pplat_s := [[10; 11; 12; 13]];
              t1_pplon_s := [[20; 20; 20; 20]];
              t1_pplat_p := [[10; 11; 12; 13]];
              t1_pplon_p := [[20; 20; 20; 20]];
              t1_raylength_s := [[0; 1; 2; 3]];
              t1_raylength_p := [[0; 1; 2; 3]];
              t1_tps := [[0; 1; 2; 3]] |}%float).
  - reflexivity.
  - intros pt. split; reflexivity.
  - vm_compute. reflexivity.
  - repeat constructor.
Defined.

(** ** [RFStation.moveoutcorrect] *)

Section MethodFacts.
Context {F : Type} `{NumericLaws F}.
Variable DepModel_init : list F -> string -> F -> result (DepModel F).

(** The corrected traces keep the shape of the station's traces. *)
Lemma moveoutcorrect_ref_shape (sta : RFStation F) raypref Y chan velmod sphere N E :
  moveoutcorrect_ref DepModel_init sta raypref Y chan velmod sphere = Ok (N, E) ->
  shape (ev_num sta) (rflength sta) N.
Proof.
  unfold moveoutcorrect_ref. intros Hm.
  repeat match type of Hm with
         | bind (mapM ?f ?l) _ = _ =>
             let E := fresh "Erows" in
             destruct (mapM f l) eqn:E; [|discriminate]; cbn [bind] in Hm
         | bind ?c _ = _ => destruct c; [|discriminate]; cbn [bind] in Hm
         end.
  injection Hm as <- <-. split.
  - rewrite length_map. eapply mapM_seq_length. eassumption.
  - apply Forall_map. eapply mapM_Ok_all; [eassumption|].
    intros i [row e] _ Hi. cbn [fst].
    destruct (get_row _ i); [|discriminate]. cbn [bind] in Hi.
    eapply moveout_event_Ok, Hi.
Qed.

Lemma prime_chan_cases (self : RFStation F) chan :
  prime_chan self = Some chan ->
  (chan = "r" \/ chan = "z" \/ chan = "l")%string.
Proof.
  unfold prime_chan.
  repeat match goal with
         | |- context [bool_decide ?P] => destruct (bool_decide P)
         end; intros [= <-]; auto.
Qed.

End MethodFacts.

(** X10.  [RFStation.moveoutcorrect] finds its channel among [datar],
    [dataz] and [datal]: on a station that holds none of them (one whose
    prime component is Q) it never returns.  It ends with the
    UnboundLocalError of [chan], unless the correction of the transverse
    traces, which comes first, has raised. *)
Theorem X10_moveoutcorrect_needs_r_z_or_l
    {F : Type} `{Numeric F} (geo : Geo F)
    (DepModel_init : list F -> string -> F -> result (DepModel F))
    (self : RFStation F) (ref_rayp : F) (dep_range : list F)
    (velmod : string) (replace : bool) :
  data_dict self !! "datar"%string = None ->
  data_dict self !! "dataz"%string = None ->
  data_dict self !! "datal"%string = None ->
  RFStation_moveoutcorrect geo DepModel_init self ref_rayp dep_range velmod replace
  = FailedUnboundLocal
  \/ (only_r self = false
      /\ exists e,
           moveoutcorrect_ref DepModel_init self (skm2srad geo ref_rayp) dep_range
             "t" velmod true = Raise e
           /\ RFStation_moveoutcorrect geo DepModel_init self ref_rayp dep_range
                velmod replace = Failed e).
Proof.
  intros Hr Hz Hl. unfold RFStation_moveoutcorrect.
  assert (Hc : prime_chan self = None).
  { unfold prime_chan. rewrite Hr, Hz, Hl.
    rewrite !bool_decide_eq_false_2; first [reflexivity | intros [? ?]; discriminate]. }
  rewrite Hc. destruct (only_r self); [left; reflexivity|].
  destruct (moveoutcorrect_ref _ _ _ _ _ _ _) as [r|e]; cbn [bind].
  - left. reflexivity.
  - right. split; [reflexivity|]. exists e. split; reflexivity.
Qed.

Lemma X10_moveoutcorrect_witness :
  RFStation_moveoutcorrect Fixtures.small_angle_geo Fixtures.line_model
    CallerFixtures.station_q 0.5%float Fixtures.grid4 "iasp91" false
  = FailedUnboundLocal
  \/ (only_r CallerFixtures.station_q = false
      /\ exists e,
           moveoutcorrect_ref Fixtures.line_model CallerFixtures.station_q
             (skm2srad Fixtures.small_angle_geo 0.5%float) Fixtures.grid4
             "t" "iasp91" true = Raise e
           /\ RFStation_moveoutcorrect Fixtures.small_angle_geo Fixtures.line_model
                CallerFixtures.station_q 0.5%float Fixtures.grid4 "iasp91" false
              = Failed e).
Proof.
  apply (X10_moveoutcorrect_needs_r_z_or_l Fixtures.small_angle_geo
           Fixtures.line_model CallerFixtures.station_q 0.5%float Fixtures.grid4
           "iasp91" false); vm_compute; reflexivity.
Defined.

(** X11.  When [RFStation.moveoutcorrect] is asked to replace the data and
    returns, it returns nothing, and the station it leaves holds, under
    the key of the corrected channel and -- unless the station has the
    prime component alone -- under [datat], arrays of the shape the
    traces had: one row per event, each of the trace length.  The other
    fields of the station are as before. *)
Theorem X11_moveoutcorrect_replace_keeps_shape
    {F : Type} `{NumericLaws F} (geo : Geo F)
    (DepModel_init : list F -> string -> F -> result (DepModel F))
    (self self' : RFStation F) (ref_rayp : F) (dep_range : list F)
    (velmod : string)
    (ret : option (list (list F) * option (list (list F)))) :
  RFStation_moveoutcorrect geo DepModel_init self ref_rayp dep_range velmod true
  = Returned (self', ret) ->
  ret = None
  /\ (exists chan rf_corr,
        prime_chan self = Some chan
        /\ data_dict self' !! String.append "data" chan = Some rf_corr
        /\ shape (ev_num self) (rflength self) rf_corr)
  /\ (only_r self = false ->
      exists t_corr,
        data_dict self' !! "datat"%string = Some t_corr
        /\ shape (ev_num self) (rflength self) t_corr)
  /\ ev_num self' = ev_num self /\ rflength self' = rflength self
  /\ sampling self' = sampling self /\ shift self' = shift self
  /\ time_axis self' = time_axis self /\ rayp self' = rayp self.
Proof.
  unfold RFStation_moveoutcorrect. intros Hm.
  destruct (only_r self) eqn:Honly.
  - destruct (prime_chan self) as [chan|] eqn:Hc; [|discriminate].
    destruct (moveoutcorrect_ref DepModel_init self _ dep_range chan velmod true)
      as [[rf E]|] eqn:Hrf; [|discriminate].
    injection Hm as <- <-. cbn [fst].
    split; [reflexivity|]. split.
    + exists chan, rf. split; [reflexivity|]. split.
      * cbn [set_data data_dict]. apply lookup_insert_eq.
      * eapply moveoutcorrect_ref_shape, Hrf.
    + split; [discriminate|]. repeat split.
  - destruct (moveoutcorrect_ref DepModel_init self _ dep_range "t" velmod true)
      as [[t Et]|] eqn:Ht; [|discriminate].
    cbn [bind fst] in Hm.
    destruct (prime_chan self) as [chan|] eqn:Hc; [|discriminate].
    destruct (moveoutcorrect_ref DepModel_init self _ dep_range chan velmod true)
      as [[rf E]|] eqn:Hrf; [|discriminate].
    injection Hm as <- <-. cbn [fst].
    split; [reflexivity|]. split.
    + exists chan, rf. split; [reflexivity|]. split.
      * cbn [set_data data_dict]. rewrite lookup_insert_ne.
        -- apply lookup_insert_eq.
        -- destruct (prime_chan_cases self chan Hc) as [-> | [-> | ->]]; discriminate.
      * eapply moveoutcorrect_ref_shape, Hrf.
    + split.
      * intros _. exists t. split.
        -- cbn [set_data data_dict]. apply lookup_insert_eq.
        -- eapply moveoutcorrect_ref_shape, Ht.
      * repeat split.
Qed.

Lemma X11_moveoutcorrect_witness :
  let rf := [[2; 3; 3.5; 4; 6; 7; 8; 0]; [20; 30; 50; 70; 0; 0; 0; 0]]%float in
  let self' := set_data Fixtures.station2
                 (<["datar"%string := rf]> (data_dict Fixtures.station2)) in
  (None : option (list (list float) * option (list (list float)))) = None
  /\ (exists chan rf_corr,
        prime_chan Fixtures.station2 = Some chan
        /\ data_dict self' !! String.append "data" chan = Some rf_corr
        /\ shape (ev_num Fixtures.station2) (rflength Fixtures.station2) rf_corr)
  /\ (only_r Fixtures.station2 = false ->
      exists t_corr,
        data_dict self' !! "datat"%string = Some t_corr
        /\ shape (ev_num Fixtures.station2) (rflength Fixtures.station2) t_corr)
  /\ ev_num self' = ev_num Fixtures.station2
  /\ rflength self' = rflength Fixtures.station2
  /\ sampling self' = sampling Fixtures.station2
  /\ shift self' = shift Fixtures.station2
  /\ time_axis self' = time_axis Fixtures.station2
  /\ rayp self' = rayp Fixtures.station2.
Proof.
  intros rf self'.
  apply (X11_moveoutcorrect_replace_keeps_shape Fixtures.small_angle_geo
           Fixtures.line_model Fixtures.station2 self' 0.0001220703125%float
           Fixtures.grid4 "iasp91" None).
  vm_compute. reflexivity.
Defined.

(** ** [_imag2nan] *)

Section FirstMatch.
Context {A : Type}.

(** The head of an index search is the first index at which the test
    holds. *)
Lemma where_from_head (p : A -> bool) s l k ks :
  where_from p s l = k :: ks ->
  s <= k
  /\ (exists a, l !! (k - s) = Some a /\ p a = true)
  /\ forall j b, j < k - s -> l !! j = Some b -> p b = false.
Proof.
  revert s. induction l as [|a l IH]; intros s; simpl; [discriminate|].
  destruct (p a) eqn:Ea.
  - intros [= <- _]. rewrite Nat.sub_diag. split; [lia|].
    split; [exists a; auto|]. intros j b Hj. lia.
  - intros Hw. destruct (IH _ Hw) as (Hs & (b & Hb & Hpb) & Hfirst).
    split; [lia|]. split.
    + exists b. split; [|exact Hpb].
      replace (k - s) with (S (k - S s)) by lia. exact Hb.
    + intros j c Hj Hc. destruct j as [|j].
      * injection Hc as <-. exact Ea.
      * apply (Hfirst j c); [lia|exact Hc].
Qed.

Lemma where_from_first (p : A -> bool) s l k a :
  l !! k = Some a -> p a = true ->
  (forall j b, j < k -> l !! j = Some b -> p b = false) ->
  exists ks, where_from p s l = (s + k) :: ks.
Proof.
  revert s k. induction l as [|x l IH]; intros s k Hk Hp Hfirst; [discriminate|].
  simpl. destruct k as [|k].
  - injection Hk as ->. rewrite Hp, Nat.add_0_r. eauto.
  - rewrite (Hfirst 0 x) by (lia || reflexivity).
    destruct (IH (S s) k Hk Hp) as [ks Hks].
    + intros j b Hj Hb. apply (Hfirst (S j) b); [lia|exact Hb].
    + exists ks. rewrite Hks. f_equal. lia.
Qed.

End FirstMatch.

(** X12.  [_imag2nan] keeps the length of the array; applied twice it does
    no more than applied once; and when some entry has the imaginary part
    1, the entries before the first such entry are kept and every entry
    from it on is NaN. *)
Theorem X12_imag2nan_marks_from_first_unit_imaginary
    {F : Type} `{NumericLaws F} (arr : list (complex F)) :
  length (_imag2nan arr) = length arr
  /\ _imag2nan (_imag2nan arr) = _imag2nan arr
  /\ forall k z,
       arr !! k = Some z -> (im z ==! fone) = true ->
       (forall j z', j < k -> arr !! j = Some z' -> (im z' ==! fone) = false) ->
       (forall j, j < k -> _imag2nan arr !! j = arr !! j)
       /\ (forall j, k <= j < length arr -> _imag2nan arr !! j = Some c_nan).
Proof.
  unfold _imag2nan.
  destruct (np_where (fun z => im z ==! fone) arr) as [|k0 ks] eqn:Ew.
  - split; [reflexivity|]. split; [rewrite Ew; reflexivity|].
    intros k z Hk Hz _. exfalso.
    assert (Hin : k ∈ np_where (fun z => im z ==! fone) arr)
      by (apply np_where_spec; eauto).
    rewrite Ew in Hin. inversion Hin.
  - destruct (where_from_head _ _ _ _ _ Ew) as (_ & (z0 & Hz0 & Hp0) & Hfirst0).
    rewrite Nat.sub_0_r in Hz0, Hfirst0.
    assert (Hk0 : k0 < length arr) by (eapply lookup_lt_Some, Hz0).
    assert (Hlen : length (take k0 arr ++ replicate (length arr - k0) c_nan)
                   = length arr).
    { rewrite length_app, length_take, length_replicate. lia. }
    split; [exact Hlen|]. split.
    + assert (Hnone : np_where (fun z => im z ==! fone)
                        (take k0 arr ++ replicate (length arr - k0) c_nan) = []).
      { apply where_from_nil, Forall_app. split.
        - apply Forall_forall. intros z Hz.
          apply list_elem_of_lookup in Hz as [j Hj].
          assert (j < k0).
          { apply lookup_lt_Some in Hj. rewrite length_take in Hj. lia. }
          rewrite lookup_take_lt in Hj by assumption. eapply Hfirst0; eassumption.
        - apply Forall_replicate. cbn [c_nan im]. apply fzero_neq_one. }
      rewrite Hnone. reflexivity.
    + intros k z Hk Hz Hfirst.
      assert (k = k0) as ->.
      { destruct (where_from_first (fun z => im z ==! fone) 0 arr k z Hk Hz Hfirst)
          as [ks' Hks']. unfold np_where in Ew. rewrite Ew in Hks'.
        injection Hks' as -> _. reflexivity. }
      split.
      * intros j Hj. rewrite lookup_app_l by (rewrite length_take; lia).
        apply lookup_take_lt. exact Hj.
      * intros j Hj. rewrite lookup_app_r by (rewrite length_take; lia).
        rewrite length_take. apply lookup_replicate_2. lia.
Qed.

Lemma X12_imag2nan_witness :
  let arr := [mkC 0 0; mkC 1 1; mkC 2 0.5]%float in
  length (_imag2nan arr) = length arr
  /\ _imag2nan (_imag2nan arr) = _imag2nan arr
  /\ forall k z,
       arr !! k = Some z -> (im z ==! fone) = true ->
       (forall j z', j < k -> arr !! j = Some z' -> (im z' ==! fone) = false) ->
       (forall j, j < k -> _imag2nan arr !! j = arr !! j)
       /\ (forall j, k <= j < length arr -> _imag2nan arr !! j = Some c_nan).
Proof.
  intros arr. apply (X12_imag2nan_marks_from_first_unit_imaginary arr).
Defined.

(** ** [RFStation.normalize] *)

Section NormalizeFacts.
Context {F : Type} `{Numeric F}.

Lemma data_key_not_datat (c : Comp) : data_key c <> "datat"%string.
Proof. destruct c; discriminate. Qed.

(** What the loop of [normalize] over the events [s .. s+n-1] leaves under
    a key [k] whose rows it divides: the prime component, or [datat] when
    the station holds it. *)
Lemma normalize_loop_rows (sta : RFStation F) (maxamp : list F) (k : string) n :
  k = data_key (comp sta) \/ (k = "datat"%string /\ only_r sta = false) ->
  forall s dict dict' rows,
    normalize_loop sta maxamp (seq s n) dict = Ok dict' ->
    dict !! k = Some rows ->
    exists rows',
      dict' !! k = Some rows'
      /\ length rows' = length rows
      /\ forall i,
           (s <= i < s + n ->
            exists row m, rows !! i = Some row /\ maxamp !! i = Some m
                          /\ rows' !! i = Some (map (fun a => a /! m) row))
           /\ (~ s <= i < s + n -> rows' !! i = rows !! i).
Proof.
  intros Hk. induction n as [|n IH]; intros s dict dict' rows Hloop Hrows.
  - cbn in Hloop. injection Hloop as <-. exists rows.
    split; [exact Hrows|]. split; [reflexivity|]. intros i. split; [lia|reflexivity].
  - cbn [seq normalize_loop] in Hloop.
    destruct (normalize_step sta maxamp dict s) as [dict1|] eqn:Hstep; [|discriminate].
    cbn [bind] in Hloop.
    assert (Hone : exists row m,
               rows !! s = Some row /\ maxamp !! s = Some m
               /\ dict1 !! k = Some (<[s := map (fun a => a /! m) row]> rows)).
    { unfold normalize_step in Hstep.
      destruct (dict !! data_key (comp sta)) as [data|] eqn:Hd; [|discriminate].
      cbn [bind] in Hstep.
      destruct (get_row data s) as [row|] eqn:Hrow; [|discriminate].
      cbn [bind] in Hstep. apply get_row_Ok in Hrow.
      destruct (get_row maxamp s) as [m|] eqn:Hm; [|discriminate].
      cbn [bind] in Hstep. apply get_row_Ok in Hm.
      destruct Hk as [-> | [-> Honly]].
      - assert (data = rows) as -> by congruence.
        exists row, m. split; [exact Hrow|]. split; [exact Hm|].
        destruct (only_r sta).
        + injection Hstep as <-. apply lookup_insert_eq.
        + rewrite lookup_insert_ne in Hstep by apply data_key_not_datat.
          destruct (dict !! "datat"%string) as [datat|]; [|discriminate].
          repeat match type of Hstep with
                 | bind ?c _ = _ => destruct c; [|discriminate]; cbn [bind] in Hstep
                 end.
          injection Hstep as <-.
          rewrite lookup_insert_ne by (intros E; symmetry in E; revert E;
                                       apply data_key_not_datat).
          apply lookup_insert_eq.
      - rewrite Honly in Hstep.
        rewrite lookup_insert_ne in Hstep by apply data_key_not_datat.
        rewrite Hrows in Hstep.
        destruct (get_row rows s) as [trow|] eqn:Htrow; [|discriminate].
        cbn [bind] in Hstep. apply get_row_Ok in Htrow.
        cbn [bind] in Hstep. injection Hstep as <-.
        exists trow, m. split; [exact Htrow|]. split; [exact Hm|].
        apply lookup_insert_eq. }
    destruct Hone as (row & m & Hrow & Hm & Hd1).
    destruct (IH (S s) dict1 dict' _ Hloop Hd1) as (rows' & Hr' & Hlen & Hspec).
    exists rows'. split; [exact Hr'|].
    split; [rewrite Hlen; apply length_insert|].
    intros i. destruct (Hspec i) as [Hin Hout]. split.
    + intros Hi. destruct (decide (i = s)) as [-> | Hne].
      * exists row, m. split; [exact Hrow|]. split; [exact Hm|].
        rewrite Hout by lia. apply list_lookup_insert_eq.
        eapply lookup_lt_Some, Hrow.
      * destruct Hin as (row' & m' & Hrow' & Hm' & Hres); [lia|].
        exists row', m'. split; [|split; [exact Hm'|exact Hres]].
        rewrite list_lookup_insert_ne in Hrow' by congruence. exact Hrow'.
    + intros Hi. rewrite Hout by lia.
      apply list_lookup_insert_ne. lia.
Qed.

(** The divisors of the method [single]: the largest absolute amplitude
    of each trace of the prime component. *)
Lemma single_maxamp (data : list (list F)) (maxamp : list F) i row m :
  mapM (fun row => np_nanmax (map fabs row)) data = Ok maxamp ->
  data !! i = Some row -> maxamp !! i = Some m ->
  np_nanmax (map fabs row) = Ok m.
Proof.
  intros Hm Hrow Hmi. apply mapM_Ok_inv in Hm.
  destruct (Forall2_lookup_l _ _ _ i row Hm Hrow) as (m' & Hm' & Hf).
  congruence.
Qed.

End NormalizeFacts.

(** X13.  [normalize('single')] divides each trace of the prime component
    by its own largest absolute amplitude, as it was before the call: after
    a call that returns, the trace of every event is the original one
    divided by that number, sample by sample, and the rows beyond the
    events, if any, are unchanged. *)
Theorem X13_normalize_single_divides_by_own_peak
    {F : Type} `{Numeric F} (sta sta' : RFStation F) :
  normalize sta "single" = Ok sta' ->
  exists data data',
    prime_data sta = Ok data /\ prime_data sta' = Ok data'
    /\ length data' = length data
    /\ forall i row,
         data !! i = Some row ->
         (i < ev_num sta ->
          exists m, np_nanmax (map fabs row) = Ok m
                    /\ data' !! i = Some (map (fun a => a /! m) row))
         /\ (ev_num sta <= i -> data' !! i = Some row).
Proof.
  unfold normalize. cbn [String.eqb Ascii.eqb Bool.eqb]. intros Hn.
  destruct (prime_data sta) as [data|] eqn:Hd; [|discriminate]. cbn [bind] in Hn.
  destruct (mapM _ data) as [maxamp|] eqn:Hmax; [|discriminate]. cbn [bind] in Hn.
  destruct (normalize_loop _ _ _ _) as [dict'|] eqn:Hloop; [|discriminate].
  cbn [bind] in Hn. injection Hn as <-.
  unfold prime_data in Hd.
  destruct (data_dict sta !! data_key (comp sta)) as [d|] eqn:Hk; [|discriminate].
  injection Hd as ->.
  destruct (normalize_loop_rows sta maxamp (data_key (comp sta)) (ev_num sta)
              (or_introl eq_refl) 0 _ _ _ Hloop Hk) as (data' & Hd' & Hlen & Hspec).
  exists data, data'. split; [reflexivity|].
  split; [unfold prime_data; cbn [comp data_dict]; rewrite Hd'; reflexivity|].
  split; [exact Hlen|]. intros i row Hrow. destruct (Hspec i) as [Hin Hout]. split.
  - intros Hi. destruct Hin as (row' & m & Hrow' & Hm & Hres); [lia|].
    assert (row' = row) as -> by congruence.
    exists m. split; [eapply single_maxamp; eassumption|exact Hres].
  - intros Hi. rewrite Hout by lia. exact Hrow.
Qed.

Lemma X13_normalize_witness :
  let sta' := set_data Fixtures.station1
                (<["datar"%string := [[0.125; 0.25; 0.375; 0.5; 0.625; 0.75; 0.875; 1]%float]]>
                   (data_dict Fixtures.station1)) in
  exists data data',
    prime_data Fixtures.station1 = Ok data /\ prime_data sta' = Ok data'
    /\ length data' = length data
    /\ forall i row,
         data !! i = Some row ->
         (i < ev_num Fixtures.station1 ->
          exists m, np_nanmax (map fabs row) = Ok m
                    /\ data' !! i = Some (map (fun a => a /! m) row))
         /\ (ev_num Fixtures.station1 <= i -> data' !! i = Some row).
Proof.
  intros sta'.
  apply (X13_normalize_single_divides_by_own_peak Fixtures.station1 sta').
  vm_compute. reflexivity.
Defined.

Lemma normalize_loop_datat {F : Type} `{Numeric F} (sta : RFStation F) maxamp s n
    dict dict' :
  normalize_loop sta maxamp (seq s (S n)) dict = Ok dict' ->
  only_r sta = false ->
  is_Some (dict !! "datat"%string).
Proof.
  cbn [seq normalize_loop]. intros Hloop Honly.
  destruct (normalize_step sta maxamp dict s) as [dict1|] eqn:Hstep; [|discriminate].
  unfold normalize_step in Hstep. rewrite Honly in Hstep.
  repeat match type of Hstep with
         | bind ?c _ = _ => destruct c; [|discriminate]; cbn [bind] in Hstep
         end.
  rewrite lookup_insert_ne in Hstep by apply data_key_not_datat.
  destruct (dict !! "datat"%string); [eauto|discriminate].
Qed.

(** X14.  [normalize('single')] on a station that holds transverse traces
    divides the transverse trace of every event by the largest absolute
    amplitude of the event's trace of the prime component -- not by the
    transverse trace's own. *)
Theorem X14_normalize_scales_transverse_by_prime_peak
    {F : Type} `{Numeric F} (sta sta' : RFStation F) (i : nat) :
  only_r sta = false ->
  normalize sta "single" = Ok sta' ->
  i < ev_num sta ->
  exists data datat datat' row trow m,
    prime_data sta = Ok data
    /\ data_dict sta !! "datat"%string = Some datat
    /\ data_dict sta' !! "datat"%string = Some datat'
    /\ data !! i = Some row /\ datat !! i = Some trow
    /\ np_nanmax (map fabs row) = Ok m
    /\ datat' !! i = Some (map (fun a => a /! m) trow).
Proof.
  unfold normalize. cbn [String.eqb Ascii.eqb Bool.eqb]. intros Honly Hn Hi.
  destruct (prime_data sta) as [data|] eqn:Hd; [|discriminate]. cbn [bind] in Hn.
  destruct (mapM _ data) as [maxamp|] eqn:Hmax; [|discriminate]. cbn [bind] in Hn.
  destruct (normalize_loop _ _ _ _) as [dict'|] eqn:Hloop; [|discriminate].
  cbn [bind] in Hn. injection Hn as <-. cbn [data_dict].
  unfold prime_data in Hd.
  destruct (data_dict sta !! data_key (comp sta)) as [d|] eqn:Hk; [|discriminate].
  injection Hd as ->.
  assert (Ht : is_Some (data_dict sta !! "datat"%string)).
  { destruct (ev_num sta) as [|n] eqn:En; [lia|].
    eapply normalize_loop_datat; eassumption. }
  destruct Ht as [datat Ht].
  destruct (normalize_loop_rows sta maxamp (data_key (comp sta)) (ev_num sta)
              (or_introl eq_refl) 0 _ _ _ Hloop Hk) as (data' & _ & _ & Hspec).
  destruct (normalize_loop_rows sta maxamp "datat" (ev_num sta)
              (or_intror (conj eq_refl Honly)) 0 _ _ _ Hloop Ht)
    as (datat' & Ht' & _ & Hspect).
  destruct (proj1 (Hspec i)) as (row & m & Hrow & Hm & _); [lia|].
  destruct (proj1 (Hspect i)) as (trow & m' & Htrow & Hm' & Hres); [lia|].
  assert (m' = m) as -> by congruence.
  exists data, datat, datat', row, trow, m.
  repeat split; try assumption.
  eapply single_maxamp; eassumption.
Qed.

Lemma X14_normalize_witness :
  let sta' := set_data CallerFixtures.station_rt
                (<["datat"%string := [[0.5; 2; -0.5; 0.25]; [2; 0; 1; -2]]%float]>
                   (<["datar"%string := [[0.25; -1; 0.5; 0]; [1; 0.5; -0.25; 0]]%float]>
                      (data_dict CallerFixtures.station_rt))) in
  exists data datat datat' row trow m,
    prime_data CallerFixtures.station_rt = Ok data
    /\ data_dict CallerFixtures.station_rt !! "datat"%string = Some datat
    /\ data_dict sta' !! "datat"%string = Some datat'
    /\ data !! 0 = Some row /\ datat !! 0 = Some trow
    /\ np_nanmax (map fabs row) = Ok m
    /\ datat' !! 0 = Some (map (fun a => a /! m) trow).
Proof.
  intros sta'.
  apply (X14_normalize_scales_transverse_by_prime_peak CallerFixtures.station_rt sta' 0).
  - reflexivity.
  - vm_compute. reflexivity.
  - cbn. lia.
Defined.

(** ** The guard of the depth conversion *)

Lemma mapM_Raise_all {A B : Type} (f : A -> result B) (e : exn) l a :
  a ∈ l -> f a = Raise e ->
  (forall a', a' ∈ l -> f a' = Raise e \/ exists b, f a' = Ok b) ->
  mapM f l = Raise e.
Proof.
  induction l as [|x l IH]; intros Hin Hf Hall; [inversion Hin|].
  cbn [mapM]. destruct (Hall x) as [Hx | [b Hb]]; [left| |].
  - rewrite Hx. reflexivity.
  - rewrite Hb. cbn [bind].
    apply elem_of_cons in Hin as [-> | Hin]; [congruence|].
    rewrite IH; [reflexivity|exact Hin|exact Hf|].
    intros a' Ha'. apply Hall. right. exact Ha'.
Qed.

Lemma foldr_max_le (l : list nat) b : Forall (fun k => k <= b) l -> foldr Nat.max 0 l <= b.
Proof. induction 1; simpl; lia. Qed.

Section DepthRowIndex.
Context {F : Type} `{Numeric F}.

(** A depth axis one sample longer than the trace and valid at its last
    sample passes the guard and fails at the indexing of the trace. *)
Lemma depth_row_index_error (Y D amps : list F) d :
  length D = S (length amps) ->
  D !! length amps = Some d -> fisnan d = false ->
  depth_row Y D amps = Raise IndexError.
Proof.
  intros Hlen Hd Hv. unfold depth_row.
  set (VI := np_where (fun d => negb (fisnan d)) D).
  assert (Hin : length amps ∈ VI).
  { apply np_where_spec. exists d. rewrite Hv. auto. }
  assert (Hall : Forall (fun k => k <= length amps) VI).
  { apply Forall_forall. intros k Hk. apply np_where_lt in Hk. lia. }
  destruct VI as [|k0 ks] eqn:EVI; [inversion Hin|].
  rewrite <- EVI in *.
  replace (length amps <? foldr Nat.max 0 VI)%nat with false
    by (symmetry; apply Nat.ltb_ge, foldr_max_le, Hall).
  unfold take_indices.
  destruct (mapM_Ok_Forall
              (fun k => match D !! k with Some a => Ok a | None => Raise IndexError end)
              (fun _ => True) VI) as (x & -> & _).
  { intros k Hk. unfold VI in Hk. apply np_where_spec in Hk as (a & -> & _). eauto. }
  cbn [bind].
  rewrite (mapM_Raise_all _ IndexError VI (length amps) Hin); [reflexivity| |].
  - rewrite lookup_ge_None_2; [reflexivity|lia].
  - intros k _. destruct (amps !! k); eauto.
Qed.

End DepthRowIndex.

(** X15.  The guard of [time2depth] skips an event whose last valid
    depth-axis index is greater than the trace length, not one whose last
    valid index equals it: when the time axis has one sample more than
    the first event's trace and the depth at that last time sample is valid,
    the conversion raises IndexError. *)
Theorem X15_time2depth_index_error_at_trace_length
    {F : Type} `{NumericLaws F} (sta : RFStation F) (Y : list F)
    (Tpds : list (list F)) (T D : list F) (data : list (list F))
    (amps : list F) (d : F) :
  1 <= ev_num sta ->
  Tpds !! 0 = Some T ->
  interp_nan T Y (time_axis sta) = Ok D ->
  prime_data sta = Ok data ->
  data !! 0 = Some amps ->
  length (time_axis sta) = S (length amps) ->
  D !! length amps = Some d -> fisnan d = false ->
  time2depth sta Y Tpds None = Raise IndexError.
Proof.
  intros Hev HT HD Hdata Hamps Hlen Hd Hv. unfold time2depth. cbn [bind].
  destruct (ev_num sta) as [|n]; [lia|]. cbn [seq mapM].
  unfold time2depth_event at 1.
  rewrite (get_row_Some _ _ _ HT). cbn [bind].
  rewrite depth_axis_whole, HD. cbn [bind]. rewrite Hdata. cbn [bind].
  rewrite (get_row_Some _ _ _ Hamps). cbn [bind snd].
  rewrite (depth_row_index_error Y D amps d); [reflexivity| |exact Hd|exact Hv].
  unfold interp_nan in HD.
  destruct (interp1d T Y false (fnan, fnan)) as [o|]; [|discriminate].
  cbn [bind] in HD. rewrite (interp1d_call_length _ _ _ HD). exact Hlen.
Qed.

Lemma X15_time2depth_witness :
  time2depth CallerFixtures.station_long_axis Fixtures.grid4 [[0; 1; 2; 3]%float] None
  = Raise IndexError.
Proof.
  apply (X15_time2depth_index_error_at_trace_length CallerFixtures.station_long_axis
           Fixtures.grid4 [[0; 1; 2; 3]%float] [0; 1; 2; 3]%float
           [nan; nan; 0; 5; 10; 15; 20; 25; 30]%float
           [[1; 2; 3; 4; 5; 6; 7; 8]%float] [1; 2; 3; 4; 5; 6; 7; 8]%float 30%float).
  - cbn. lia.
  - reflexivity.
  - vm_compute. reflexivity.
  - reflexivity.
  - reflexivity.
  - reflexivity.
  - reflexivity.
  - reflexivity.
Defined.

(** X16.  [normalize('average')], when it returns, has divided the
    prime-component trace of every event by one and the same number: the
    largest absolute amplitude of the mean trace of the station (times
    one), so that the ratios between the events' amplitudes are kept. *)
Theorem X16_normalize_average_divides_by_one_number
    {F : Type} `{Numeric F} (sta sta' : RFStation F) :
  normalize sta "average" = Ok sta' ->
  exists data data' amp,
    prime_data sta = Ok data /\ prime_data sta' = Ok data'
    /\ np_nanmax (map fabs (mean_axis0 (rflength sta) data)) = Ok amp
    /\ forall i, i < ev_num sta ->
         exists row, data !! i = Some row
                     /\ data' !! i = Some (map (fun a => a /! (fone *! amp)) row).
Proof.
  unfold normalize. cbn [String.eqb Ascii.eqb Bool.eqb]. intros Hn.
  destruct (prime_data sta) as [data|] eqn:Hd; [|discriminate]. cbn [bind] in Hn.
  destruct (np_nanmax _) as [amp|] eqn:Hamp; [|discriminate]. cbn [bind] in Hn.
  destruct (normalize_loop _ _ _ _) as [dict'|] eqn:Hloop; [|discriminate].
  cbn [bind] in Hn. injection Hn as <-.
  unfold prime_data in Hd.
  destruct (data_dict sta !! data_key (comp sta)) as [d|] eqn:Hk; [|discriminate].
  injection Hd as ->.
  destruct (normalize_loop_rows sta _ (data_key (comp sta)) (ev_num sta)
              (or_introl eq_refl) 0 _ _ _ Hloop Hk) as (data' & Hd' & _ & Hspec).
  exists data, data', amp. split; [reflexivity|].
  split; [unfold prime_data; cbn [comp data_dict]; rewrite Hd'; reflexivity|].
  split; [exact Hamp|]. intros i Hi.
  destruct (proj1 (Hspec i)) as (row & m & Hrow & Hm & Hres); [lia|].
  apply lookup_replicate in Hm as [-> _].
  exists row. split; [exact Hrow|exact Hres].
Qed.

Lemma X16_normalize_witness :
  let sta' := set_data CallerFixtures.station_avg
                (<["datar"%string := [[0.5; -2; 1; 0]; [0.5; 0; 1; 2]]%float]>
                   (data_dict CallerFixtures.station_avg)) in
  exists data data' amp,
    prime_data CallerFixtures.station_avg = Ok data /\ prime_data sta' = Ok data'
    /\ np_nanmax (map fabs (mean_axis0 (rflength CallerFixtures.station_avg) data))
       = Ok amp
    /\ forall i, i < ev_num CallerFixtures.station_avg ->
         exists row, data !! i = Some row
                     /\ data' !! i = Some (map (fun a => a /! (fone *! amp)) row).
Proof.
  intros sta'.
  apply (X16_normalize_average_divides_by_one_number CallerFixtures.station_avg sta').
  vm_compute. reflexivity.
Defined.

(** ** The peak of a normalised trace, in exact arithmetic *)

Module ExactNormalize.
Local Open Scope R_scope.

Lemma peak_spec a rs :
  In (ExactStation.peak a rs) (a :: rs) /\ forall r, In r (a :: rs) -> r <= ExactStation.peak a rs.
Proof.
  unfold ExactStation.peak. revert a. induction rs as [|x rs IH]; intros a; cbn [fold_left].
  - split; [left; reflexivity|]. intros r [<-|[]]. lra.
  - destruct (IH (Rmax a x)) as [Hin Hle]. split.
    + destruct Hin as [Hin|Hin]; [|right; right; exact Hin].
      rewrite <- Hin. unfold Rmax. destruct (Rle_dec a x); [right; left|left]; reflexivity.
    + intros r [<-|[<-|Hr]].
      * etransitivity; [apply Rmax_l|]. apply Hle. left. reflexivity.
      * etransitivity; [apply Rmax_r|]. apply Hle. left. reflexivity.
      * apply Hle. right. exact Hr.
Qed.

Lemma nanmax_fold (rs : list R) (a : R) :
  fold_left (fun m x : xreal => if fisnan x then m
                                else if fisnan m then x
                                else if m <! x then x else m)
            (map XReal rs) (XReal a)
  = XReal (ExactStation.peak a rs).
Proof.
  unfold ExactStation.peak. revert a. induction rs as [|x rs IH]; intros a; [reflexivity|].
  cbn [map fold_left]. cbn [fisnan xreal_Numeric XR.isnan fltb XR.ltb].
  rewrite <- IH. f_equal. unfold Rmax.
  destruct (Rlt_dec a x), (Rle_dec a x); try reflexivity; f_equal; lra.
Qed.

(** [np.nanmax] of an array of numbers is its largest entry. *)
Lemma np_nanmax_reals (r : R) (rs : list R) :
  np_nanmax (map XReal (r :: rs)) = Ok (XReal (ExactStation.peak r rs)).
Proof.
  unfold np_nanmax. cbn [map fold_left].
  cbn [fisnan xreal_Numeric XR.isnan fnan]. rewrite nanmax_fold. reflexivity.
Qed.

Lemma abs_reals (rs : list R) :
  map fabs (map XReal rs) = map XReal (map Rabs rs).
Proof. rewrite !map_map. reflexivity. Qed.

(** Dividing the numbers of a trace by their largest absolute value, when
    it is not zero, gives numbers whose largest absolute value is 1. *)
Lemma scaled_peak (r : R) (rs : list R) :
  let M := ExactStation.peak (Rabs r) (map Rabs rs) in
  M <> 0 ->
  exists r' rs',
    map (fun a => a /! XReal M) (map XReal (r :: rs)) = map XReal (r' :: rs')
    /\ ExactStation.peak (Rabs r') (map Rabs rs') = 1
    /\ Forall (fun a => Rabs a <= 1) (r' :: rs').
Proof.
  intros M HM.
  destruct (peak_spec (Rabs r) (map Rabs rs)) as [Hin Hle]. fold M in Hin, Hle.
  assert (HMpos : 0 < M).
  { assert (0 <= M) by (etransitivity; [apply Rabs_pos|apply Hle; left; reflexivity]).
    lra. }
  exists (r / M), (map (fun a => a / M) rs). split.
  - cbn [map]. f_equal.
    + cbn. unfold XR.div. destruct (Req_dec_T M 0); [contradiction|reflexivity].
    + rewrite !map_map. apply map_ext. intros a. cbn. unfold XR.div.
      destruct (Req_dec_T M 0); [contradiction|reflexivity].
  - assert (Habs : forall a, Rabs (a / M) = Rabs a / M).
    { intros a. unfold Rdiv. rewrite Rabs_mult, (Rabs_right (/ M)); [reflexivity|].
      apply Rle_ge, Rlt_le, Rinv_0_lt_compat, HMpos. }
    assert (Hall : forall a, In a (r :: rs) -> Rabs (a / M) <= 1).
    { intros a Ha. rewrite Habs. apply (Rmult_le_reg_r M); [exact HMpos|].
      unfold Rdiv. rewrite Rmult_assoc, Rinv_l, Rmult_1_r, Rmult_1_l by lra.
      apply Hle. change (In (Rabs a) (map Rabs (r :: rs))). apply in_map, Ha. }
    split.
    + destruct (peak_spec (Rabs (r / M)) (map Rabs (map (fun a => a / M) rs)))
        as [Hin' Hle'].
      set (M' := ExactStation.peak (Rabs (r / M)) (map Rabs (map (fun a => a / M) rs))) in *.
      assert (Hup : M' <= 1).
      { change (In M' (map Rabs (map (fun a => a / M) (r :: rs)))) in Hin'.
        rewrite map_map in Hin'. apply in_map_iff in Hin' as (a & <- & Ha).
        apply Hall, Ha. }
      assert (Hlo : 1 <= M').
      { apply Hle'.
        change (In 1 (map Rabs (map (fun a => a / M) (r :: rs)))).
        rewrite map_map.
        change (In M (map Rabs (r :: rs))) in Hin.
        apply in_map_iff in Hin as (a & Ha & Hain).
        apply in_map_iff. exists a. split; [|exact Hain].
        rewrite Habs, Ha. field. lra. }
      lra.
    + apply Forall_forall. intros a Ha. apply list_elem_of_In in Ha.
      change (In a (map (fun a => a / M) (r :: rs))) in Ha.
      apply in_map_iff in Ha as (b & <- & Hb). apply Hall, Hb.
Qed.

End ExactNormalize.

(** X17.  In exact arithmetic, after [normalize('single')] the trace of
    every event whose samples are numbers, not all zero, has the largest
    absolute amplitude 1, and no sample of it exceeds 1 in absolute
    value. *)
Theorem X17_normalized_trace_has_unit_peak
    (sta sta' : RFStation xreal) (i : nat) (data : list (list xreal))
    (r : R) (rs : list R) :
  normalize sta "single" = Ok sta' ->
  i < ev_num sta ->
  prime_data sta = Ok data ->
  data !! i = Some (map XReal (r :: rs)) ->
  Exists (fun a => a <> 0%R) (r :: rs) ->
  exists data' r' rs',
    prime_data sta' = Ok data'
    /\ data' !! i = Some (map XReal (r' :: rs'))
    /\ np_nanmax (map fabs (map XReal (r' :: rs'))) = Ok (XReal 1)
    /\ Forall (fun a => (Rabs a <= 1)%R) (r' :: rs').
Proof.
  unfold normalize. cbn [String.eqb Ascii.eqb Bool.eqb]. intros Hn Hi Hd Hrow Hnz.
  rewrite Hd in Hn. cbn [bind] in Hn.
  destruct (mapM _ data) as [maxamp|] eqn:Hmax; [|discriminate]. cbn [bind] in Hn.
  destruct (normalize_loop _ _ _ _) as [dict'|] eqn:Hloop; [|discriminate].
  cbn [bind] in Hn. injection Hn as <-.
  unfold prime_data in Hd.
  destruct (data_dict sta !! data_key (comp sta)) as [d|] eqn:Hk; [|discriminate].
  injection Hd as ->.
  destruct (normalize_loop_rows sta maxamp (data_key (comp sta)) (ev_num sta)
              (or_introl eq_refl) 0 _ _ _ Hloop Hk) as (data' & Hd' & _ & Hspec).
  destruct (proj1 (Hspec i)) as (row & m & Hrow' & Hm & Hres); [lia|].
  assert (row = map XReal (r :: rs)) as -> by congruence.
  pose proof (single_maxamp _ _ _ _ _ Hmax Hrow Hm) as Hpeak.
  rewrite ExactNormalize.abs_reals in Hpeak.
  change (map Rabs (r :: rs)) with (Rabs r :: map Rabs rs) in Hpeak.
  rewrite ExactNormalize.np_nanmax_reals in Hpeak. injection Hpeak as <-.
  destruct (ExactNormalize.scaled_peak r rs) as (r' & rs' & Hscaled & Hone & Hall).
  { destruct (ExactNormalize.peak_spec (Rabs r) (map Rabs rs)) as [_ Hle].
    apply Exists_exists in Hnz as (a & Ha & Hane).
    apply list_elem_of_In in Ha.
    assert (Rabs a <= ExactStation.peak (Rabs r) (map Rabs rs))%R.
    { apply Hle. change (In (Rabs a) (map Rabs (r :: rs))). apply in_map, Ha. }
    pose proof (Rabs_pos_lt a Hane). lra. }
  exists data', r', rs'.
  split; [unfold prime_data; cbn [comp data_dict]; rewrite Hd'; reflexivity|].
  split; [rewrite Hres, Hscaled; reflexivity|].
  split; [|exact Hall].
  rewrite ExactNormalize.abs_reals.
  change (map Rabs (r' :: rs')) with (Rabs r' :: map Rabs rs').
  rewrite ExactNormalize.np_nanmax_reals, Hone. reflexivity.
Qed.

Lemma X17_normalized_trace_witness :
  let M := ExactStation.peak (Rabs 1) [Rabs (-4); Rabs 2] in
  let sta' := set_data ExactStation.station
                (<["datar"%string :=
                     <[0 := map (fun a => a /! XReal M) (map XReal ExactStation.trace)]>
                       [map XReal ExactStation.trace]]>
                   (data_dict ExactStation.station)) in
  exists data' r' rs',
    prime_data sta' = Ok data'
    /\ data' !! 0 = Some (map XReal (r' :: rs'))
    /\ np_nanmax (map fabs (map XReal (r' :: rs'))) = Ok (XReal 1)
    /\ Forall (fun a => (Rabs a <= 1)%R) (r' :: rs').
Proof.
  intros M sta'.
  apply (X17_normalized_trace_has_unit_peak ExactStation.station sta' 0
           [map XReal ExactStation.trace] 1%R [(-4)%R; 2%R]).
  - unfold normalize. cbn [String.eqb Ascii.eqb Bool.eqb].
    unfold prime_data. cbn [ExactStation.station comp data_dict data_key].
    rewrite lookup_singleton_eq. cbn [bind mapM].
    rewrite ExactNormalize.abs_reals.
    change (map Rabs ExactStation.trace) with (Rabs 1 :: map Rabs [(-4)%R; 2%R]).
    rewrite ExactNormalize.np_nanmax_reals.
    cbn [ExactStation.station bind ev_num seq normalize_loop].
    unfold normalize_step.
    cbn [ExactStation.station comp data_key only_r data_dict].
    rewrite lookup_singleton_eq. cbn [bind get_row lookup list_lookup].
    reflexivity.
  - cbn. lia.
  - unfold prime_data. cbn [ExactStation.station comp data_dict data_key].
    rewrite lookup_singleton_eq. reflexivity.
  - reflexivity.
  - left. lra.
Defined.

(** ** Moveout correction along the event's own travel-time curve, in exact arithmetic *)

Module ExactMoveout.
Local Open Scope R_scope.

Lemma Int_part_IZR z : Int_part (IZR z) = z.
Proof. symmetry. apply Int_part_spec. lra. Qed.

Lemma ceil_IZR z : XR.ceil (XReal (IZR z)) = Some z.
Proof.
  unfold XR.ceil, XR.floor. rewrite <- opp_IZR, Int_part_IZR. f_equal. lia.
Qed.

Lemma trunc_IZR z : (0 <= z)%Z -> XR.trunc (XReal (IZR z)) = Some z.
Proof.
  intros Hz. unfold XR.trunc, XR.floor.
  destruct (Rle_dec 0 (IZR z)) as [_|Hn]; [rewrite Int_part_IZR; reflexivity|].
  exfalso. apply Hn. apply (IZR_le 0 z Hz).
Qed.

Lemma np_lt_real a b :
  np_lt (XReal a) (XReal b) = if Rlt_dec a b then true else false.
Proof. unfold np_lt. cbn. destruct (Rlt_dec a b); reflexivity. Qed.

Lemma py_get_nonneg {A : Type} (l : list A) (i : Z) v :
  (0 <= i)%Z -> l !! Z.to_nat i = Some v -> py_get l i = Ok v.
Proof.
  intros Hi Hv. unfold py_get. cbv zeta.
  replace (i <? 0)%Z with false by (symmetry; apply Z.ltb_ge; lia).
  replace (i <? 0)%Z with false by (symmetry; apply Z.ltb_ge; lia).
  rewrite Hv. reflexivity.
Qed.

Lemma py_nth_real (xs : list R) (i : Z) v :
  (0 <= i)%Z -> xs !! Z.to_nat i = Some v -> py_nth (map XReal xs) i = XReal v.
Proof.
  intros Hi Hv. unfold py_nth.
  rewrite (py_get_nonneg _ i (XReal v) Hi); [reflexivity|].
  rewrite list_lookup_fmap, Hv. reflexivity.
Qed.

(** *** Interpolation at the samples' own abscissae *)

Lemma knots_ascending (xs : list R) :
  (forall i j a b, (i < j)%nat -> xs !! i = Some a -> xs !! j = Some b -> a < b) ->
  ascending (map XReal xs).
Proof.
  intros Hinc i a b Ha Hb. rewrite list_lookup_fmap in Ha, Hb.
  destruct (xs !! i) as [a'|] eqn:Ea; [|discriminate].
  destruct (xs !! S i) as [b'|] eqn:Eb; [|discriminate].
  injection Ha as <-. injection Hb as <-. rewrite np_lt_real.
  destruct (Rlt_dec b' a') as [Hlt|]; [|reflexivity].
  pose proof (Hinc i (S i) a' b' (Nat.lt_succ_diag_r i) Ea Eb). lra.
Qed.

Lemma knots_le (xs : list R) :
  (forall i j a b, (i < j)%nat -> xs !! i = Some a -> xs !! j = Some b -> a < b) ->
  forall i j a b,
    (i <= j)%nat -> xs !! i = Some a -> xs !! j = Some b -> a <= b.
Proof.
  intros Hinc i j a b Hij Ha Hb. destruct (decide (i = j)) as [->|Hne].
  - rewrite Ha in Hb. injection Hb as <-. lra.
  - left. apply (Hinc i j); [lia|assumption|assumption].
Qed.

Lemma searchsorted_knot (xs : list R) :
  (forall i j a b, (i < j)%nat -> xs !! i = Some a -> xs !! j = Some b -> a < b) ->
  forall k a, xs !! k = Some a -> searchsorted (map XReal xs) (XReal a) = k.
Proof.
  induction xs as [|x xs IH]; intros Hinc k a Hk; [discriminate|].
  cbn [map searchsorted]. rewrite np_lt_real. destruct k as [|k].
  - injection Hk as <-. destruct (Rlt_dec x x); [lra|reflexivity].
  - assert (x < a) by (apply (Hinc 0%nat (S k)); [lia|reflexivity|exact Hk]).
    destruct (Rlt_dec x a); [|contradiction]. f_equal. apply IH; [|exact Hk].
    intros i j c d Hij Hc Hd. apply (Hinc (S i) (S j)); [lia|exact Hc|exact Hd].
Qed.

Section KnotValues.
Variables xs ys : list R.
Hypothesis Hinc : forall i j a b,
  (i < j)%nat -> xs !! i = Some a -> xs !! j = Some b -> a < b.
Hypothesis Hlen : length ys = length xs.
Hypothesis Hn : (2 <= length xs)%nat.

Lemma interp_point_knot k a b fill :
  xs !! k = Some a -> ys !! k = Some b ->
  interp_point {| ip_x := map XReal xs; ip_y := map XReal ys;
                  ip_bounds_error := false; ip_fill := fill |} (XReal a)
  = XReal b.
Proof.
  intros Ha Hb. unfold interp_point. cbn [ip_x ip_y].
  rewrite (searchsorted_knot xs Hinc k a Ha), length_map.
  assert (Hk : (k < length xs)%nat) by (eapply lookup_lt_Some, Ha).
  destruct k as [|k].
  - destruct (lookup_lt_is_Some_2 xs 1) as [a1 Ha1]; [lia|].
    destruct (lookup_lt_is_Some_2 ys 1) as [b1 Hb1]; [lia|].
    replace (Z.min (Z.max (Z.of_nat 0) 1) (Z.of_nat (length xs) - 1)) with 1%Z by lia.
    cbv zeta. change (1 - 1)%Z with 0%Z.
    rewrite (py_nth_real xs 0 a), (py_nth_real xs 1 a1),
            (py_nth_real ys 0 b), (py_nth_real ys 1 b1)
      by (first [lia | assumption]).
    assert (a < a1) by (apply (Hinc 0%nat 1%nat); [lia|assumption|assumption]).
    change (XR.div (XReal (b1 - b)) (XReal (a1 - a)) *! XReal (a - a) +! XReal b
            = XReal b).
    rewrite ExactFacts.div_real by lra.
    change (XReal ((b1 - b) / (a1 - a) * (a - a) + b) = XReal b).
    f_equal. field. lra.
  - destruct (lookup_lt_is_Some_2 xs k) as [a0 Ha0]; [lia|].
    destruct (lookup_lt_is_Some_2 ys k) as [b0 Hb0]; [lia|].
    replace (Z.min (Z.max (Z.of_nat (S k)) 1) (Z.of_nat (length xs) - 1))
      with (Z.of_nat (S k)) by lia.
    cbv zeta. replace (Z.of_nat (S k) - 1)%Z with (Z.of_nat k) by lia.
    rewrite (py_nth_real xs (Z.of_nat k) a0), (py_nth_real xs (Z.of_nat (S k)) a),
            (py_nth_real ys (Z.of_nat k) b0), (py_nth_real ys (Z.of_nat (S k)) b)
      by (first [lia | rewrite Nat2Z.id; assumption]).
    assert (a0 < a) by (apply (Hinc k (S k)); [lia|assumption|assumption]).
    change (XR.div (XReal (b - b0)) (XReal (a - a0)) *! XReal (a - a0) +! XReal b0
            = XReal b).
    rewrite ExactFacts.div_real by lra.
    change (XReal ((b - b0) / (a - a0) * (a - a0) + b0) = XReal b).
    f_equal. field. lra.
Qed.

Lemma interp_fill_knot k a b :
  xs !! k = Some a -> ys !! k = Some b ->
  interp_fill {| ip_x := map XReal xs; ip_y := map XReal ys;
                 ip_bounds_error := false; ip_fill := (fnan, fnan) |} (XReal a)
  = XReal b.
Proof.
  intros Ha Hb. unfold interp_fill, above_bounds, below_bounds. cbn [ip_x].
  assert (Hk : (k < length xs)%nat) by (eapply lookup_lt_Some, Ha).
  destruct (lookup_lt_is_Some_2 xs 0) as [a0 Ha0]; [lia|].
  destruct (lookup_lt_is_Some_2 xs (Nat.pred (length xs))) as [al Hal]; [lia|].
  assert (Hlast : py_nth (map XReal xs) (-1) = XReal al).
  { unfold py_nth. rewrite py_get_last, last_lookup, length_map, list_lookup_fmap, Hal.
    reflexivity. }
  rewrite Hlast, (py_nth_real xs 0 a0) by (first [lia | assumption]).
  pose proof (knots_le xs Hinc k (Nat.pred (length xs)) a al ltac:(lia) Ha Hal).
  pose proof (knots_le xs Hinc 0%nat k a0 a ltac:(lia) Ha0 Ha).
  change (XReal al <! XReal a) with (if Rlt_dec al a then true else false).
  destruct (Rlt_dec al a); [lra|].
  change (XReal a <! XReal a0) with (if Rlt_dec a a0 then true else false).
  destruct (Rlt_dec a a0); [lra|].
  apply (interp_point_knot k); assumption.
Qed.

(** [interp1d(x, y, bounds_error=False)(x)] returns [y] when [x] increases
    strictly. *)
Lemma interp_nan_knots :
  interp_nan (map XReal xs) (map XReal ys) (map XReal xs) = Ok (map XReal ys).
Proof.
  unfold interp_nan.
  rewrite interp1d_ascending;
    [|apply knots_ascending, Hinc|rewrite !length_map; exact Hlen|rewrite length_map; lia].
  cbn [bind]. unfold interp1d_call. cbn [ip_bounds_error andb]. f_equal.
  apply list_eq. intros k. rewrite !list_lookup_fmap.
  destruct (xs !! k) as [a|] eqn:Ea.
  - destruct (lookup_lt_is_Some_2 ys k) as [b Hb].
    { rewrite Hlen. eapply lookup_lt_Some, Ea. }
    rewrite Hb. cbn [fmap option_fmap option_map]. f_equal.
    apply (interp_fill_knot k); assumption.
  - apply lookup_ge_None in Ea. rewrite (lookup_ge_None_2 ys k) by lia. reflexivity.
Qed.

End KnotValues.

(** A curve without imaginary parts is a float64 array. *)
Lemma as_ndarray_real (ts : list R) :
  as_ndarray (map (fun t => of_real (XReal t)) ts) = Float64 (map XReal ts).
Proof.
  unfold as_ndarray.
  assert (Hall : forallb (fun z : complex xreal => im z ==! fzero)
                   (map (fun t => of_real (XReal t)) ts) = true).
  { induction ts as [|t ts IH]; [reflexivity|].
    cbn [map forallb]. rewrite IH.
    change (im (of_real (XReal t)) ==! fzero) with (XR.eqb (XReal 0) (XReal 0)).
    rewrite ExactFacts.eqb_refl_real. reflexivity. }
  rewrite Hall. unfold astype_float. rewrite map_map. reflexivity.
Qed.

(** *** The time axis *)

Section Axis.
Variable sta : RFStation xreal.
Variables dt sh : R.
Variable s : nat.
Hypothesis Hsamp : sampling sta = XReal dt.
Hypothesis Hshift : shift sta = XReal sh.
Hypothesis Hdt : 0 < dt.
Hypothesis Hsh : sh = IZR (Z.of_nat s) * dt.

Lemma refaxis_real j : refaxis sta j = XReal (IZR j * dt - sh).
Proof. unfold refaxis. rewrite Hsamp, Hshift. reflexivity. Qed.

Lemma axis_lt j j' : (j < j')%Z -> IZR j * dt - sh < IZR j' * dt - sh.
Proof. intros Hj. apply IZR_lt in Hj. nra. Qed.

(** The samples before the arrival. *)
Lemma np_arange_pre :
  np_arange (fopp (shift sta)) fzero (sampling sta)
  = Ok (map (fun k => XReal (IZR (Z.of_nat k) * dt - sh)) (seq 0 s)).
Proof.
  unfold np_arange. rewrite Hsamp, Hshift.
  assert (Hq : (fzero -! fopp (XReal sh)) /! XReal dt = XReal (IZR (Z.of_nat s))).
  { change ((fzero -! fopp (XReal sh)) /! XReal dt)
      with (XR.div (XReal (0 - - sh)) (XReal dt)).
    rewrite ExactFacts.div_real by lra. f_equal. rewrite Hsh. field. lra. }
  rewrite Hq. cbn [fceil xreal_Numeric]. rewrite ceil_IZR, Nat2Z.id.
  f_equal. apply map_ext. intros k. destruct k as [|[|k]].
  - cbn -[Z.of_nat IZR]. f_equal. change (Z.of_nat 0) with 0%Z. ring.
  - cbn -[Z.of_nat IZR]. f_equal. change (Z.of_nat 1) with 1%Z. ring.
  - cbn -[Z.of_nat IZR]. f_equal. ring.
Qed.

Lemma first_sample :
  ftrunc (shift sta /! sampling sta +! fone) = Some (Z.of_nat s + 1)%Z.
Proof.
  rewrite Hsamp, Hshift.
  change (XReal sh /! XReal dt +! fone) with (XR.div (XReal sh) (XReal dt) +! XReal 1).
  rewrite ExactFacts.div_real by lra.
  change (XReal (sh / dt) +! XReal 1) with (XReal (sh / dt + 1)).
  change (ftrunc (XReal (sh / dt + 1))) with (XR.trunc (XReal (sh / dt + 1))).
  replace (sh / dt + 1) with (IZR (Z.of_nat s + 1)).
  - apply trunc_IZR. lia.
  - rewrite plus_IZR, Hsh. field. lra.
Qed.

(** *** The loop over the samples after the arrival *)

Variable ts : list R.
Variable n : nat.
Variables t0 c : R.
Variable kc : nat.
Hypothesis Hfirst : ts !! 0%nat = Some t0.
Hypothesis Ht0 : t0 <= 0.
Hypothesis Hkc : (kc < n)%nat.
Hypothesis Hc : ts !! kc = Some c.
Hypothesis Hcover : IZR (Z.of_nat (rflength sta) - 1) * dt - sh <= c.

Lemma crossing_first j :
  (Z.of_nat s < j < Z.of_nat (rflength sta))%Z ->
  exists k a b idx,
    crossing sta (map XReal ts) (StopLen n) j = Ok (S k :: idx)
    /\ ts !! k = Some a /\ ts !! S k = Some b
    /\ a < IZR j * dt - sh <= b.
Proof.
  intros Hj. unfold crossing. cbn [slice_to bind].
  set (p := fun t : xreal => refaxis sta j <=! t).
  assert (Hp : forall v, p (XReal v) = if Rle_dec (IZR j * dt - sh) v then true else false).
  { intros v. unfold p. rewrite refaxis_real. reflexivity. }
  assert (Hpos : 0 < IZR j * dt - sh).
  { rewrite Hsh. assert (IZR (Z.of_nat s) < IZR j) by (apply IZR_lt; lia). nra. }
  assert (Hle : IZR j * dt - sh <= c).
  { etransitivity; [|exact Hcover].
    assert (IZR j <= IZR (Z.of_nat (rflength sta) - 1)) by (apply IZR_le; lia). nra. }
  assert (Hin : kc ∈ np_where p (take n (map XReal ts))).
  { apply np_where_spec. exists (XReal c). split.
    - rewrite lookup_take_lt by exact Hkc. rewrite list_lookup_fmap, Hc. reflexivity.
    - rewrite Hp. destruct (Rle_dec (IZR j * dt - sh) c); [reflexivity|contradiction]. }
  destruct (np_where p (take n (map XReal ts))) as [|k1 idx] eqn:Ew.
  { apply elem_of_nil in Hin. contradiction. }
  unfold np_where in Ew.
  destruct (where_from_head _ _ _ _ _ Ew) as (_ & (v1 & Hv1 & Hpv1) & Hbefore).
  rewrite Nat.sub_0_r in Hv1, Hbefore.
  assert (Hk1 : (k1 < n)%nat).
  { apply lookup_lt_Some in Hv1. rewrite length_take in Hv1. lia. }
  rewrite lookup_take_lt, list_lookup_fmap in Hv1 by exact Hk1.
  destruct (ts !! k1) as [b|] eqn:Eb; [|discriminate]. injection Hv1 as <-.
  rewrite Hp in Hpv1. destruct (Rle_dec (IZR j * dt - sh) b) as [Hb|]; [|discriminate].
  destruct k1 as [|k].
  { rewrite Hfirst in Eb. injection Eb as <-. lra. }
  destruct (lookup_lt_is_Some_2 ts k) as [a Ea].
  { apply lookup_lt_Some in Eb. lia. }
  pose proof (Hbefore k (XReal a)) as Ha.
  rewrite lookup_take_lt, list_lookup_fmap, Ea in Ha by lia.
  specialize (Ha ltac:(lia) eq_refl). rewrite Hp in Ha.
  destruct (Rle_dec (IZR j * dt - sh) a) as [|Hna]; [discriminate|].
  exists k, a, b, idx. split; [reflexivity|]. split; [exact Ea|].
  split; [exact Eb|]. split; [lra|exact Hb].
Qed.

Lemma newaxis_loop_own js acc :
  Forall (fun j => (Z.of_nat s < j < Z.of_nat (rflength sta))%Z) js ->
  newaxis_loop sta (Float64 (map XReal ts)) (map XReal ts) (StopLen n) js
    (Float64 acc)
  = Ok (Float64 (acc ++ map (fun j => XReal (IZR j * dt - sh)) js)).
Proof.
  intros Hjs. revert acc. induction Hjs as [|j js Hj _ IH]; intros acc.
  - cbn [newaxis_loop map]. rewrite app_nil_r. reflexivity.
  - cbn [newaxis_loop].
    destruct (crossing_first j Hj) as (k & a & b & idx & -> & Ha & Hb & Hab).
    cbn [bind nd_get].
    rewrite (py_get_nonneg _ (Z.of_nat (S k)) (XReal b))
      by (first [lia | rewrite Nat2Z.id, list_lookup_fmap, Hb; reflexivity]).
    cbn [bind].
    rewrite (py_get_nonneg _ (Z.of_nat (S k) - 1) (XReal a)).
    2: lia.
    2:{ replace (Z.to_nat (Z.of_nat (S k) - 1)) with k by lia.
        rewrite list_lookup_fmap, Ha. reflexivity. }
    cbn [bind]. cbv zeta.
    cbn [sc_add sc_sub sc_mul sc_div sc_op nd_append_scalar].
    rewrite IH, refaxis_real.
    change ((XReal b -! XReal a) /! (XReal b -! XReal a))
      with (XR.div (XReal (b - a)) (XReal (b - a))).
    rewrite ExactFacts.div_real by lra.
    change (XReal a +! (XReal (IZR j * dt - sh) -! XReal a) *! XReal ((b - a) / (b - a)))
      with (XReal (a + (IZR j * dt - sh - a) * ((b - a) / (b - a)))).
    replace (a + (IZR j * dt - sh - a) * ((b - a) / (b - a))) with (IZR j * dt - sh)
      by (field; lra).
    rewrite <- app_assoc. reflexivity.
Qed.

Hypothesis Hs : (s < rflength sta)%nat.

Lemma newaxis_is_time_axis :
  exists pre,
    np_arange (fopp (shift sta)) fzero (sampling sta) = Ok pre
    /\ newaxis_loop sta (Float64 (map XReal ts)) (map XReal ts) (StopLen n)
         (py_range (Z.of_nat s + 1) (Z.of_nat (rflength sta)))
         (Float64 (pre ++ [fzero]))
       = Ok (Float64 (map XReal (map (fun j => IZR j * dt - sh)
                                   (py_range 0 (Z.of_nat (rflength sta)))))).
Proof.
  eexists. split; [apply np_arange_pre|].
  rewrite newaxis_loop_own.
  2:{ apply Forall_forall. intros j Hj. unfold py_range in Hj.
      apply list_elem_of_fmap in Hj as (k & -> & Hk).
      apply elem_of_seq in Hk. lia. }
  do 2 f_equal.
  rewrite (py_range_split 0 (Z.of_nat s) (Z.of_nat (rflength sta))) by lia.
  rewrite !map_app, <- app_assoc. cbn [map app]. f_equal.
  - unfold py_range. rewrite !map_map. replace (Z.to_nat (Z.of_nat s - 0)) with s by lia.
    apply map_ext. intros k. reflexivity.
  - f_equal.
    + change fzero with (XReal 0). f_equal. rewrite Hsh. ring.
    + rewrite map_map. reflexivity.
Qed.

Lemma x_new_axis_real :
  x_new_axis sta
  = map XReal (map (fun j => IZR j * dt - sh) (py_range 0 (Z.of_nat (rflength sta)))).
Proof.
  unfold x_new_axis. rewrite map_map. apply map_ext. intros j. apply refaxis_real.
Qed.

Lemma time_axis_increasing i j a b :
  (i < j)%nat ->
  map (fun j => IZR j * dt - sh) (py_range 0 (Z.of_nat (rflength sta))) !! i = Some a ->
  map (fun j => IZR j * dt - sh) (py_range 0 (Z.of_nat (rflength sta))) !! j = Some b ->
  a < b.
Proof.
  intros Hij Ha Hb. unfold py_range in Ha, Hb.
  rewrite !list_lookup_fmap in Ha, Hb.
  destruct (seq 0 _ !! i) as [i'|] eqn:Ei; [|discriminate].
  destruct (seq 0 _ !! j) as [j'|] eqn:Ej; [|discriminate].
  apply lookup_seq in Ei as [-> _]. apply lookup_seq in Ej as [-> _].
  cbn in Ha, Hb. injection Ha as <-. injection Hb as <-.
  apply axis_lt. lia.
Qed.

(** The body of the loop over the events, with the event's own curve as
    the reference. *)
Lemma moveout_event_own (data : list (list xreal)) (i : nat) (ds : list R) :
  data !! i = Some (map XReal ds) ->
  length ds = rflength sta ->
  (2 <= rflength sta)%nat ->
  moveout_event sta n (Float64 (map XReal ts)) (map XReal ts) data i
  = Ok (map XReal ds, (Z.of_nat n - 1)%Z).
Proof.
  intros Hrow Hds HL. unfold moveout_event.
  rewrite np_where_imag_real. cbn [stop_minus_one bind].
  destruct newaxis_is_time_axis as (pre & -> & Hloop). cbn [bind].
  rewrite first_sample. cbn [bind]. rewrite Hloop. cbn [bind].
  unfold get_row. rewrite Hrow. cbn [bind nd_length nd_interp_nan].
  rewrite !length_map, py_range_length.
  replace (Z.to_nat (Z.of_nat (rflength sta) - 0)) with (rflength sta) by lia.
  rewrite take_ge by (rewrite length_map; lia).
  rewrite x_new_axis_real.
  rewrite interp_nan_knots.
  2: exact time_axis_increasing.
  2: rewrite length_map, py_range_length; lia.
  2: rewrite length_map, py_range_length; lia.
  cbn [bind nd_where_isnan].
  assert (Hnan : np_where fisnan (map XReal ds) = []).
  { apply where_from_nil, Forall_map, Forall_forall. intros x _. reflexivity. }
  rewrite Hnan. unfold nd_fit_length. cbn [nd_length].
  rewrite length_map, Hds, Nat.ltb_irrefl. cbn [nd_take nd_real].
  rewrite take_ge by (rewrite length_map; lia).
  unfold assign_row. rewrite length_map, Hds, Nat.eqb_refl. reflexivity.
Qed.

End Axis.

End ExactMoveout.

(** X18.  In exact arithmetic, [moveoutcorrect_ref] returns unchanged the
    trace of an event whose ray parameter is the reference ray parameter,
    when the Ps travel-time curve of that ray parameter is real (no value
    of it carries an imaginary part), starts at or before zero and reaches
    the time of the last sample within the model's depths, and the shift
    is a whole number [s] of samples, with the arrival inside the trace:
    the new time axis is then the trace's own. *)
Theorem X18_moveoutcorrect_ref_keeps_reference_event
    (DepModel_init : list xreal -> string -> xreal -> result (DepModel xreal))
    (sta : RFStation xreal) (raypref : xreal) (Y : list xreal)
    (chan velmod : string) (sphere : bool)
    (Newdatar : list (list xreal)) (EndIndex : list Z)
    (data : list (list xreal)) (dep_mod : DepModel xreal) (m : xps_tps)
    (ts ds : list R) (dt t0 c : R) (s kc i : nat) :
  moveoutcorrect_ref DepModel_init sta raypref Y chan velmod sphere
  = Ok (Newdatar, EndIndex) ->
  select_chan sta chan = Ok data ->
  DepModel_init Y velmod (stel sta) = Ok dep_mod ->
  xps_tps_map dep_mod (RpScalar raypref) (RpScalar raypref) false sphere = Ok m ->
  xt_tps m = map (fun t => of_real (XReal t)) ts ->
  length ts = length Y ->
  i < ev_num sta ->
  rayp sta !! i = Some raypref ->
  data !! i = Some (map XReal ds) ->
  length ds = rflength sta ->
  sampling sta = XReal dt ->
  (0 < dt)%R ->
  shift sta = XReal (IZR (Z.of_nat s) * dt) ->
  s < rflength sta ->
  2 <= rflength sta ->
  ts !! 0 = Some t0 ->
  (t0 <= 0)%R ->
  kc < length (depths dep_mod) ->
  ts !! kc = Some c ->
  (IZR (Z.of_nat (rflength sta) - 1) * dt - IZR (Z.of_nat s) * dt <= c)%R ->
  Newdatar !! i = Some (map XReal ds).
Proof.
  intros Hm Hdata Hdep Href Hts Hlen Hi Hrayp Hrow Hds Hsamp Hdt Hshift Hs HL
         Hfirst Ht0 Hkc Hc Hcover.
  unfold moveoutcorrect_ref in Hm. rewrite Hdata, Hdep in Hm. cbn [bind] in Hm.
  match type of Hm with
  | bind ?c _ = _ => destruct c as [tps|] eqn:Htps; [|discriminate]
  end.
  cbn [bind] in Hm. rewrite Href in Hm. cbn [bind] in Hm.
  match type of Hm with
  | bind ?c _ = _ => destruct c as [rows|] eqn:Hrows; [|discriminate]
  end.
  cbn [bind] in Hm. injection Hm as <- _.
  assert (Hseq : seq 0 (ev_num sta) !! i = Some i) by (apply lookup_seq_lt; exact Hi).
  apply mapM_Ok_inv in Htps, Hrows.
  destruct (Forall2_lookup_l _ _ _ _ _ Htps Hseq) as (t & Ht & Hti).
  destruct (Forall2_lookup_l _ _ _ _ _ Hrows Hseq) as (r & Hr & Hri).
  cbv beta in Hti, Hri.
  unfold get_row in Hti at 1. rewrite Hrayp in Hti. cbn [bind] in Hti.
  assert (Hcast : astype_float (xt_tps m) = map XReal ts).
  { rewrite Hts. unfold astype_float. rewrite map_map. reflexivity. }
  rewrite Href in Hti. cbn [bind] in Hti. rewrite Hcast in Hti.
  apply assign_row_Ok in Hti as [_ Hti].
  rewrite (Hti ltac:(rewrite length_map; exact Hlen)) in Ht.
  unfold get_row in Hri at 1. rewrite Ht in Hri. cbn [bind] in Hri.
  rewrite Hts, ExactMoveout.as_ndarray_real in Hri.
  rewrite (ExactMoveout.moveout_event_own sta dt (IZR (Z.of_nat s) * dt) s
             Hsamp Hshift Hdt eq_refl ts (length (depths dep_mod)) t0 c kc
             Hfirst Ht0 Hkc Hc Hcover Hs data i ds Hrow Hds HL) in Hri.
  injection Hri as <-. rewrite list_lookup_fmap, Hr. reflexivity.
Qed.

Lemma X18_moveoutcorrect_ref_witness :
  moveoutcorrect_ref ExactStation.model ExactStation.station_shifted (XReal 0)
    ExactStation.grid "r" "iasp91" true
  = Ok ([map XReal ExactStation.trace], [2%Z])
  /\ [map XReal ExactStation.trace] !! 0 = Some (map XReal ExactStation.trace).
Proof.
  assert (Hsh : shift ExactStation.station_shifted = XReal (IZR (Z.of_nat 1) * 1)).
  { cbn [ExactStation.station_shifted shift]. f_equal.
    change (Z.of_nat 1) with 1%Z. lra. }
  assert (Hcover : (IZR (Z.of_nat (rflength ExactStation.station_shifted) - 1) * 1
                    - IZR (Z.of_nat 1) * 1 <= 1)%R).
  { cbn [ExactStation.station_shifted rflength].
    change (Z.of_nat 3 - 1)%Z with 2%Z. change (Z.of_nat 1) with 1%Z. lra. }
  assert (Hrun : moveoutcorrect_ref ExactStation.model ExactStation.station_shifted
                   (XReal 0) ExactStation.grid "r" "iasp91" true
                 = Ok ([map XReal ExactStation.trace], [2%Z])).
  { unfold moveoutcorrect_ref, select_chan, get_attr.
    cbn [String.eqb Ascii.eqb Bool.eqb].
    cbn [ExactStation.station_shifted data_dict].
    rewrite lookup_singleton_eq.
    cbn [bind ExactStation.model ExactStation.station_shifted stel ev_num rayp
         seq mapM get_row lookup list_lookup].
    unfold xps_tps_map. cbn [elevation].
    change (XReal 0 ==! fzero) with (XR.eqb (XReal 0) (XReal 0)).
    rewrite ExactFacts.eqb_refl_real. cbn [negb xt_tps tpds bind].
    rewrite ExactMoveout.as_ndarray_real.
    change (astype_float (map (fun t : R => of_real (XReal t)) ExactStation.curve))
      with (map XReal ExactStation.curve).
    change (assign_row (length ExactStation.grid) (map XReal ExactStation.curve))
      with (Ok (map XReal ExactStation.curve)).
    cbn [bind get_row lookup list_lookup depths].
    rewrite (ExactMoveout.moveout_event_own ExactStation.station_shifted
               1 (IZR (Z.of_nat 1) * 1) 1 eq_refl Hsh Rlt_0_1 eq_refl
               ExactStation.curve (length ExactStation.grid) 0 1 1
               eq_refl (Rle_refl 0) ltac:(cbn; lia) eq_refl Hcover
               ltac:(cbn; lia)
               [map XReal ExactStation.trace] 0 ExactStation.trace eq_refl eq_refl
               ltac:(cbn; lia)).
    reflexivity. }
  split; [exact Hrun|].
  apply (X18_moveoutcorrect_ref_keeps_reference_event
           ExactStation.model ExactStation.station_shifted (XReal 0)
           ExactStation.grid "r" "iasp91" true
           [map XReal ExactStation.trace] [2%Z] [map XReal ExactStation.trace]
           {| depths := ExactStation.grid; depths_elev := ExactStation.grid;
              elevation := XReal 0;
              radius_s := fun _ _ _ => map (fun _ => of_real (XReal 0)) ExactStation.grid;
              raylength := fun _ _ _ => map (fun _ => of_real (XReal 0)) ExactStation.grid;
              tpds := fun _ _ _ => map (fun t => of_real (XReal t)) ExactStation.curve |}
           {| xt_tps := map (fun t => of_real (XReal t)) ExactStation.curve;
              xt_x_s := map (fun _ => of_real (XReal 0)) ExactStation.grid;
              xt_x_p := map (fun _ => of_real (XReal 0)) ExactStation.grid;
              xt_raylength := None |}
           ExactStation.curve ExactStation.trace 1%R 0%R 1%R 1 1 0).
  - exact Hrun.
  - unfold select_chan, get_attr. cbn [String.eqb Ascii.eqb Bool.eqb].
    cbn [ExactStation.station_shifted data_dict].
    rewrite lookup_singleton_eq. reflexivity.
  - reflexivity.
  - unfold xps_tps_map. cbn [elevation].
    change (XReal 0 ==! fzero) with (XR.eqb (XReal 0) (XReal 0)).
    rewrite ExactFacts.eqb_refl_real. reflexivity.
  - reflexivity.
  - reflexivity.
  - cbn. lia.
  - reflexivity.
  - reflexivity.
  - reflexivity.
  - reflexivity.
  - lra.
  - exact Hsh.
  - cbn. lia.
  - cbn. lia.
  - reflexivity.
  - lra.
  - cbn. lia.
  - reflexivity.
  - exact Hcover.
Defined.

(** With a reference curve that carries an imaginary part the new time
    axis is complex, and so is the interpolated trace, of which the row
    keeps the real parts: the last sample of the trace, 5, comes back as
    4.4 (the binary64 number [0x1.199999999999ap+2]). *)
Example moveoutcorrect_ref_complex_reference :
  as_ndarray Fixtures.late_turning_curve = Complex128 Fixtures.late_turning_curve
  /\ moveoutcorrect_ref
       (fun g _ e => Ok (Fixtures.curve_model g e Fixtures.late_turning_curve))
       Fixtures.station3 1%float Fixtures.grid3 "r" "iasp91" true
     = Ok ([[1; -4; 2; 0x1.199999999999ap+2]%float], [2%Z]).
Proof. split; vm_compute; reflexivity. Qed.

(** ** An event that is evanescent from the first depth sample on (C4) *)

(** C4 (the code departs from the claim).  The claim: an event that is
    evanescent already at depth index 0 yields an all-invalid travel-time
    curve and an all-zero depth profile.  On a travel-time curve that
    carries an imaginary part at every depth, [_imag2nan] marks nothing,
    [psrf2depth] stores the real parts of the curve in its float64 buffer
    and [time2depth], searching that buffer for an imaginary part equal to
    1, uses the whole curve: the end index is the last depth (3) and the
    event's row of the depth profile holds the amplitudes read at the real
    parts of the travel times, not zeros. *)
Lemma C4_evanescent_event_not_zeroed :
  forallb (fun z => negb (im z ==! fzero)) Fixtures.evanescent_curve = true
  /\ _imag2nan Fixtures.evanescent_curve = Fixtures.evanescent_curve
  /\ psrf2depth Fixtures.small_angle_geo CallerFixtures.no_path
       (fun g _ e => Ok (Fixtures.curve_model g e Fixtures.evanescent_curve))
       CallerFixtures.no_load CallerFixtures.keep_velocities
       Fixtures.station1 Fixtures.grid4 "iasp91" SraypNone
       (Some "single"%string) true
     = Ok ([[0.375; 0.625; 0.75; nan]%float], [3%Z],
           [[0; 1; 1.5; 1.75]%float], [[0; 1; 1.5; 1.75]%float])
  /\ time2depth Fixtures.station1 Fixtures.grid4 [[0; 1; 1.5; 1.75]%float]
       (Some "single"%string)
     = Ok ([[0.375; 0.625; 0.75; nan]%float], [3%Z]).
Proof. repeat split; vm_compute; reflexivity. Qed.
